(** * YASK stencil kernel: bundle and stage evaluation (stencil_calc.hpp)

    A shallow embedding of the nano-block decomposition of
    [StencilBundleTempl] and of the step test of [Stage], with the
    properties of the kernel specification proved about it.

    Conventions.
    - [idx_t] (a signed 64-bit integer) is [Z].  Signed overflow is undefined
      in C++, so the embedding describes the executions without overflow.
    - [bit_mask_t] (an unsigned 64-bit integer) is a [Z] in [0, 2^64).
    - [Indices] is a [list Z] with one entry per stencil dim: the step dim
      at position [step_posn = 0], then the domain dims.  Tuples over the
      domain dims only (fold points, cluster points, rank offsets, masks)
      are lists indexed by the domain-dim index [j].
    - A computation returns a [Result]: its value and the trace of the calls
      it made into the generated stencil code, or a fault (a failed
      [assert] of a DEBUG build, or a YASK exception). *)

From Stdlib Require Import ZArith Lia List Bool String.
From stdpp Require Import base numbers list gmap.

Local Open Scope Z_scope.

(** ** Index and mask primitives *)

Abbreviation idx_t := Z (only parsing).
Abbreviation bit_mask_t := Z (only parsing).
Abbreviation Indices := (list Z) (only parsing).

(** Modelled from the spec: the helpers of idiv.hpp.  The spec fixes signed floor-division semantics for the division, the
    remainder and both roundings ("floor-div", "round_up_to_multiple",
    "round_down_to_multiple").  Rounding up goes through the floor of
    [a + b - 1], the way YASK derives it from [idiv_flr]. *)
Definition idiv_flr (a b : idx_t) : idx_t := a / b.

Definition imod_flr (a b : idx_t) : idx_t := a mod b.

Definition round_down_flr (a b : idx_t) : idx_t := idiv_flr a b * b.

Definition round_up_flr (a b : idx_t) : idx_t := idiv_flr (a + b - 1) b * b.

(** [bit_mask_t(-1)]: all 64 bits set. *)
Definition all_ones : bit_mask_t := 2 ^ 64 - 1.

(** Conversion of an [idx_t] to [bit_mask_t] (wraps modulo 2^64). *)
Definition to_bit_mask (x : idx_t) : bit_mask_t := x mod 2 ^ 64.

(** Conversion to [idx_t] (two's complement): the value in
    [-2^63, 2^63) congruent to [x] modulo 2^64. *)
Definition to_idx (x : Z) : idx_t := (x + 2 ^ 63) mod 2 ^ 64 - 2 ^ 63.

(** Modelled from the spec: the bit helpers of the utilities header
    ("bit-mask helpers"); bit [j] of a bit field belongs to domain dim [j]. *)
Definition set_bit (m : bit_mask_t) (j : nat) : bit_mask_t :=
  Z.lor m (Z.shiftl 1 (Z.of_nat j)).

Definition is_bit_set (m : bit_mask_t) (j : nat) : bool :=
  Z.testbit m (Z.of_nat j).

(** Product of the entries of a tuple ([IdxTuple::product]). *)
Definition product (l : Indices) : Z := foldr Z.mul 1 l.

(** [Indices::set_from_const]. *)
Definition set_from_const (l : Indices) (c : idx_t) : Indices :=
  (λ _, c) <$> l.

(** Modelled from the spec: [unlayout] maps a linear offset to the N-D
    offsets of a point in the space whose sizes are given; with
    [first_inner] the first dim has unit stride, otherwise the last one has
    ("inner-first or outer-first per fold layout"). *)
Fixpoint unlayout_inner (sizes : Indices) (offset : Z) : Indices :=
  match sizes with
  | [] => []
  | s :: rest => offset mod s :: unlayout_inner rest (offset / s)
  end.

Definition unlayout (first_inner : bool) (sizes : Indices) (offset : Z)
  : Indices :=
  if first_inner then unlayout_inner sizes offset
  else reverse (unlayout_inner (reverse sizes) offset).

(** The inverse map: linear offset of an N-D point. *)
Fixpoint layout_inner (sizes pt : Indices) : Z :=
  match sizes, pt with
  | s :: rest, p :: pt' => p + s * layout_inner rest pt'
  | _, _ => 0
  end.

Definition layout (first_inner : bool) (sizes pt : Indices) : Z :=
  if first_inner then layout_inner sizes pt
  else layout_inner (reverse sizes) (reverse pt).

(** Modelled from the spec: [visit_all_points] calls the visitor at every
    point of the space in layout order, passing the point and its linear
    index, and stops early when the visitor returns [false].  The state the
    C++ lambda captures by reference is threaded through explicitly. *)
Definition visit_all_points {S : Type} (first_inner : bool) (sizes : Indices)
    (visitor : S → Indices → nat → S * bool) (s : S) : S * bool :=
  foldl (λ (acc : S * bool) (idx : nat),
           if acc.2 then visitor acc.1 (unlayout first_inner sizes (Z.of_nat idx)) idx
           else acc)
        (s, true) (seq 0 (Z.to_nat (product sizes))).

(** Modelled from the spec: N-choose-K enumeration.  [n_choose_k n k] is the
    number of [k]-subsets of [n] dims and [n_choose_k_set n k r] is the
    [r]-th of them, as a bit set over the dims. *)
Fixpoint n_choose_k (n k : nat) : nat :=
  match k, n with
  | O, _ => 1
  | S _, O => 0
  | S k', S n' => (n_choose_k n' k + n_choose_k n' k')%nat
  end.

Fixpoint combos (n k : nat) : list bit_mask_t :=
  match k, n with
  | O, _ => [0]
  | S _, O => []
  | S k', S n' =>
      combos n' k ++ ((λ c, set_bit c n') <$> combos n' k')
  end.

Definition n_choose_k_set (n k r : nat) : bit_mask_t :=
  nth r (combos n k) 0.

(** ** Scan indices *)

Record ScanIndices := {
  begin : Indices;
  end_ : Indices;
  start : Indices;
  stop : Indices;
  stride : Indices;
  tile_size : Indices;
  align : Indices;
  align_ofs : Indices
}.

Definition with_begin (v : Indices) (s : ScanIndices) : ScanIndices :=
  {| begin := v; end_ := end_ s; start := start s; stop := stop s;
     stride := stride s; tile_size := tile_size s; align := align s;
     align_ofs := align_ofs s |}.

Definition with_end (v : Indices) (s : ScanIndices) : ScanIndices :=
  {| begin := begin s; end_ := v; start := start s; stop := stop s;
     stride := stride s; tile_size := tile_size s; align := align s;
     align_ofs := align_ofs s |}.

Definition with_start (v : Indices) (s : ScanIndices) : ScanIndices :=
  {| begin := begin s; end_ := end_ s; start := v; stop := stop s;
     stride := stride s; tile_size := tile_size s; align := align s;
     align_ofs := align_ofs s |}.

Definition with_stop (v : Indices) (s : ScanIndices) : ScanIndices :=
  {| begin := begin s; end_ := end_ s; start := start s; stop := v;
     stride := stride s; tile_size := tile_size s; align := align s;
     align_ofs := align_ofs s |}.

Definition with_stride (v : Indices) (s : ScanIndices) : ScanIndices :=
  {| begin := begin s; end_ := end_ s; start := start s; stop := stop s;
     stride := v; tile_size := tile_size s; align := align s;
     align_ofs := align_ofs s |}.

Definition with_tile_size (v : Indices) (s : ScanIndices) : ScanIndices :=
  {| begin := begin s; end_ := end_ s; start := start s; stop := stop s;
     stride := stride s; tile_size := v; align := align s;
     align_ofs := align_ofs s |}.

Definition with_align (v : Indices) (s : ScanIndices) : ScanIndices :=
  {| begin := begin s; end_ := end_ s; start := start s; stop := stop s;
     stride := stride s; tile_size := tile_size s; align := v;
     align_ofs := align_ofs s |}.

Definition with_align_ofs (v : Indices) (s : ScanIndices) : ScanIndices :=
  {| begin := begin s; end_ := end_ s; start := start s; stop := stop s;
     stride := stride s; tile_size := tile_size s; align := align s;
     align_ofs := v |}.

(** Position of the step dim in [Indices]. *)
Definition step_posn : nat := 0.

(** Modelled from the spec: [create_inner] seeds the traversal of a child
    tile: begin and end of the inner loop are start and stop of the outer
    one ("Init nano-block begin & end from block start & stop indices"). *)
Definition create_inner (outer : ScanIndices) : ScanIndices :=
  with_end (stop outer) (with_begin (start outer) outer).

(** Modelled from the spec: [set_strides_from_inner] takes the strides of
    the domain dims from the sizes of the inner block and the stride of the
    step dim from its second argument. *)
Definition set_strides_from_inner (inner_sizes : Indices) (step_stride : idx_t)
    (s : ScanIndices) : ScanIndices :=
  with_stride (<[step_posn := step_stride]> inner_sizes) s.

(** ** Dimensions, settings and context *)

Record Dims := {
  _fold_pts : Indices;       (* points per vector in each domain dim *)
  _cluster_pts : Indices;    (* points per cluster in each domain dim *)
  _fold_sizes : Indices;     (* sizes of the fold, as visited lane by lane *)
  is_first_inner : bool      (* fold layout: first dim has unit stride *)
}.

Record KernelSettings := {
  _pico_block_sizes : Indices;
  _nano_block_tile_sizes : Indices;
  force_scalar : bool
}.

Record StencilContext := {
  dims : Dims;
  nddims : nat;
  rank_domain_offsets : Indices;
  thread_limit : Z;
  check_step_conds : bool
}.

(** [CPTS]: the number of points of a cluster, the product of the cluster
    sizes of stencil.hpp. *)
Definition CPTS (d : Dims) : Z := product (_cluster_pts d).

(** ** Calls into the generated stencil code, and results *)

Inductive Event :=
| IsInValidDomain (pt : Indices)
| IsInValidStep (step : idx_t)
| CalcScalar (thread_or_scratch_idx : Z) (pt : Indices)
| CalcVectors (outer_thread inner_thread limit : Z)
              (norm_idxs : ScanIndices) (mask : bit_mask_t)
| CalcClusters (outer_thread inner_thread limit : Z)
               (norm_idxs : ScanIndices).

Inductive Result (A : Type) : Type :=
| Ok (a : A) (tr : list Event)
| Fault (msg : string) (tr : list Event).
Arguments Ok {A} a tr.
Arguments Fault {A} msg tr.

#[global] Instance Result_ret : MRet Result := λ A a, Ok a [].

#[global] Instance Result_bind : MBind Result := λ A B f m,
  match m with
  | Ok a tr =>
      match f a with
      | Ok b tr' => Ok b (tr ++ tr')
      | Fault msg tr' => Fault msg (tr ++ tr')
      end
  | Fault msg tr => Fault msg tr
  end.

(** One call into the generated code. *)
Definition emit (e : Event) : Result unit := Ok tt [e].

(** [assert]: stencil.hpp turns assertions on with DEBUG only. *)
Definition assert_ (DEBUG : bool) (cond : bool) (msg : string) : Result unit :=
  if DEBUG && negb cond then Fault msg [] else mret tt.

Definition THROW_YASK_EXCEPTION {A : Type} (msg : string) : Result A :=
  Fault msg [].

(** Run a body on the items of a list, first to last. *)
Fixpoint for_each {A : Type} (l : list A) (body : A → Result unit)
  : Result unit :=
  match l with
  | [] => mret tt
  | x :: rest => body x ;; for_each rest body
  end.

(** The same with a state passed from one iteration to the next. *)
Fixpoint for_each_st {A S : Type} (l : list A) (body : S → A → Result S)
    (s : S) : Result S :=
  match l with
  | [] => mret s
  | x :: rest => s' ← body s x; for_each_st rest body s'
  end.

(** The value a computation returns, if it does. *)
Definition returns {A : Type} (m : Result A) (a : A) : Prop :=
  ∃ tr, m = Ok a tr.

(** The calls a computation made. *)
Definition trace {A : Type} (m : Result A) : list Event :=
  match m with Ok _ tr => tr | Fault _ tr => tr end.

(** [DOMAIN_VAR_LOOP(i, j)]: [j] runs over the domain dims and [i] is the
    position of dim [j] among the stencil dims. *)
Definition DOMAIN_VAR_LOOP {S : Type} (n : nat) (body : S → nat → nat → S)
    (s : S) : S :=
  foldl (λ s j, body s (step_posn + 1 + j)%nat j) s (seq 0 n).

Definition DOMAIN_VAR_LOOP_M {S : Type} (n : nat)
    (body : S → nat → nat → Result S) (s : S) : Result S :=
  for_each_st (seq 0 n) (λ s j, body s (step_posn + 1 + j)%nat j) s.

(** ** The code generated by the stencil compiler for one bundle *)

Record StencilBundleImplT := {
  _name : string;
  _is_scratch : bool;
  gen_is_in_valid_domain : Indices → bool;
  gen_is_in_valid_step : idx_t → bool
}.

(** ** Virtual interface of a bundle, as a stage sees it *)

Class StencilBundleBase (B : Type) := {
  is_scratch : B → bool;
  is_in_valid_step : B → idx_t → Result bool
}.

(** ** The bundle template (class StencilBundleTempl) *)

(** Loop-local variables of one pass of the per-dim loop of
    [calc_nano_block_opt]. *)
Record DimVars := {
  ebgn : idx_t; eend : idx_t;
  fcbgn : idx_t; fcend : idx_t;
  fvbgn : idx_t; fvend : idx_t;
  ovbgn : idx_t; ovend : idx_t;
  do_left_fvec : bool; do_right_fvec : bool;
  do_left_pvec : bool; do_right_pvec : bool;
  pmask : idx_t; rmask : idx_t
}.

(** Variables of [calc_nano_block_opt] that outlive the per-dim loop. *)
Record NanoBlockVars := {
  sb_eidxs : ScanIndices;
  sb_fcidxs : ScanIndices;
  sb_fvidxs : ScanIndices;
  sb_ovidxs : ScanIndices;
  do_clusters : bool;
  do_outside_clusters : bool;
  do_left_fvecs : bit_mask_t; do_right_fvecs : bit_mask_t;
  do_left_pvecs : bit_mask_t; do_right_pvecs : bit_mask_t;
  peel_masks : Indices; rem_masks : Indices
}.

(** Variables of one boundary part (one combo of dims, one left-right
    sequence). *)
Record PartVars := {
  fv_part : ScanIndices;
  pv_part : ScanIndices;
  fv_needed : bool;
  pv_needed : bool;
  pv_mask : bit_mask_t;
  nsel : nat
}.

(** [idxs.begin[i] = v] and [idxs.end[i] = v]. *)
Definition set_begin (i : nat) (v : idx_t) (s : ScanIndices) : ScanIndices :=
  with_begin (<[i := v]> (begin s)) s.

Definition set_end (i : nat) (v : idx_t) (s : ScanIndices) : ScanIndices :=
  with_end (<[i := v]> (end_ s)) s.

(** Modelled from the spec: the loops of yask_misc_loops.hpp "traverse all
    lattice points in [start, stop) with a given stride", the body being
    run once per point.  They scan the domain dims, first dim outermost;
    the step index is the one of [begin].  A dim whose stride is not
    positive is not scanned (the callers pass stride 1). *)
Definition range_points (b e s : idx_t) : list idx_t :=
  if 0 <? s then (λ t, b + t * s) <$> seqZ 0 ((e - b + s - 1) / s) else [].

Fixpoint scan_points (bgn en strd : Indices) : list Indices :=
  match bgn, en, strd with
  | b :: bs, e :: es, s :: ss =>
      x ← range_points b e s; (λ pt, x :: pt) <$> scan_points bs es ss
  | _, _, _ => [[]]
  end.

Definition MISC_LOOP (misc_idxs : ScanIndices)
    (body : ScanIndices → Result unit) : Result unit :=
  for_each
    (scan_points (tail (begin misc_idxs)) (tail (end_ misc_idxs))
                 (tail (stride misc_idxs)))
    (λ pt,
       let st := (begin misc_idxs !!! step_posn) :: pt in
       let sp := zip_with Z.min (zip_with Z.add st (stride misc_idxs))
                                (end_ misc_idxs) in
       body (with_stop sp (with_start st misc_idxs))).

Module StencilBundleTempl.

Record t := {
  _context : StencilContext;
  _bundle : StencilBundleImplT
}.

(** Determine whether indices are in the [sub-]domain. *)
Definition is_in_valid_domain (b : t) (idxs : Indices) : Result bool :=
  emit (IsInValidDomain idxs);;
  mret (gen_is_in_valid_domain (_bundle b) idxs).

(** Determine whether the step index is enabled: [||] evaluates its
    second operand only when the first one is false. *)
Definition is_in_valid_step (b : t) (input_step_index : idx_t)
  : Result bool :=
  if negb (check_step_conds (_context b)) then mret true
  else
    emit (IsInValidStep input_step_index);;
    mret (gen_is_in_valid_step (_bundle b) input_step_index).

(** Normalize the indices: divide by the vector length in each dim. *)
Definition normalize_indices (DEBUG : bool) (b : t) (orig : Indices)
  : Result Indices :=
  let ctx := _context b in
  assert_ DEBUG (bool_decide (length orig = S (nddims ctx)))
          "orig.get_num_dims() == nsdims";;
  DOMAIN_VAR_LOOP_M (nddims ctx)
    (λ norm i j,
       let norm :=
         <[i := idiv_flr (orig !!! i) (_fold_pts (dims ctx) !!! j)]> norm in
       assert_ DEBUG (imod_flr (orig !!! i) (_fold_pts (dims ctx) !!! j) =? 0)
               "imod_flr(orig[i], fold_pts[j]) == 0";;
       mret norm)
    orig.

Definition normalize_scan_indices (DEBUG : bool) (b : t) (orig : ScanIndices)
  : Result ScanIndices :=
  nbegin ← normalize_indices DEBUG b (begin orig);
  nend ← normalize_indices DEBUG b (end_ orig);
  ntile ← normalize_indices DEBUG b (tile_size orig);
  nalign ← normalize_indices DEBUG b (align orig);
  nstride ← normalize_indices DEBUG b (stride orig);
  mret {| begin := nbegin; end_ := nend; start := nbegin; stop := nend;
          stride := nstride; tile_size := ntile; align := nalign;
          align_ofs := align_ofs orig |}.

(** Calculate results for an arbitrary tile for points in the valid
    domain: the reference scalar code. *)
Definition calc_in_domain (b : t) (scratch_var_idx : Z)
    (misc_idxs : ScanIndices) : Result unit :=
  MISC_LOOP misc_idxs
    (λ misc_range,
       is_in_valid_domain b (start misc_range) ≫= λ ok : bool,
         if ok then emit (CalcScalar scratch_var_idx (start misc_range))
         else mret tt).

(** Scalar calc loop. *)
Definition calc_nano_block_dbg2 (outer_thread_idx : Z)
    (misc_idxs : ScanIndices) : Result unit :=
  MISC_LOOP misc_idxs
    (λ misc_range, emit (CalcScalar outer_thread_idx (start misc_range))).

(** Calculate results for one nano-block using pure scalar code. *)
Definition calc_nano_block_dbg (b : t) (outer_thread_idx inner_thread_idx : Z)
    (settings : KernelSettings) (micro_block_idxs : ScanIndices)
  : Result unit :=
  let sb_idxs := create_inner micro_block_idxs in
  let sb_idxs := with_stride (set_from_const (stride sb_idxs) 1) sb_idxs in
  let sb_idxs := with_align (set_from_const (align sb_idxs) 1) sb_idxs in
  calc_nano_block_dbg2 outer_thread_idx sb_idxs.

(** Calculate a tile of clusters. *)
Definition calc_clusters_opt2 (outer_thread_idx inner_thread_idx limit : Z)
    (norm_idxs : ScanIndices) : Result unit :=
  emit (CalcClusters outer_thread_idx inner_thread_idx limit norm_idxs).

(** Calculate a tile of vectors using the given mask. *)
Definition calc_vectors_opt2 (d : Dims)
    (outer_thread_idx inner_thread_idx limit : Z)
    (norm_idxs : ScanIndices) (mask : bit_mask_t) : Result unit :=
  if CPTS d =? 1 then
    THROW_YASK_EXCEPTION
      "(internal fault) masked-vector code not expected with cluster-size==1"
  else
    emit (CalcVectors outer_thread_idx inner_thread_idx limit norm_idxs mask).

(** *** The per-dim loop of [calc_nano_block_opt] *)

(** Rank-relative begin and end, the ranges of full clusters, of full
    vectors and the outer vector-aligned boundaries, and the four flags,
    as first computed. *)
Definition dim_bounds (ctx : StencilContext) (sb_idxs : ScanIndices)
    (i j : nat) : DimVars :=
  let rofs := rank_domain_offsets ctx !!! j in
  let ebgn := begin sb_idxs !!! i - rofs in
  let eend := end_ sb_idxs !!! i - rofs in
  let cpts := _cluster_pts (dims ctx) !!! j in
  let fcbgn := round_up_flr ebgn cpts in
  let fcend := round_down_flr eend cpts in
  let vpts := _fold_pts (dims ctx) !!! j in
  let fvbgn := round_up_flr ebgn vpts in
  let fvend := round_down_flr eend vpts in
  let ovbgn := round_down_flr ebgn vpts in
  let ovend := round_up_flr eend vpts in
  {| ebgn := ebgn; eend := eend;
     fcbgn := fcbgn; fcend := fcend;
     fvbgn := fvbgn; fvend := fvend;
     ovbgn := ovbgn; ovend := ovend;
     do_left_fvec := fvbgn <? fcbgn;
     do_right_fvec := fvend >? fcend;
     do_left_pvec := ebgn <? fvbgn;
     do_right_pvec := eend >? fvend;
     pmask := 0; rmask := 0 |}.

Definition dim_bounds_checked (DEBUG : bool) (ctx : StencilContext)
    (sb_idxs : ScanIndices) (i j : nat) : Result DimVars :=
  let dv := dim_bounds ctx sb_idxs i j in
  assert_ DEBUG (ovend dv >=? ovbgn dv) "ovend >= ovbgn";;
  assert_ DEBUG (ovbgn dv <=? fvbgn dv) "ovbgn <= fvbgn";;
  assert_ DEBUG (ovend dv >=? fvend dv) "ovend >= fvend";;
  mret dv.

(** The lambda passed to [visit_all_points]; the masks it updates are
    the state.  The masks are signed [idx_t]s: [>>= 1] is the arithmetic
    shift, which is [Z.shiftr] also on a negative [Z], and [|=] on two's
    complement is [Z.lor]; neither leaves the range of [idx_t]. *)
Definition mask_visitor (j : nat) (dv : DimVars) (mbit : idx_t)
    (m : idx_t * idx_t) (pt : Indices) (idx : nat)
  : (idx_t * idx_t) * bool :=
  let pmask := Z.shiftr m.1 1 in
  let rmask := Z.shiftr m.2 1 in
  let pi := ovbgn dv + pt !!! j in
  let pmask := if pi >=? ebgn dv then Z.lor pmask mbit else pmask in
  let pi := fvend dv + pt !!! j in
  let rmask := if pi <? eend dv then Z.lor rmask mbit else rmask in
  ((pmask, rmask), true).

Definition with_masks (pm rm : idx_t) (dv : DimVars) : DimVars :=
  {| ebgn := ebgn dv; eend := eend dv;
     fcbgn := fcbgn dv; fcend := fcend dv;
     fvbgn := fvbgn dv; fvend := fvend dv;
     ovbgn := ovbgn dv; ovend := ovend dv;
     do_left_fvec := do_left_fvec dv; do_right_fvec := do_right_fvec dv;
     do_left_pvec := do_left_pvec dv; do_right_pvec := do_right_pvec dv;
     pmask := pm; rmask := rm |}.

(** Create masks.  The upper bit [idx_t(1) << (product - 1)] is a signed
    64-bit value: for a fold of 64 lanes it is the sign bit, [-2^63]. *)
Definition make_masks (DEBUG : bool) (d : Dims) (j : nat) (dv : DimVars)
  : Result DimVars :=
  if do_left_pvec dv || do_right_pvec dv then
    let mbit := to_idx (Z.shiftl 1 (product (_fold_pts d) - 1)) in
    let first_inner := is_first_inner d in
    let m := (visit_all_points first_inner (_fold_sizes d)
                (mask_visitor j dv mbit) (pmask dv, rmask dv)).1 in
    (if do_left_pvec dv then assert_ DEBUG (negb (m.1 =? 0)) "pmask != 0"
     else mret tt);;
    (if do_right_pvec dv then assert_ DEBUG (negb (m.2 =? 0)) "rmask != 0"
     else mret tt);;
    mret (with_masks m.1 m.2 dv)
  else mret dv.

(** Special cases: boundaries and flags that need fixing due to overlaps.
    The second component is the global [do_clusters]. *)
Definition fixups (DEBUG : bool) (dv : DimVars) (do_clusters : bool)
  : Result (DimVars * bool) :=
  if do_left_pvec dv && do_right_pvec dv && (ovbgn dv =? fvend dv) then
    assert_ DEBUG (fvbgn dv =? ovend dv) "fvbgn == ovend";;
    mret ({| ebgn := ebgn dv; eend := eend dv;
             fcbgn := fcbgn dv; fcend := fcend dv;
             fvbgn := fvbgn dv; fvend := fvend dv;
             ovbgn := ovbgn dv; ovend := ovend dv;
             do_left_fvec := false; do_right_fvec := false;
             do_left_pvec := true; do_right_pvec := false;
             pmask := Z.land (pmask dv) (rmask dv); rmask := 0 |},
          false)
  else if fcend dv <=? fcbgn dv then
    let any_fvec := do_left_fvec dv || do_right_fvec dv in
    mret ({| ebgn := ebgn dv; eend := eend dv;
             fcbgn := fvend dv; fcend := fvend dv;
             fvbgn := fvbgn dv; fvend := fvend dv;
             ovbgn := ovbgn dv; ovend := ovend dv;
             do_left_fvec := if any_fvec then true else do_left_fvec dv;
             do_right_fvec := if any_fvec then false else do_right_fvec dv;
             do_left_pvec := do_left_pvec dv;
             do_right_pvec := do_right_pvec dv;
             pmask := pmask dv; rmask := rmask dv |},
          false)
  else mret (dv, do_clusters).

(** Save the loop-local vars of the current dim. *)
Definition save_dim (st : NanoBlockVars) (i j : nat) (dv : DimVars)
    (do_clusters' : bool) : NanoBlockVars :=
  {| sb_eidxs := set_end i (eend dv) (set_begin i (ebgn dv) (sb_eidxs st));
     sb_fcidxs := set_end i (fcend dv) (set_begin i (fcbgn dv) (sb_fcidxs st));
     sb_fvidxs := set_end i (fvend dv) (set_begin i (fvbgn dv) (sb_fvidxs st));
     sb_ovidxs := set_end i (ovend dv) (set_begin i (ovbgn dv) (sb_ovidxs st));
     do_clusters := do_clusters';
     do_outside_clusters :=
       if do_left_fvec dv || do_right_fvec dv ||
          do_left_pvec dv || do_right_pvec dv
       then true else do_outside_clusters st;
     do_left_fvecs :=
       if do_left_fvec dv then set_bit (do_left_fvecs st) j
       else do_left_fvecs st;
     do_right_fvecs :=
       if do_right_fvec dv then set_bit (do_right_fvecs st) j
       else do_right_fvecs st;
     do_left_pvecs :=
       if do_left_pvec dv then set_bit (do_left_pvecs st) j
       else do_left_pvecs st;
     do_right_pvecs :=
       if do_right_pvec dv then set_bit (do_right_pvecs st) j
       else do_right_pvecs st;
     peel_masks := <[j := pmask dv]> (peel_masks st);
     rem_masks := <[j := rmask dv]> (rem_masks st) |}.

(** The local vars of dim [j] when the body of the loop is done. *)
Definition dim_vars (DEBUG : bool) (ctx : StencilContext)
    (sb_idxs : ScanIndices) (do_clusters : bool) (i j : nat)
  : Result (DimVars * bool) :=
  dv ← dim_bounds_checked DEBUG ctx sb_idxs i j;
  dv ← make_masks DEBUG (dims ctx) j dv;
  fixups DEBUG dv do_clusters.

Definition dim_body (DEBUG : bool) (ctx : StencilContext)
    (sb_idxs : ScanIndices) (st : NanoBlockVars) (i j : nat)
  : Result NanoBlockVars :=
  r ← dim_vars DEBUG ctx sb_idxs (do_clusters st) i j;
  mret (save_dim st i j r.1 r.2).

(** Lines 492-498: the nano-block in element units, global indices:
    begin and end from the start and stop of the micro-block, strides
    from the pico-block sizes, tiles from the settings. *)
Definition nano_block_idxs (settings : KernelSettings)
    (micro_block_idxs : ScanIndices) : ScanIndices :=
  let sb_idxs := create_inner micro_block_idxs in
  let sb_idxs := set_strides_from_inner (_pico_block_sizes settings) 1 sb_idxs in
  with_tile_size (_nano_block_tile_sizes settings) sb_idxs.

(** Lines 501-532: the variables before the per-dim loop. *)
Definition init_vars (n : nat) (sb_idxs : ScanIndices) : NanoBlockVars :=
  let rank_rel := with_align_ofs (set_from_const (align_ofs sb_idxs) 0) sb_idxs in
  {| sb_eidxs := rank_rel; sb_fcidxs := rank_rel;
     sb_fvidxs := rank_rel; sb_ovidxs := rank_rel;
     do_clusters := true; do_outside_clusters := false;
     do_left_fvecs := 0; do_right_fvecs := 0;
     do_left_pvecs := 0; do_right_pvecs := 0;
     peel_masks := replicate n 0;
     rem_masks := replicate n 0 |}.

(** Lines 488-705: the index sets, flags and masks of a nano-block. *)
Definition nano_block_vars (DEBUG : bool) (b : t) (settings : KernelSettings)
    (micro_block_idxs : ScanIndices) : Result NanoBlockVars :=
  let ctx := _context b in
  let sb_idxs := nano_block_idxs settings micro_block_idxs in
  DOMAIN_VAR_LOOP_M (nddims ctx) (dim_body DEBUG ctx sb_idxs)
    (init_vars (nddims ctx) sb_idxs).

(** *** The boundary parts *)

(** Body of the loop over the domain dims that sets the ranges of one
    part. *)
Definition part_dim (st : NanoBlockVars)
    (norm_fcidxs norm_fvidxs norm_ovidxs : ScanIndices)
    (cdims lr : bit_mask_t) (p : PartVars) (i j : nat) : PartVars :=
  let is_sel := is_bit_set cdims j in
  if is_sel then
    let is_left := negb (is_bit_set lr (nsel p)) in
    if is_left then
      {| fv_part := set_end i (begin norm_fcidxs !!! i)
                      (set_begin i (begin norm_fvidxs !!! i) (fv_part p));
         pv_part := set_end i (begin norm_fvidxs !!! i)
                      (set_begin i (begin norm_ovidxs !!! i) (pv_part p));
         fv_needed := if negb (is_bit_set (do_left_fvecs st) j) then false
                      else fv_needed p;
         pv_needed := if negb (is_bit_set (do_left_pvecs st) j) then false
                      else pv_needed p;
         pv_mask := Z.land (pv_mask p) (to_bit_mask (peel_masks st !!! j));
         nsel := S (nsel p) |}
    else
      {| fv_part := set_end i (end_ norm_fvidxs !!! i)
                      (set_begin i (end_ norm_fcidxs !!! i) (fv_part p));
         pv_part := set_end i (end_ norm_ovidxs !!! i)
                      (set_begin i (end_ norm_fvidxs !!! i) (pv_part p));
         fv_needed := if negb (is_bit_set (do_right_fvecs st) j) then false
                      else fv_needed p;
         pv_needed := if negb (is_bit_set (do_right_pvecs st) j) then false
                      else pv_needed p;
         pv_mask := Z.land (pv_mask p) (to_bit_mask (rem_masks st !!! j));
         nsel := S (nsel p) |}
  else p.

(** The ranges, flags and mask of the part of combo [cdims] and
    left-right sequence [lr]. *)
Definition calc_part (n : nat) (st : NanoBlockVars)
    (norm_fcidxs norm_fvidxs norm_ovidxs : ScanIndices)
    (cdims lr : bit_mask_t) : PartVars :=
  DOMAIN_VAR_LOOP n
    (part_dim st norm_fcidxs norm_fvidxs norm_ovidxs cdims lr)
    {| fv_part := norm_fcidxs; pv_part := norm_fvidxs;
       fv_needed := true; pv_needed := true;
       pv_mask := all_ones; nsel := 0 |}.

(** Calc the full-vector part, then the partial-vector part. *)
Definition do_part (ctx : StencilContext)
    (outer_thread_idx inner_thread_idx : Z) (p : PartVars) : Result unit :=
  (if fv_needed p then
     calc_vectors_opt2 (dims ctx) outer_thread_idx inner_thread_idx
                       (thread_limit ctx) (fv_part p) all_ones
   else mret tt);;
  (if pv_needed p then
     calc_vectors_opt2 (dims ctx) outer_thread_idx inner_thread_idx
                       (thread_limit ctx) (pv_part p) (pv_mask p)
   else mret tt).

(** Lines 780-917: progressively more intersections of domain dims, each
    combo of [k] dims, each left-right sequence. *)
Definition boundary_parts (ctx : StencilContext)
    (outer_thread_idx inner_thread_idx : Z) (st : NanoBlockVars)
    (norm_fcidxs norm_fvidxs norm_ovidxs : ScanIndices) : Result unit :=
  for_each (seq 1 (nddims ctx))
    (λ k,
       let ncombos := n_choose_k (nddims ctx) k in
       let nseqs := Z.shiftl 1 (Z.of_nat k) in
       for_each (seq 0 ncombos)
         (λ r,
            let cdims := n_choose_k_set (nddims ctx) k r in
            for_each (seqZ 0 nseqs)
              (λ lr,
                 do_part ctx outer_thread_idx inner_thread_idx
                   (calc_part (nddims ctx) st
                      norm_fcidxs norm_fvidxs norm_ovidxs cdims lr)))).

(** Lines 712-920: evaluation of the areas found by the per-dim loop. *)
Definition dispatch (DEBUG : bool) (b : t)
    (outer_thread_idx inner_thread_idx : Z) (st : NanoBlockVars)
  : Result unit :=
  let ctx := _context b in
  norm_fcidxs ← normalize_scan_indices DEBUG b (sb_fcidxs st);
  (if negb (do_clusters st) then mret tt
   else calc_clusters_opt2 outer_thread_idx inner_thread_idx
                           (thread_limit ctx) norm_fcidxs);;
  if negb (do_outside_clusters st) then mret tt
  else if CPTS (dims ctx) =? 1 then
    THROW_YASK_EXCEPTION
      "(internal fault) vector border-code not expected with cluster-size==1"
  else
    norm_fvidxs ← normalize_scan_indices DEBUG b (sb_fvidxs st);
    norm_ovidxs ← normalize_scan_indices DEBUG b (sb_ovidxs st);
    boundary_parts ctx outer_thread_idx inner_thread_idx st
                   norm_fcidxs norm_fvidxs norm_ovidxs.

(** Calculate results for one nano-block. *)
Definition calc_nano_block_opt (DEBUG : bool) (b : t)
    (outer_thread_idx inner_thread_idx : Z)
    (settings : KernelSettings) (micro_block_idxs : ScanIndices)
  : Result unit :=
  st ← nano_block_vars DEBUG b settings micro_block_idxs;
  dispatch DEBUG b outer_thread_idx inner_thread_idx st.

(** Calculate results within a nano-block: a chooser between the debug
    and the optimized versions. *)
Definition calc_nano_block (DEBUG : bool) (b : t)
    (outer_thread_idx inner_thread_idx : Z)
    (settings : KernelSettings) (micro_block_idxs : ScanIndices)
  : Result unit :=
  if force_scalar settings then
    calc_nano_block_dbg b outer_thread_idx inner_thread_idx
                        settings micro_block_idxs
  else
    calc_nano_block_opt DEBUG b outer_thread_idx inner_thread_idx
                        settings micro_block_idxs.

End StencilBundleTempl.

#[global] Instance StencilBundleTempl_base
  : StencilBundleBase StencilBundleTempl.t := {
  is_scratch b := _is_scratch (StencilBundleTempl._bundle b);
  is_in_valid_step := StencilBundleTempl.is_in_valid_step
}.

(** ** A stage: a collection of independent stencil bundles *)

Module Stage.

Section WithBundles.
Context {B : Type} `{StencilBundleBase B}.

(** The loop over the members: the first non-scratch one decides. *)
Fixpoint first_non_scratch_step (members : list B)
    (input_step_index : idx_t) : Result bool :=
  match members with
  | [] => mret false
  | bp :: rest =>
      if negb (is_scratch bp) then is_in_valid_step bp input_step_index
      else first_non_scratch_step rest input_step_index
  end.

(** Determine whether the step index is enabled.  The assertion before
    the final [return false] tests a string literal and never fails. *)
Definition is_in_valid_step (stage : list B) (input_step_index : idx_t)
  : Result bool :=
  if bool_decide (length stage = 0%nat) then mret false
  else first_non_scratch_step stage input_step_index.

End WithBundles.

End Stage.

(** ** What a call into the generated code writes *)

(** Modelled from the spec: the kernels and the variable storage are
    generated by the stencil compiler.  By their contract a vector is
    addressed by normalized indices (element indices divided by the fold
    lengths), its lanes are the points of the fold in layout order, and
    lane [p] of vector [v] holds the element [v * fold + p] in each dim.
    [calc_vectors] visits every vector of its normalized range and writes
    the lanes its mask enables; [calc_clusters] advances through its range
    by whole clusters and writes every lane of every vector of each. *)

(** The points in this section are rank-relative [Indices]. *)
Definition in_vec_range (b e v : idx_t) : bool := (b <=? v) && (v <? e).

(** [v] lies in a cluster of [m] vectors that starts inside [b, e) at a
    multiple of [m] from [b]. *)
Definition in_cluster_range (m b e v : idx_t) : bool :=
  (b <=? v) && (b + (v - b) / m * m <? e).

Definition vec_of (d : Dims) (pt : Indices) (j : nat) : idx_t :=
  idiv_flr (pt !!! S j) (_fold_pts d !!! j).

Definition lane_of (d : Dims) (pt : Indices) : Z :=
  layout (is_first_inner d) (_fold_sizes d)
         (zip_with imod_flr (tail pt) (_fold_pts d)).

Definition vectors_cover (d : Dims) (n : nat) (norm_idxs : ScanIndices)
    (pt : Indices) : bool :=
  forallb (λ j, in_vec_range (begin norm_idxs !!! S j)
                             (end_ norm_idxs !!! S j) (vec_of d pt j))
          (seq 0 n).

Definition clusters_cover (d : Dims) (n : nat) (norm_idxs : ScanIndices)
    (pt : Indices) : bool :=
  forallb (λ j, in_cluster_range
                  (idiv_flr (_cluster_pts d !!! j) (_fold_pts d !!! j))
                  (begin norm_idxs !!! S j)
                  (end_ norm_idxs !!! S j) (vec_of d pt j))
          (seq 0 n).

(** Does the call write the element at [pt]?  Calls of the scalar code and
    tests of conditions are no vector or cluster writes. *)
Definition writes (d : Dims) (n : nat) (e : Event) (pt : Indices) : bool :=
  match e with
  | CalcClusters _ _ _ norm_idxs => clusters_cover d n norm_idxs pt
  | CalcVectors _ _ _ norm_idxs mask =>
      vectors_cover d n norm_idxs pt && Z.testbit mask (lane_of d pt)
  | _ => false
  end.

(** Number of calls of a trace that write the element at [pt]. *)
Definition count_writes (d : Dims) (n : nat) (tr : list Event) (pt : Indices)
  : nat :=
  length (filter (λ e, writes d n e pt = true) tr).

(** [pt] lies in the element range [begin, end) in every domain dim. *)
Definition in_range (n : nat) (bgn en pt : Indices) : bool :=
  forallb (λ j, (bgn !!! S j <=? pt !!! S j) && (pt !!! S j <? en !!! S j))
          (seq 0 n).

(** ** Specification-side notions *)

(** [r] is [x] rounded up, resp. down, to a multiple of [m]: the least
    multiple not below [x], resp. the greatest multiple not above it. *)
Definition rounded_up_to_multiple (m x r : Z) : Prop :=
  (m | r) ∧ x ≤ r ∧ ∀ r', (m | r') → x ≤ r' → r ≤ r'.

Definition rounded_down_to_multiple (m x r : Z) : Prop :=
  (m | r) ∧ r ≤ x ∧ ∀ r', (m | r') → r' ≤ x → r' ≤ r.

(** [bp] is the first non-scratch member of the stage. *)
Definition first_non_scratch {B : Type} `{StencilBundleBase B}
    (stage : list B) (bp : B) : Prop :=
  ∃ pre post, stage = pre ++ bp :: post ∧
              Forall (λ x, is_scratch x = true) pre ∧
              is_scratch bp = false.

(** ** Sample configurations *)

(** A bundle whose generated step condition rejects every step, in a
    context that does not check step conditions. *)
Definition rejecting_impl (scratch : bool) : StencilBundleImplT :=
  {| _name := "reject"; _is_scratch := scratch;
     gen_is_in_valid_domain := λ _, true;
     gen_is_in_valid_step := λ _, false |}.

Definition unchecked_context : StencilContext :=
  {| dims := {| _fold_pts := [4]; _cluster_pts := [8]; _fold_sizes := [4];
                is_first_inner := true |};
     nddims := 1; rank_domain_offsets := [0]; thread_limit := 1;
     check_step_conds := false |}.

Definition unchecked_bundle (scratch : bool) : StencilBundleTempl.t :=
  {| StencilBundleTempl._context := unchecked_context;
     StencilBundleTempl._bundle := rejecting_impl scratch |}.

(** A one-dim rank whose domain starts at global index 3, with vectors of
    4 points and clusters of 2 vectors, and a nano-block that begins in the
    left halo: rank-relative elements [-5, 21). *)
Definition halo_context : StencilContext :=
  {| dims := {| _fold_pts := [4]; _cluster_pts := [8]; _fold_sizes := [4];
                is_first_inner := true |};
     nddims := 1; rank_domain_offsets := [3]; thread_limit := 1;
     check_step_conds := true |}.

Definition halo_block : ScanIndices :=
  {| begin := [0; -2]; end_ := [0; 24]; start := [0; -2]; stop := [0; 24];
     stride := [1; 1]; tile_size := [1; 8]; align := [1; 4];
     align_ofs := [0; 0] |}.

(** A one-dim rank with vectors of 4 points and clusters of 2 vectors; a
    nano-block inside one vector, rank-relative elements [1, 3); and one
    that begins on a vector boundary, rank-relative elements [0, 2). *)
Definition one_dim_context : StencilContext :=
  {| dims := {| _fold_pts := [4]; _cluster_pts := [8]; _fold_sizes := [4];
                is_first_inner := true |};
     nddims := 1; rank_domain_offsets := [0]; thread_limit := 1;
     check_step_conds := true |}.

Definition one_dim_block (b e : idx_t) : ScanIndices :=
  {| begin := [0; b]; end_ := [0; e]; start := [0; b]; stop := [0; e];
     stride := [1; 1]; tile_size := [1; 8]; align := [1; 4];
     align_ofs := [0; 0] |}.

(** ** Auxiliary notions of the proofs *)

(** [pt] is a point of the space of the given sizes. *)
Definition in_space (sizes pt : Indices) : Prop :=
  Forall2 (λ s p, 0 ≤ p < s) sizes pt.

(** One step of the mask loop: shift right by one, then set the high bit
    when the lane is enabled. *)
Definition mask_step (mbit : Z) (c : bool) (m : Z) : Z :=
  if c then Z.lor (Z.shiftr m 1) mbit else Z.shiftr m 1.

(** ** The masks, in the words of the specification *)

(** Lane [idx] of the fold, in layout order, as an N-D offset. *)
Definition lane_point (d : Dims) (idx : Z) : Indices :=
  unlayout (is_first_inner d) (_fold_sizes d) idx.

(** Lane [p] lies in the nano-block in dim [j], seen from the peel vector,
    resp. from the remainder vector. *)
Definition peel_lane (dv : DimVars) (j : nat) (p : Indices) : bool :=
  ovbgn dv + p !!! j >=? ebgn dv.

Definition rem_lane (dv : DimVars) (j : nat) (p : Indices) : bool :=
  fvend dv + p !!! j <? eend dv.

(** "Enumerate every lane of the fold in the iteration order of the fold
    layout.  For each lane, shift both masks right by one, then set the
    high bit of the peel mask iff [ovbgn + p[j] ≥ ebgn] and the high bit of
    the rem mask iff [fvend + p[j] < eend]." *)
Definition spec_masks (d : Dims) (j : nat) (dv : DimVars) : idx_t * idx_t :=
  let high_bit := Z.shiftl 1 (product (_fold_pts d) - 1) in
  foldl (λ (m : idx_t * idx_t) (p : Indices),
           (mask_step high_bit (peel_lane dv j p) m.1,
            mask_step high_bit (rem_lane dv j p) m.2))
        (0, 0)
        (lane_point d <$> seqZ 0 (product (_fold_sizes d))).

(** ** Well-formed configurations and inputs *)

(** The dims of a context with [n] domain dims: one fold and one cluster
    length per domain dim, the fold visited lane by lane is the fold of the
    vectors, fold lengths are positive, a cluster is a positive number of
    whole vectors in each dim, and lane masks and dim bit sets stay within
    the non-negative range of their integer types. *)
Definition dims_ok (n : nat) (d : Dims) : bool :=
  bool_decide (length (_fold_pts d) = n) &&
  bool_decide (length (_cluster_pts d) = n) &&
  bool_decide (_fold_sizes d = _fold_pts d) &&
  forallb (λ v, 0 <? v) (_fold_pts d) &&
  forallb (λ j, (0 <? _cluster_pts d !!! j) &&
                (_cluster_pts d !!! j mod _fold_pts d !!! j =? 0))
          (seq 0 n) &&
  (product (_fold_pts d) <=? 63) && (n <=? 31)%nat.

Definition context_ok (ctx : StencilContext) : bool :=
  dims_ok (nddims ctx) (dims ctx) &&
  bool_decide (length (rank_domain_offsets ctx) = nddims ctx).

(** Every domain entry of [l] is a multiple of the fold length. *)
Definition fold_aligned (n : nat) (d : Dims) (l : Indices) : bool :=
  bool_decide (length l = S n) &&
  forallb (λ j, imod_flr (l !!! S j) (_fold_pts d !!! j) =? 0) (seq 0 n).

(** A micro-block handed to a bundle: one start and one stop per stencil
    dim, and start is not beyond stop in any domain dim. *)
Definition block_ok (n : nat) (idxs : ScanIndices) : bool :=
  bool_decide (length (start idxs) = S n) &&
  bool_decide (length (stop idxs) = S n) &&
  forallb (λ j, start idxs !!! S j <=? stop idxs !!! S j) (seq 0 n).

(** What the caller guarantees for normalization: pico-block sizes,
    nano-block tile sizes and alignments are whole vectors. *)
Definition caller_aligned (n : nat) (d : Dims) (settings : KernelSettings)
    (idxs : ScanIndices) : bool :=
  fold_aligned n d (_pico_block_sizes settings) &&
  fold_aligned n d (_nano_block_tile_sizes settings) &&
  fold_aligned n d (align idxs).

(** The local vars of dim [j] at the end of its pass of the per-dim loop,
    and whether the pass left the cluster flag alone. *)
Definition dim_result (ctx : StencilContext) (sb_idxs : ScanIndices)
    (j : nat) : DimVars :=
  match StencilBundleTempl.dim_vars false ctx sb_idxs true (S j) j with
  | Ok r _ => r.1
  | Fault _ _ => StencilBundleTempl.dim_bounds ctx sb_idxs (S j) j
  end.

Definition dim_keeps_clusters (ctx : StencilContext) (sb_idxs : ScanIndices)
    (j : nat) : bool :=
  match StencilBundleTempl.dim_vars false ctx sb_idxs true (S j) j with
  | Ok r _ => r.2
  | Fault _ _ => false
  end.

(** Some flag of the dim asks for work outside the clusters. *)
Definition any_outside (dv : DimVars) : bool :=
  do_left_fvec dv || do_right_fvec dv || do_left_pvec dv || do_right_pvec dv.

(** The local vars of a dim once the masks are made, and the condition of
    the overlap fixup. *)
Definition masked (d : Dims) (j : nat) (dv : DimVars) : DimVars :=
  if do_left_pvec dv || do_right_pvec dv
  then StencilBundleTempl.with_masks
         (spec_masks d j dv).1 (spec_masks d j dv).2 dv
  else dv.

Definition overlap (dv : DimVars) : bool :=
  do_left_pvec dv && do_right_pvec dv && (ovbgn dv =? fvend dv).

(** The variables after [n] passes of the per-dim loop. *)
Definition loop_state (ctx : StencilContext) (sb_idxs : ScanIndices)
    (n : nat) : NanoBlockVars :=
  DOMAIN_VAR_LOOP n
    (λ st i j, StencilBundleTempl.save_dim st i j (dim_result ctx sb_idxs j)
                 (do_clusters st && dim_keeps_clusters ctx sb_idxs j))
    (StencilBundleTempl.init_vars (nddims ctx) sb_idxs).

(** The begin and end of an index set written dim by dim. *)
Definition written (f g : nat → Z) (s0 : ScanIndices) (n : nat) : ScanIndices :=
  with_end (foldl (λ l j, <[(1 + j)%nat := g j]> l) (end_ s0) (seq 0 n))
    (with_begin (foldl (λ l j, <[(1 + j)%nat := f j]> l) (begin s0) (seq 0 n))
       s0).

(** ** The share of one dim in what a call covers *)

Definition b2z (b : bool) : Z := if b then 1 else 0.

(** For a dim with final local vars [r] and fold length [V], and an
    element with index [x] in that dim and lane [t] in its vector: is [x]
    in the range of the dim in a full-vector part (dim not selected,
    selected on the left, selected on the right), in a partial-vector part
    (the same three, with the lane enabled by the mask of the dim), in the
    cluster call, in the nano-block? *)
Definition fvN (r : DimVars) (V x : Z) : bool :=
  in_vec_range (fcbgn r / V) (fcend r / V) (x / V).

Definition fvL (r : DimVars) (V x : Z) : bool :=
  do_left_fvec r && in_vec_range (fvbgn r / V) (fcbgn r / V) (x / V).

Definition fvR (r : DimVars) (V x : Z) : bool :=
  do_right_fvec r && in_vec_range (fcend r / V) (fvend r / V) (x / V).

Definition pvN (r : DimVars) (V x : Z) : bool :=
  in_vec_range (fvbgn r / V) (fvend r / V) (x / V).

Definition pvL (r : DimVars) (V x t : Z) : bool :=
  do_left_pvec r && in_vec_range (ovbgn r / V) (fvbgn r / V) (x / V) &&
  Z.testbit (to_bit_mask (pmask r)) t.

Definition pvR (r : DimVars) (V x t : Z) : bool :=
  do_right_pvec r && in_vec_range (fvend r / V) (ovend r / V) (x / V) &&
  Z.testbit (to_bit_mask (rmask r)) t.

Definition clN (r : DimVars) (V C x : Z) : bool :=
  in_cluster_range (C / V) (fcbgn r / V) (fcend r / V) (x / V).

Definition inE (r : DimVars) (x : Z) : bool :=
  (ebgn r <=? x) && (x <? eend r).

(** The result of [normalize_indices] when no assertion fails, for one
    tuple and for a whole index set. *)
Definition normalized (d : Dims) (n : nat) (orig : Indices) : Indices :=
  foldl (λ norm j,
           <[(1 + j)%nat := idiv_flr (orig !!! S j) (_fold_pts d !!! j)]> norm)
        orig (seq 0 n).

Definition normalized_scan (d : Dims) (n : nat) (orig : ScanIndices)
  : ScanIndices :=
  {| begin := normalized d n (begin orig);
     end_ := normalized d n (end_ orig);
     start := normalized d n (begin orig);
     stop := normalized d n (end_ orig);
     stride := normalized d n (stride orig);
     tile_size := normalized d n (tile_size orig);
     align := normalized d n (align orig);
     align_ofs := align_ofs orig |}.

(** ** The calls of the dispatch, as lists *)

(** The calls made for one boundary part. *)
Definition part_calls (ctx : StencilContext) (outer inner : Z) (p : PartVars)
  : list Event :=
  (if fv_needed p
   then [CalcVectors outer inner (thread_limit ctx) (fv_part p) all_ones]
   else []) ++
  (if pv_needed p
   then [CalcVectors outer inner (thread_limit ctx) (pv_part p) (pv_mask p)]
   else []).

(** The calls made for the boundary parts of all left-right sequences of
    one combo of dims, of all combos of [k] dims, and of all parts. *)
Definition combo_calls (ctx : StencilContext) (outer inner : Z)
    (st : NanoBlockVars) (nfc nfv nov : ScanIndices) (k : nat)
    (cdims : bit_mask_t) : list Event :=
  concat ((λ lr, part_calls ctx outer inner
                   (StencilBundleTempl.calc_part (nddims ctx) st nfc nfv nov
                      cdims lr))
          <$> seqZ 0 (Z.shiftl 1 (Z.of_nat k))).

Definition level_calls (ctx : StencilContext) (outer inner : Z)
    (st : NanoBlockVars) (nfc nfv nov : ScanIndices) (k : nat) : list Event :=
  concat ((λ r, combo_calls ctx outer inner st nfc nfv nov k
                  (n_choose_k_set (nddims ctx) k r))
          <$> seq 0 (n_choose_k (nddims ctx) k)).

Definition boundary_calls (ctx : StencilContext) (outer inner : Z)
    (st : NanoBlockVars) (nfc nfv nov : ScanIndices) : list Event :=
  concat (level_calls ctx outer inner st nfc nfv nov <$> seq 1 (nddims ctx)).

(** All calls of the dispatch. *)
Definition dispatch_calls (ctx : StencilContext) (outer inner : Z)
    (st : NanoBlockVars) : list Event :=
  let nfc := normalized_scan (dims ctx) (nddims ctx) (sb_fcidxs st) in
  let nfv := normalized_scan (dims ctx) (nddims ctx) (sb_fvidxs st) in
  let nov := normalized_scan (dims ctx) (nddims ctx) (sb_ovidxs st) in
  (if do_clusters st
   then [CalcClusters outer inner (thread_limit ctx) nfc] else []) ++
  (if do_outside_clusters st
   then boundary_calls ctx outer inner st nfc nfv nov else []).

(** A bundle valid everywhere in the one-dim rank above, and settings with
    pico-blocks and tiles of one cluster. *)
Definition everywhere_impl : StencilBundleImplT :=
  {| _name := "everywhere"; _is_scratch := false;
     gen_is_in_valid_domain := λ _, true;
     gen_is_in_valid_step := λ _, true |}.

Definition one_dim_bundle : StencilBundleTempl.t :=
  {| StencilBundleTempl._context := one_dim_context;
     StencilBundleTempl._bundle := everywhere_impl |}.

Definition one_dim_settings : KernelSettings :=
  {| _pico_block_sizes := [1; 8]; _nano_block_tile_sizes := [1; 8];
     force_scalar := false |}.

(** ** The reference scalar paths, in the words of the specification *)

(** The elements of the region [bgn, en), in the order of the scan with
    stride 1. *)
Definition region_points (bgn en : Indices) : list Indices :=
  (λ pt, bgn !!! step_posn :: pt)
  <$> scan_points (tail bgn) (tail en) ((λ _, 1) <$> tail bgn).

(** [pt] is an element of the region [bgn, en): it has the step index of
    [bgn] and lies between begin and end in every domain dim. *)
Definition in_region (bgn en pt : Indices) : Prop :=
  length pt = length bgn ∧ pt !!! step_posn = bgn !!! step_posn ∧
  ∀ j, (S j < length bgn)%nat → bgn !!! S j ≤ pt !!! S j < en !!! S j.

(** Not a call of vector or cluster code. *)
Definition scalar_event (e : Event) : Prop :=
  match e with
  | CalcVectors _ _ _ _ _ | CalcClusters _ _ _ _ => False
  | _ => True
  end.

(** A bundle of the one-dim rank whose sub-domain is empty. *)
Definition nowhere_bundle : StencilBundleTempl.t :=
  {| StencilBundleTempl._context := one_dim_context;
     StencilBundleTempl._bundle :=
       {| _name := "nowhere"; _is_scratch := false;
          gen_is_in_valid_domain := λ _, false;
          gen_is_in_valid_step := λ _, true |} |}.

(** ** Boundary parts, in the words of the specification *)

(** Number of selected dims below dim [j]: the position of dim [j] in the
    left-right sequence of a combo. *)
Fixpoint rank_of (cdims : bit_mask_t) (j : nat) : nat :=
  match j with
  | O => O
  | S j' => (rank_of cdims j' + if is_bit_set cdims j' then 1 else 0)%nat
  end.

(** How a part treats a dim. *)
Inductive Side := NotSelected | Left | Right.

Definition side_of (cdims lr : bit_mask_t) (j : nat) : Side :=
  if is_bit_set cdims j
  then if is_bit_set lr (rank_of cdims j) then Right else Left
  else NotSelected.

(** Begin and end of an index set in the dim at position [i]. *)
Definition range_at (idxs : ScanIndices) (i : nat) : idx_t * idx_t :=
  (begin idxs !!! i, end_ idxs !!! i).

(** A list of one entry per stencil dim in which the entries of the
    selected dims are replaced. *)
Definition part_list (cdims lr : bit_mask_t) (lv rv : nat → Z)
    (l0 : Indices) (n : nat) : Indices :=
  foldl (λ l j,
           match side_of cdims lr j with
           | NotSelected => l
           | Left => <[(1 + j)%nat := lv j]> l
           | Right => <[(1 + j)%nat := rv j]> l
           end) l0 (seq 0 n).

(** Does dim [j] let a part with full vectors, resp. partial vectors, be
    needed? *)
Definition fv_dim_needed (st : NanoBlockVars) (cdims lr : bit_mask_t)
    (j : nat) : bool :=
  match side_of cdims lr j with
  | NotSelected => true
  | Left => is_bit_set (do_left_fvecs st) j
  | Right => is_bit_set (do_right_fvecs st) j
  end.

Definition pv_dim_needed (st : NanoBlockVars) (cdims lr : bit_mask_t)
    (j : nat) : bool :=
  match side_of cdims lr j with
  | NotSelected => true
  | Left => is_bit_set (do_left_pvecs st) j
  | Right => is_bit_set (do_right_pvecs st) j
  end.

(** The mask of a partial-vector part after dim [j]: a selected dim ANDs
    its peel or rem mask into the mask [m] so far. *)
Definition and_dim_mask (st : NanoBlockVars) (cdims lr : bit_mask_t)
    (m : bit_mask_t) (j : nat) : bit_mask_t :=
  match side_of cdims lr j with
  | NotSelected => m
  | Left => Z.land m (to_bit_mask (peel_masks st !!! j))
  | Right => Z.land m (to_bit_mask (rem_masks st !!! j))
  end.

(** The part of combo [cdims] and sequence [lr], dim by dim. *)
Definition part_spec (n : nat) (st : NanoBlockVars)
    (nfc nfv nov : ScanIndices) (cdims lr : bit_mask_t) : PartVars :=
  {| fv_part :=
       with_end (part_list cdims lr (λ j, begin nfc !!! S j)
                   (λ j, end_ nfv !!! S j) (end_ nfc) n)
         (with_begin (part_list cdims lr (λ j, begin nfv !!! S j)
                        (λ j, end_ nfc !!! S j) (begin nfc) n) nfc);
     pv_part :=
       with_end (part_list cdims lr (λ j, begin nfv !!! S j)
                   (λ j, end_ nov !!! S j) (end_ nfv) n)
         (with_begin (part_list cdims lr (λ j, begin nov !!! S j)
                        (λ j, end_ nfv !!! S j) (begin nfv) n) nfv);
     fv_needed := forallb (fv_dim_needed st cdims lr) (seq 0 n);
     pv_needed := forallb (pv_dim_needed st cdims lr) (seq 0 n);
     pv_mask := foldl (and_dim_mask st cdims lr) all_ones (seq 0 n);
     nsel := rank_of cdims n |}.

(** A two-dim rank with vectors of 4 x 4 points and clusters of 1 x 2
    vectors, a bundle valid everywhere in it, settings with pico-blocks and
    tiles of one cluster, and the nano-block of the rank-relative elements
    [bx, ex) x [by, ey). *)
Definition two_dim_context : StencilContext :=
  {| dims := {| _fold_pts := [4; 4]; _cluster_pts := [4; 8];
                _fold_sizes := [4; 4]; is_first_inner := true |};
     nddims := 2; rank_domain_offsets := [0; 0]; thread_limit := 1;
     check_step_conds := true |}.

Definition two_dim_bundle : StencilBundleTempl.t :=
  {| StencilBundleTempl._context := two_dim_context;
     StencilBundleTempl._bundle := everywhere_impl |}.

Definition two_dim_settings : KernelSettings :=
  {| _pico_block_sizes := [1; 4; 8]; _nano_block_tile_sizes := [1; 4; 8];
     force_scalar := false |}.

Definition two_dim_block (bx ex by_ ey : idx_t) : ScanIndices :=
  {| begin := [0; bx; by_]; end_ := [0; ex; ey];
     start := [0; bx; by_]; stop := [0; ex; ey];
     stride := [1; 1; 1]; tile_size := [1; 4; 8]; align := [1; 4; 4];
     align_ofs := [0; 0; 0] |}.

(** ** Sums over the boundary parts *)

Definition sumZ (l : list Z) : Z := foldr Z.add 0 l.

(** With one integer per dim and way of treating it ([fN j] when dim [j]
    is not selected, [fL j] on the left, [fR j] on the right): the product
    over the dims for a part, and for a combo the product in which a
    selected dim counts for both of its sides. *)
Definition side_value (fN fL fR : nat → Z) (cdims lr : bit_mask_t) (j : nat)
  : Z :=
  match side_of cdims lr j with
  | NotSelected => fN j
  | Left => fL j
  | Right => fR j
  end.

Definition part_value (fN fL fR : nat → Z) (n : nat) (cdims lr : bit_mask_t)
  : Z :=
  product (side_value fN fL fR cdims lr <$> seq 0 n).

Definition combo_value (fN fL fR : nat → Z) (n : nat) (cdims : bit_mask_t)
  : Z :=
  product ((λ j, if is_bit_set cdims j then fL j + fR j else fN j)
           <$> seq 0 n).

(** Number of calls of a trace that write the element at [pt], as a sum. *)
Definition writes_sum (d : Dims) (n : nat) (tr : list Event) (pt : Indices)
  : Z :=
  sumZ ((λ e, b2z (writes d n e pt)) <$> tr).

(** A one-dim rank built without vectorization: folds and clusters of one
    point ([CPTS == 1]). *)
Definition unit_context : StencilContext :=
  {| dims := {| _fold_pts := [1]; _cluster_pts := [1]; _fold_sizes := [1];
                is_first_inner := true |};
     nddims := 1; rank_domain_offsets := [2]; thread_limit := 1;
     check_step_conds := true |}.

Definition unit_bundle : StencilBundleTempl.t :=
  {| StencilBundleTempl._context := unit_context;
     StencilBundleTempl._bundle := everywhere_impl |}.

(** The rank-relative indices of a point given by global indices: the
    rank offset is subtracted in every domain dim, as the per-dim loop of
    [calc_nano_block_opt] does for begin and end. *)
Definition rank_relative (ctx : StencilContext) (pt : Indices) : Indices :=
  pt !!! step_posn :: zip_with Z.sub (tail pt) (rank_domain_offsets ctx).

(** ** Dependencies and scratch children of a bundle (StencilBundleBase) *)

(** Bundles refer to one another by pointer; a reference is a number
    here.  Modelled from the spec: [StencilBundleSet] is a "set of bundle
    refs" and [StencilBundleList] an "ordered list of bundle refs". *)
Abbreviation bundle_ref := nat (only parsing).

Record BundleLinks := {
  _depends_on : gset nat;
  _scratch_children : list nat
}.

(** A bundle as its constructor leaves it. *)
Definition no_links : BundleLinks :=
  {| _depends_on := ∅; _scratch_children := [] |}.

(** Add dependency. *)
Definition add_dep (eg : bundle_ref) (s : BundleLinks) : BundleLinks :=
  {| _depends_on := {[ eg ]} ∪ _depends_on s;
     _scratch_children := _scratch_children s |}.

(** Get dependencies. *)
Definition get_deps (s : BundleLinks) : gset nat := _depends_on s.

(** Add needed scratch-bundle. *)
Definition add_scratch_child (eg : bundle_ref) (s : BundleLinks)
  : BundleLinks :=
  {| _depends_on := _depends_on s;
     _scratch_children := _scratch_children s ++ [eg] |}.

(** Get needed scratch-bundle(s). *)
Definition get_scratch_children (s : BundleLinks) : list nat :=
  _scratch_children s.

(** Get scratch children plus self. *)
Definition get_reqd_bundles (this : bundle_ref) (s : BundleLinks)
  : list nat :=
  let sg_list := get_scratch_children s in
  sg_list ++ [this].

(** A call of one of the two methods that change the links, and a
    sequence of such calls. *)
Inductive LinkCall :=
| AddDep (eg : nat)
| AddScratchChild (eg : nat).

Definition link_call (s : BundleLinks) (c : LinkCall) : BundleLinks :=
  match c with
  | AddDep eg => add_dep eg s
  | AddScratchChild eg => add_scratch_child eg s
  end.

Definition link_calls (cs : list LinkCall) : BundleLinks :=
  foldl link_call no_links cs.

(** The scratch children a sequence of calls adds, in the order of the
    calls. *)
Definition added_children (cs : list LinkCall) : list nat :=
  cs ≫= λ c, match c with AddScratchChild eg => [eg] | AddDep _ => [] end.

(** The bundle of the one-dim rank with halo offset. *)
Definition halo_bundle : StencilBundleTempl.t :=
  {| StencilBundleTempl._context := halo_context;
     StencilBundleTempl._bundle := everywhere_impl |}.

(** A one-dim rank with a fold of 64 lanes, as many as the masks have
    bits. *)
Definition wide_context : StencilContext :=
  {| dims := {| _fold_pts := [64]; _cluster_pts := [64]; _fold_sizes := [64];
                is_first_inner := true |};
     nddims := 1; rank_domain_offsets := [0]; thread_limit := 1;
     check_step_conds := true |}.

(** The points the misc loops visit for an index set: the lattice points
    of [begin, end) with the strides of the set, in the order of the scan. *)
Definition lattice_points (idxs : ScanIndices) : list Indices :=
  (λ pt, begin idxs !!! step_posn :: pt)
  <$> scan_points (tail (begin idxs)) (tail (end_ idxs))
                  (tail (stride idxs)).

(** [pt] is a lattice point of the region of [idxs]: it has the step index
    of [begin] and, in every domain dim, lies between begin and end a
    whole number of strides from begin. *)
Definition in_lattice (idxs : ScanIndices) (pt : Indices) : Prop :=
  length pt = length (begin idxs) ∧
  pt !!! step_posn = begin idxs !!! step_posn ∧
  ∀ j, (S j < length (begin idxs))%nat →
       begin idxs !!! S j ≤ pt !!! S j < end_ idxs !!! S j ∧
       (stride idxs !!! S j | pt !!! S j - begin idxs !!! S j).

(** Settings whose pico-block is 6 elements long, one and a half vectors
    of [one_dim_context]. *)
Definition unaligned_settings : KernelSettings :=
  {| _pico_block_sizes := [1; 6]; _nano_block_tile_sizes := [1; 8];
     force_scalar := false |}.

(** * Properties *)

(** ** Results and traces *)

Lemma bind_Ok {A B : Type} (m : Result A) (f : A → Result B) a tr :
  m = Ok a tr →
  m ≫= f = match f a with
            | Ok b tr' => Ok b (tr ++ tr')
            | Fault msg tr' => Fault msg (tr ++ tr')
            end.
Proof. intros ->. reflexivity. Qed.

Lemma bind_Ok_nil {A B : Type} (m : Result A) (f : A → Result B) a :
  m = Ok a [] → m ≫= f = f a.
Proof. intros ->. cbn. destruct (f a); reflexivity. Qed.

Lemma assert_true DEBUG msg : assert_ DEBUG true msg = Ok tt [].
Proof. unfold assert_. rewrite andb_false_r. reflexivity. Qed.

Lemma assert_release cond msg : assert_ false cond msg = Ok tt [].
Proof. reflexivity. Qed.

Lemma assert_holds DEBUG cond msg :
  (DEBUG = true → cond = true) → assert_ DEBUG cond msg = Ok tt [].
Proof.
  intros Hc. destruct DEBUG; [rewrite Hc by reflexivity; apply assert_true|].
  apply assert_release.
Qed.

(** ** Stage::is_in_valid_step *)

Section StageStep.
Context {B : Type} `{StencilBundleBase B}.

Lemma first_non_scratch_step_spec (members : list B) (s : idx_t) :
  (∃ bp, first_non_scratch members bp ∧
         Stage.first_non_scratch_step members s = is_in_valid_step bp s) ∨
  (Forall (λ x, is_scratch x = true) members ∧
   Stage.first_non_scratch_step members s = Ok false []).
Proof.
  induction members as [|x rest IH]; cbn.
  - right. split; [constructor | reflexivity].
  - destruct (is_scratch x) eqn:Hx; cbn.
    + destruct IH as [(bp & (pre & post & -> & Hpre & Hbp) & Heq) | [Hall Heq]].
      * left. exists bp. split; [|exact Heq].
        exists (x :: pre), post. repeat split; [constructor; assumption | assumption].
      * right. split; [constructor; assumption | exact Heq].
    + left. exists x. split; [|reflexivity].
      exists [], rest. repeat split; [constructor | assumption].
Qed.

Lemma first_non_scratch_unique (stage : list B) (b1 b2 : B) :
  first_non_scratch stage b1 → first_non_scratch stage b2 → b1 = b2.
Proof.
  intros (pre1 & post1 & -> & Hp1 & Hb1) (pre2 & post2 & Heq & Hp2 & Hb2).
  revert pre2 Heq Hp2.
  induction pre1 as [|x pre1 IH]; intros [|y pre2] Heq Hp2; cbn in Heq.
  - congruence.
  - injection Heq as -> _. inversion Hp2; subst. congruence.
  - injection Heq as -> _. inversion Hp1; subst. congruence.
  - injection Heq as -> Heq. inversion Hp1; inversion Hp2; subst. eauto.
Qed.

End StageStep.

Lemma stage_step_cases
    {B : Type} `{StencilBundleBase B} (stage : list B) (s : idx_t) :
  (returns (Stage.is_in_valid_step stage s) true ↔
   ∃ bp, first_non_scratch stage bp ∧ returns (is_in_valid_step bp s) true) ∧
  (∀ bp, first_non_scratch stage bp →
         Stage.is_in_valid_step stage s = is_in_valid_step bp s).
Proof.
  assert (Hstep : Stage.is_in_valid_step stage s =
                  Stage.first_non_scratch_step stage s).
  { unfold Stage.is_in_valid_step. destruct stage; reflexivity. }
  rewrite Hstep.
  destruct (first_non_scratch_step_spec stage s)
    as [(bp & Hfirst & Heq) | [Hall Heq]]; rewrite Heq.
  - split.
    + split; [intros Hr; exists bp; auto|].
      intros (bp' & Hfirst' & Hr).
      rewrite (first_non_scratch_unique stage bp bp'); assumption.
    + intros bp' Hfirst'.
      rewrite (first_non_scratch_unique stage bp bp'); auto.
  - split.
    + split; [intros [tr Htr]; discriminate|].
      intros (bp & (pre & post & -> & _ & Hbp) & _).
      apply Forall_app in Hall as [_ Hall]. inversion Hall; subst. congruence.
    + intros bp (pre & post & -> & _ & Hbp).
      apply Forall_app in Hall as [_ Hall]. inversion Hall; subst. congruence.
Qed.

(** C9. For every step index, [Stage::is_in_valid_step] returns true iff
    the first non-scratch member of the stage, in the stage's order,
    accepts the step; the stage then makes exactly the calls of that
    member. *)
Theorem stage_step_is_first_non_scratch
    {B : Type} `{StencilBundleBase B} (stage : list B) (s : idx_t) :
  (returns (Stage.is_in_valid_step stage s) true ↔
   ∃ bp, first_non_scratch stage bp ∧ returns (is_in_valid_step bp s) true) ∧
  (∀ bp, first_non_scratch stage bp →
         Stage.is_in_valid_step stage s = is_in_valid_step bp s).
Proof. apply stage_step_cases. Qed.

(** ** StencilBundleTempl::is_in_valid_step *)

Lemma templ_step_unchecked (b : StencilBundleTempl.t) (s : idx_t) :
  check_step_conds (StencilBundleTempl._context b) = false →
  StencilBundleTempl.is_in_valid_step b s = Ok true [].
Proof. intros Hc. unfold StencilBundleTempl.is_in_valid_step. rewrite Hc. reflexivity. Qed.

Lemma templ_step_checked (b : StencilBundleTempl.t) (s : idx_t) :
  check_step_conds (StencilBundleTempl._context b) = true →
  StencilBundleTempl.is_in_valid_step b s =
  Ok (gen_is_in_valid_step (StencilBundleTempl._bundle b) s) [IsInValidStep s].
Proof. intros Hc. unfold StencilBundleTempl.is_in_valid_step. rewrite Hc. reflexivity. Qed.

(** C10, as stated, fails: with step-condition checking disabled a stage
    without members, or with scratch members only, accepts no step. *)
Lemma stage_unchecked_counterexample :
  ¬ (∀ (stage : list StencilBundleTempl.t) (s : idx_t),
       Forall (λ b, check_step_conds (StencilBundleTempl._context b) = false)
              stage →
       returns (Stage.is_in_valid_step stage s) true) ∧
  Stage.is_in_valid_step (@nil StencilBundleTempl.t) 0 = Ok false [] ∧
  Stage.is_in_valid_step [unchecked_bundle true] 0 = Ok false [].
Proof.
  split; [|split; reflexivity].
  intros Hall. destruct (Hall [] 0 ltac:(constructor)) as [tr Htr]. discriminate.
Qed.

(** C10, amended.  With step-condition checking disabled a bundle accepts
    every step without consulting the generated step condition, and so does
    a stage that has a non-scratch member.  A stage that is empty or has
    only scratch members accepts no step, whether or not checking is
    disabled; every stage is of one of the two kinds. *)
Theorem unchecked_steps_accepted
    (stage : list StencilBundleTempl.t) (s : idx_t) :
  (∀ b : StencilBundleTempl.t,
     check_step_conds (StencilBundleTempl._context b) = false →
     StencilBundleTempl.is_in_valid_step b s = Ok true []) ∧
  (Forall (λ b, check_step_conds (StencilBundleTempl._context b) = false)
          stage →
   Exists (λ b, is_scratch b = false) stage →
   Stage.is_in_valid_step stage s = Ok true []) ∧
  (Forall (λ b, is_scratch b = true) stage →
   Stage.is_in_valid_step stage s = Ok false []) ∧
  (Exists (λ b, is_scratch b = false) stage ∨
   Forall (λ b, is_scratch b = true) stage).
Proof.
  assert (Hstep : Stage.is_in_valid_step stage s =
                  Stage.first_non_scratch_step stage s).
  { unfold Stage.is_in_valid_step. destruct stage; reflexivity. }
  split; [intros b Hb; apply templ_step_unchecked, Hb|].
  split; [|split].
  - intros Hunchecked Hmember.
    destruct (first_non_scratch_step_spec stage s)
      as [(bp & Hfirst & Heq) | [Hall _]].
    + destruct (stage_step_cases stage s) as [_ Hsame].
      rewrite (Hsame bp Hfirst). cbn.
      apply templ_step_unchecked.
      destruct Hfirst as (pre & post & -> & _ & _).
      apply Forall_app in Hunchecked as [_ Hu]. inversion Hu; subst. assumption.
    + exfalso. apply Exists_exists in Hmember as (b & Hin & Hb).
      rewrite Forall_forall in Hall. specialize (Hall b Hin). congruence.
  - intros Hscratch. rewrite Hstep.
    destruct (first_non_scratch_step_spec stage s)
      as [(bp & (pre & post & -> & _ & Hbp) & _) | [_ Heq]]; [|exact Heq].
    exfalso. apply Forall_app in Hscratch as [_ Hs].
    inversion Hs; subst. congruence.
  - induction stage as [|b rest IH]; [right; constructor|].
    destruct (is_scratch b) eqn:Hb.
    + destruct IH as [IH | IH].
      { unfold Stage.is_in_valid_step. destruct rest; reflexivity. }
      * left. apply Exists_cons_tl, IH.
      * right. constructor; assumption.
    + left. apply Exists_cons_hd, Hb.
Qed.

Lemma unchecked_steps_accepted_witness :
  StencilBundleTempl.is_in_valid_step (unchecked_bundle false) 5
  = Ok true [] ∧
  Stage.is_in_valid_step [unchecked_bundle true; unchecked_bundle false] 5
  = Ok true [] ∧
  Stage.is_in_valid_step [unchecked_bundle true; unchecked_bundle true] 5
  = Ok false [] ∧
  Stage.is_in_valid_step (@nil StencilBundleTempl.t) 5 = Ok false [].
Proof.
  destruct (unchecked_steps_accepted
              [unchecked_bundle true; unchecked_bundle false] 5)
    as (Hb & Hstage & _).
  destruct (unchecked_steps_accepted
              [unchecked_bundle true; unchecked_bundle true] 5)
    as (_ & _ & Hscratch & _).
  destruct (unchecked_steps_accepted [] 5) as (_ & _ & Hempty & _).
  split; [apply Hb; reflexivity|].
  split.
  { apply Hstage; [repeat constructor|].
    apply Exists_cons_tl, Exists_cons_hd. reflexivity. }
  split; [apply Hscratch; repeat constructor | apply Hempty; constructor].
Defined.

(** ** Rounding to multiples *)

Lemma round_down_flr_bounds (x m : Z) :
  0 < m → ∃ q, round_down_flr x m = q * m ∧ q * m ≤ x < q * m + m.
Proof.
  intros Hm. exists (x / m). unfold round_down_flr, idiv_flr.
  split; [reflexivity|].
  pose proof (Z.div_mod x m ltac:(lia)). pose proof (Z.mod_pos_bound x m Hm). lia.
Qed.

Lemma round_up_flr_bounds (x m : Z) :
  0 < m → ∃ q, round_up_flr x m = q * m ∧ x ≤ q * m < x + m.
Proof.
  intros Hm. exists ((x + m - 1) / m). unfold round_up_flr, idiv_flr.
  split; [reflexivity|].
  pose proof (Z.div_mod (x + m - 1) m ltac:(lia)).
  pose proof (Z.mod_pos_bound (x + m - 1) m Hm). lia.
Qed.

(** Two multiples of [m] less than [m] apart are equal. *)
Lemma multiples_close (m p q : Z) :
  0 < m → p * m < q * m + m → q * m < p * m + m → p = q.
Proof. intros Hm H1 H2. nia. Qed.

Lemma multiple_le (m p q : Z) : 0 < m → p * m < q * m + m → p ≤ q.
Proof. intros Hm H1. nia. Qed.

Lemma round_down_flr_spec (x m : Z) :
  0 < m → rounded_down_to_multiple m x (round_down_flr x m).
Proof.
  intros Hm. destruct (round_down_flr_bounds x m Hm) as (q & -> & Hq).
  split; [exists q; reflexivity|]. split; [lia|].
  intros r' [q' ->] Hle.
  assert (q' ≤ q) by (apply (multiple_le m); lia). nia.
Qed.

Lemma round_up_flr_spec (x m : Z) :
  0 < m → rounded_up_to_multiple m x (round_up_flr x m).
Proof.
  intros Hm. destruct (round_up_flr_bounds x m Hm) as (q & -> & Hq).
  split; [exists q; reflexivity|]. split; [lia|].
  intros r' [q' ->] Hle.
  assert (q ≤ q') by (apply (multiple_le m); lia). nia.
Qed.

(** C2. In every domain dim the boundaries first computed by the per-dim
    loop are the rank-relative begin and end of the nano-block rounded to
    multiples of the cluster and fold lengths: the full-cluster and
    full-vector ranges round inwards, the outer vector range outwards, each
    to the nearest multiple in that direction, for negative begin and end
    as well. *)
Theorem dim_bounds_rounding (ctx : StencilContext) (sb_idxs : ScanIndices)
    (i j : nat) :
  let dv := StencilBundleTempl.dim_bounds ctx sb_idxs i j in
  let V := _fold_pts (dims ctx) !!! j in
  let C := _cluster_pts (dims ctx) !!! j in
  0 < V → 0 < C →
  ebgn dv = begin sb_idxs !!! i - rank_domain_offsets ctx !!! j ∧
  eend dv = end_ sb_idxs !!! i - rank_domain_offsets ctx !!! j ∧
  rounded_up_to_multiple C (ebgn dv) (fcbgn dv) ∧
  rounded_down_to_multiple C (eend dv) (fcend dv) ∧
  rounded_up_to_multiple V (ebgn dv) (fvbgn dv) ∧
  rounded_down_to_multiple V (eend dv) (fvend dv) ∧
  rounded_down_to_multiple V (ebgn dv) (ovbgn dv) ∧
  rounded_up_to_multiple V (eend dv) (ovend dv).
Proof.
  intros dv V C HV HC. subst dv V C. cbn.
  repeat split; try reflexivity;
    first [ apply round_up_flr_spec; assumption
          | apply round_down_flr_spec; assumption
          | apply (round_up_flr_spec _ _ ltac:(eassumption))
          | apply (round_down_flr_spec _ _ ltac:(eassumption)) ].
Qed.

Lemma dim_bounds_rounding_witness :
  let dv := StencilBundleTempl.dim_bounds halo_context halo_block 1 0 in
  (ebgn dv = -5 ∧ eend dv = 21) ∧
  (fcbgn dv = 0 ∧ fcend dv = 16 ∧ fvbgn dv = -4 ∧ fvend dv = 20 ∧
   ovbgn dv = -8 ∧ ovend dv = 24) ∧
  rounded_up_to_multiple 8 (-5) (fcbgn dv) ∧
  rounded_down_to_multiple 4 (-5) (ovbgn dv).
Proof.
  pose proof (dim_bounds_rounding halo_context halo_block 1 0
                ltac:(reflexivity) ltac:(reflexivity)) as H.
  cbn zeta in H.
  destruct H as (_ & _ & Hfc & _ & _ & _ & Hov & _).
  split; [split; reflexivity|].
  split; [repeat split; reflexivity|].
  split; [exact Hfc | exact Hov].
Defined.

(** ** The special-case fixups *)

Lemma peel_and_rem_in_one_vector (x y m : Z) :
  0 < m → x < round_up_flr x m → y > round_down_flr y m →
  round_down_flr x m = round_down_flr y m →
  round_up_flr x m = round_up_flr y m.
Proof.
  intros Hm Hl Hr Heq.
  destruct (round_down_flr_bounds x m Hm) as (q1 & E1 & B1).
  destruct (round_up_flr_bounds x m Hm) as (q2 & E2 & B2).
  destruct (round_down_flr_bounds y m Hm) as (q3 & E3 & B3).
  destruct (round_up_flr_bounds y m Hm) as (q4 & E4 & B4).
  rewrite E1, E2, E3, E4 in *.
  assert (q1 = q3) by nia. subst q3.
  assert (q2 = q1 + 1) by nia.
  assert (q4 = q1 + 1) by nia.
  congruence.
Qed.

(** C4, as stated, fails.  For the nano-block [1, 3) the dim has no full
    cluster ([fcend ≤ fcbgn]) and a full-vec flag is set, yet the cluster
    boundaries are not moved to [fvend] and no full-vec flag remains: the
    overlap fixup ran instead.  For the nano-block [0, 2), [ovbgn == fvend]
    holds while [fvbgn ≠ ovend], and the rem mask and the right
    partial-vec flag are kept: there is no peel. *)
Lemma fixups_counterexample :
  (let dv := StencilBundleTempl.dim_bounds one_dim_context (one_dim_block 1 3) 1 0 in
   fcend dv ≤ fcbgn dv ∧ do_left_fvec dv = true ∧
   ∃ dv', StencilBundleTempl.dim_vars true one_dim_context (one_dim_block 1 3)
            true 1 0 = Ok (dv', false) [] ∧
          fcbgn dv' ≠ fvend dv ∧ do_left_fvec dv' = false) ∧
  (let dv := StencilBundleTempl.dim_bounds one_dim_context (one_dim_block 0 2) 1 0 in
   ovbgn dv = fvend dv ∧ fvbgn dv ≠ ovend dv ∧
   ∃ dv', StencilBundleTempl.dim_vars true one_dim_context (one_dim_block 0 2)
            true 1 0 = Ok (dv', false) [] ∧
          rmask dv' ≠ 0 ∧ do_left_pvec dv' = false ∧ do_right_pvec dv' = true).
Proof.
  split; cbn zeta.
  - split; [vm_compute; discriminate|]. split; [reflexivity|].
    eexists. split; [vm_compute; reflexivity|].
    split; [vm_compute; discriminate | reflexivity].
  - split; [reflexivity|]. split; [vm_compute; discriminate|].
    eexists. split; [vm_compute; reflexivity|].
    split; [vm_compute; discriminate | split; reflexivity].
Qed.

Lemma fixups_cases (DEBUG : bool) (ctx : StencilContext)
    (sb_idxs : ScanIndices) (i j : nat) (pm rm : idx_t) (dc : bool)
    (Hfold : 0 < _fold_pts (dims ctx) !!! j) :
  let dv := StencilBundleTempl.with_masks pm rm
              (StencilBundleTempl.dim_bounds ctx sb_idxs i j) in
  let overlap := do_left_pvec dv && do_right_pvec dv &&
                 (ovbgn dv =? fvend dv) in
  ∃ dv' dc',
    StencilBundleTempl.fixups DEBUG dv dc = Ok (dv', dc') [] ∧
    (ebgn dv', eend dv', fvbgn dv', fvend dv', ovbgn dv', ovend dv')
    = (ebgn dv, eend dv, fvbgn dv, fvend dv, ovbgn dv, ovend dv) ∧
    (overlap = true →
       fvbgn dv = ovend dv ∧
       pmask dv' = Z.land pm rm ∧ rmask dv' = 0 ∧
       do_left_pvec dv' = true ∧ do_right_pvec dv' = false ∧
       do_left_fvec dv' = false ∧ do_right_fvec dv' = false ∧
       dc' = false ∧
       fcbgn dv' = fcbgn dv ∧ fcend dv' = fcend dv) ∧
    (overlap = false → fcend dv ≤ fcbgn dv →
       fcbgn dv' = fvend dv ∧ fcend dv' = fvend dv ∧
       dc' = false ∧
       do_left_fvec dv' = do_left_fvec dv || do_right_fvec dv ∧
       do_right_fvec dv' = false ∧
       do_left_pvec dv' = do_left_pvec dv ∧
       do_right_pvec dv' = do_right_pvec dv ∧
       pmask dv' = pm ∧ rmask dv' = rm) ∧
    (overlap = false → fcbgn dv < fcend dv → dv' = dv ∧ dc' = dc).
Proof.
  intros dv overlap.
  unfold StencilBundleTempl.fixups. fold overlap.
  destruct overlap eqn:Hov.
  - assert (Hassert : fvbgn dv = ovend dv).
    { subst overlap. apply andb_prop in Hov as [Hlr Heq].
      apply andb_prop in Hlr as [Hl Hr].
      cbn in Hl, Hr, Heq |- *.
      apply Z.ltb_lt in Hl. apply Z.gtb_lt in Hr. apply Z.eqb_eq in Heq.
      apply peel_and_rem_in_one_vector; [assumption | lia | lia | assumption]. }
    rewrite (bind_Ok_nil _ _ tt);
      [|apply assert_holds; intros _; apply Z.eqb_eq; exact Hassert].
    eexists _, _. split; [reflexivity|].
    split; [reflexivity|].
    split; [intros _; cbn; repeat split; exact Hassert|].
    split; intros; discriminate.
  - destruct (fcend dv <=? fcbgn dv) eqn:Hfc.
    + eexists _, _. split; [reflexivity|]. split; [reflexivity|].
      split; [intros; discriminate|].
      split.
      * intros _ _. cbn. repeat split;
          destruct (_ <? _), (_ >? _); reflexivity.
      * intros _ Hlt. apply Z.leb_le in Hfc. lia.
    + eexists _, _. split; [reflexivity|]. split; [reflexivity|].
      split; [intros; discriminate|].
      split.
      * intros _ Hle. apply Z.leb_gt in Hfc. lia.
      * intros _ _. split; reflexivity.
Qed.

(** C4, amended.  The fixups applied to the local vars of a dim, whatever
    the masks built for it:
    (1) when a peel and a remainder both exist and [ovbgn == fvend] (then
        [fvbgn == ovend]), the peel mask becomes [pmask & rmask], the rem
        mask is cleared, only [do_left_pvec] stays set among the four
        flags, and the cluster flag is cleared;
    (2) otherwise, when [fcend ≤ fcbgn], both cluster boundaries become
        [fvend], the cluster flag is cleared, and if a full-vec flag was
        set only the left one remains set;
    (3) otherwise nothing changes.
    No other local var changes, and no assertion fails. *)
Theorem fixups_spec (DEBUG : bool) (ctx : StencilContext)
    (sb_idxs : ScanIndices) (i j : nat) (pm rm : idx_t) (dc : bool)
    (Hfold : 0 < _fold_pts (dims ctx) !!! j) :
  let dv := StencilBundleTempl.with_masks pm rm
              (StencilBundleTempl.dim_bounds ctx sb_idxs i j) in
  let overlap := do_left_pvec dv && do_right_pvec dv &&
                 (ovbgn dv =? fvend dv) in
  ∃ dv' dc',
    StencilBundleTempl.fixups DEBUG dv dc = Ok (dv', dc') [] ∧
    (ebgn dv', eend dv', fvbgn dv', fvend dv', ovbgn dv', ovend dv')
    = (ebgn dv, eend dv, fvbgn dv, fvend dv, ovbgn dv, ovend dv) ∧
    (overlap = true →
       fvbgn dv = ovend dv ∧
       pmask dv' = Z.land pm rm ∧ rmask dv' = 0 ∧
       do_left_pvec dv' = true ∧ do_right_pvec dv' = false ∧
       do_left_fvec dv' = false ∧ do_right_fvec dv' = false ∧
       dc' = false ∧
       fcbgn dv' = fcbgn dv ∧ fcend dv' = fcend dv) ∧
    (overlap = false → fcend dv ≤ fcbgn dv →
       fcbgn dv' = fvend dv ∧ fcend dv' = fvend dv ∧
       dc' = false ∧
       do_left_fvec dv' = do_left_fvec dv || do_right_fvec dv ∧
       do_right_fvec dv' = false ∧
       do_left_pvec dv' = do_left_pvec dv ∧
       do_right_pvec dv' = do_right_pvec dv ∧
       pmask dv' = pm ∧ rmask dv' = rm) ∧
    (overlap = false → fcbgn dv < fcend dv → dv' = dv ∧ dc' = dc).
Proof. apply fixups_cases; assumption. Qed.

Lemma fixups_spec_witness :
  ∃ dv' dc',
    StencilBundleTempl.fixups true
      (StencilBundleTempl.with_masks 14 7
         (StencilBundleTempl.dim_bounds one_dim_context (one_dim_block 1 3) 1 0))
      true = Ok (dv', dc') [] ∧
    pmask dv' = 6 ∧ rmask dv' = 0 ∧ dc' = false ∧
    do_left_pvec dv' = true ∧ do_right_pvec dv' = false.
Proof.
  destruct (fixups_spec true one_dim_context (one_dim_block 1 3) 1 0 14 7 true
              ltac:(reflexivity))
    as (dv' & dc' & Hrun & _ & Hoverlap & _).
  exists dv', dc'. split; [exact Hrun|].
  destruct (Hoverlap ltac:(reflexivity))
    as (_ & Hp & Hr & Hlp & Hrp & _ & _ & Hdc & _).
  repeat split; assumption.
Defined.

(** ** Fold layout *)


Lemma product_reverse (l : Indices) : product (reverse l) = product l.
Proof.
  unfold product. induction l as [|x l IH]; [reflexivity|].
  rewrite reverse_cons, foldr_app. cbn.
  rewrite <- IH. clear IH.
  induction (reverse l) as [|y k IH]; cbn; [lia|]. rewrite IH. lia.
Qed.

Lemma product_pos (l : Indices) : Forall (λ s, 0 < s) l → 0 < product l.
Proof.
  unfold product. induction 1 as [|x l Hx _ IH]; cbn; [lia|]. nia.
Qed.

Lemma length_unlayout_inner sizes o :
  length (unlayout_inner sizes o) = length sizes.
Proof. revert o. induction sizes; intros; cbn; [|rewrite IHsizes]; reflexivity. Qed.

Lemma length_unlayout fi sizes o : length (unlayout fi sizes o) = length sizes.
Proof.
  unfold unlayout. destruct fi;
    rewrite ?length_reverse, length_unlayout_inner, ?length_reverse; reflexivity.
Qed.

Lemma unlayout_inner_in_space sizes o :
  Forall (λ s, 0 < s) sizes → in_space sizes (unlayout_inner sizes o).
Proof.
  intros Hs. revert o. induction Hs as [|s rest Hs _ IH]; intros o; cbn.
  - constructor.
  - constructor; [apply Z.mod_pos_bound; assumption | apply IH].
Qed.

Lemma layout_inner_range sizes pt :
  in_space sizes pt → 0 ≤ layout_inner sizes pt < product sizes.
Proof.
  unfold product. induction 1 as [|s p rest pt' Hp _ IH]; cbn; [lia|]. nia.
Qed.

Lemma unlayout_layout_inner sizes pt :
  in_space sizes pt → unlayout_inner sizes (layout_inner sizes pt) = pt.
Proof.
  induction 1 as [|s p rest pt' Hp _ IH]; cbn; [reflexivity|].
  assert (Hmod : (p + s * layout_inner rest pt') mod s = p).
  { rewrite Z.mul_comm, Z.mod_add by lia. apply Z.mod_small. lia. }
  assert (Hdiv : (p + s * layout_inner rest pt') / s = layout_inner rest pt').
  { rewrite Z.mul_comm, Z.div_add by lia. rewrite Z.div_small by lia. lia. }
  rewrite Hmod, Hdiv, IH. reflexivity.
Qed.

Lemma layout_range fi sizes pt :
  in_space sizes pt → 0 ≤ layout fi sizes pt < product sizes.
Proof.
  intros Hpt. unfold layout. destruct fi.
  - apply layout_inner_range, Hpt.
  - rewrite <- product_reverse. apply layout_inner_range.
    apply Forall2_reverse, Hpt.
Qed.

Lemma unlayout_layout fi sizes pt :
  in_space sizes pt → unlayout fi sizes (layout fi sizes pt) = pt.
Proof.
  intros Hpt. unfold layout, unlayout. destruct fi.
  - apply unlayout_layout_inner, Hpt.
  - rewrite unlayout_layout_inner by (apply Forall2_reverse, Hpt).
    apply reverse_involutive.
Qed.

Lemma unlayout_in_space fi sizes o :
  Forall (λ s, 0 < s) sizes → in_space sizes (unlayout fi sizes o).
Proof.
  intros Hs. unfold unlayout. destruct fi.
  - apply unlayout_inner_in_space, Hs.
  - rewrite <- (reverse_involutive sizes) at 1.
    apply Forall2_reverse, unlayout_inner_in_space.
    apply Forall_reverse, Hs.
Qed.

(** ** Mask construction *)


Lemma visit_all_points_total {S : Type} fi sizes
    (visitor : S → Indices → nat → S * bool) (s : S) :
  (∀ s pt idx, (visitor s pt idx).2 = true) →
  visit_all_points fi sizes visitor s =
  (foldl (λ s idx, (visitor s (unlayout fi sizes (Z.of_nat idx)) idx).1) s
         (seq 0 (Z.to_nat (product sizes))), true).
Proof.
  intros Htrue. unfold visit_all_points.
  generalize (seq 0 (Z.to_nat (product sizes))) as l. intros l. revert s.
  induction l as [|idx l IH]; intros s; cbn; [reflexivity|].
  rewrite <- IH. f_equal.
  specialize (Htrue s (unlayout fi sizes (Z.of_nat idx)) idx).
  destruct (visitor s _ idx) as [s' ok]. cbn in *. subst ok. reflexivity.
Qed.

Lemma testbit_mask_step (P : Z) (c : bool) (m t : Z) :
  0 < P → 0 ≤ t →
  Z.testbit (mask_step (Z.shiftl 1 (P - 1)) c m) t =
  Z.testbit m (t + 1) || (c && (t =? P - 1)).
Proof.
  intros HP Ht. unfold mask_step.
  rewrite Z.shiftl_1_l.
  destruct c; [rewrite Z.lor_spec|]; rewrite Z.shiftr_spec by lia.
  - rewrite Z.pow2_bits_eqb by lia. rewrite (Z.eqb_sym (P - 1) t). reflexivity.
  - rewrite orb_false_r. reflexivity.
Qed.

(** After [L] lanes the top [L] bits below bit [P] hold the lanes visited
    so far, first lane lowest. *)
Lemma mask_fold_testbit (P : Z) (c : nat → bool) (L : nat) (t : Z) :
  0 < P → Z.of_nat L ≤ P → 0 ≤ t →
  Z.testbit (foldl (λ m idx, mask_step (Z.shiftl 1 (P - 1)) (c idx) m) 0
                   (seq 0 L)) t
  = if bool_decide (P - Z.of_nat L ≤ t < P)
    then c (Z.to_nat (t - (P - Z.of_nat L))) else false.
Proof.
  intros HP. revert t. induction L as [|L IH]; intros t HL Ht.
  - cbn. rewrite Z.testbit_0_l. case_bool_decide; [lia | reflexivity].
  - rewrite seq_S, foldl_app. cbn [foldl].
    rewrite testbit_mask_step by lia.
    rewrite IH by lia.
    repeat case_bool_decide; cbn.
    + assert (Hne : (t =? P - 1) = false) by (apply Z.eqb_neq; lia).
      rewrite Hne, andb_false_r, orb_false_r. f_equal. lia.
    + lia.
    + assert (Heq : t = P - 1) by lia.
      rewrite Heq, Z.eqb_refl, andb_true_r. f_equal. lia.
    + assert (Hne : (t =? P - 1) = false) by (apply Z.eqb_neq; lia).
      rewrite Hne, andb_false_r. reflexivity.
Qed.

Lemma mask_fold_full (P : Z) (c : nat → bool) (t : Z) :
  0 < P →
  Z.testbit (foldl (λ m idx, mask_step (Z.shiftl 1 (P - 1)) (c idx) m) 0
                   (seq 0 (Z.to_nat P))) t
  = if bool_decide (0 ≤ t < P) then c (Z.to_nat t) else false.
Proof.
  intros HP. destruct (Z.ltb_spec t 0) as [Hneg|Hnn].
  - rewrite Z.testbit_neg_r by assumption.
    case_bool_decide; [lia | reflexivity].
  - rewrite mask_fold_testbit by lia. rewrite Z2Nat.id by lia.
    repeat case_bool_decide; try lia; try reflexivity. f_equal. lia.
Qed.

Lemma mask_visitor_fold (d : Dims) (j : nat) (dv : DimVars) (mbit : Z)
    (l : list nat) (a b : Z) :
  foldl (λ s idx, (StencilBundleTempl.mask_visitor j dv mbit s
                     (unlayout (is_first_inner d) (_fold_sizes d) (Z.of_nat idx))
                     idx).1) (a, b) l
  = (foldl (λ m idx, mask_step mbit
                       (peel_lane dv j (lane_point d (Z.of_nat idx))) m) a l,
     foldl (λ m idx, mask_step mbit
                       (rem_lane dv j (lane_point d (Z.of_nat idx))) m) b l).
Proof.
  revert a b. induction l as [|idx l IH]; intros a b; [reflexivity|].
  cbn [foldl]. rewrite <- IH. f_equal.
Qed.

Lemma visited_masks (d : Dims) (j : nat) (dv : DimVars) (mbit : Z) :
  (visit_all_points (is_first_inner d) (_fold_sizes d)
     (StencilBundleTempl.mask_visitor j dv mbit) (0, 0)).1
  = (foldl (λ m idx, mask_step mbit
                       (peel_lane dv j (lane_point d (Z.of_nat idx))) m) 0
           (seq 0 (Z.to_nat (product (_fold_sizes d)))),
     foldl (λ m idx, mask_step mbit
                       (rem_lane dv j (lane_point d (Z.of_nat idx))) m) 0
           (seq 0 (Z.to_nat (product (_fold_sizes d))))).
Proof.
  rewrite visit_all_points_total by reflexivity. cbn [fst].
  apply mask_visitor_fold.
Qed.

Lemma spec_masks_unfold (d : Dims) (j : nat) (dv : DimVars) :
  spec_masks d j dv
  = (foldl (λ m idx, mask_step (Z.shiftl 1 (product (_fold_pts d) - 1))
                       (peel_lane dv j (lane_point d (Z.of_nat idx))) m) 0
           (seq 0 (Z.to_nat (product (_fold_sizes d)))),
     foldl (λ m idx, mask_step (Z.shiftl 1 (product (_fold_pts d) - 1))
                       (rem_lane dv j (lane_point d (Z.of_nat idx))) m) 0
           (seq 0 (Z.to_nat (product (_fold_sizes d))))).
Proof.
  unfold spec_masks, seqZ. rewrite !foldl_fmap.
  generalize (seq 0 (Z.to_nat (product (_fold_sizes d)))) as l.
  assert (Hgen : ∀ (l : list nat) (a b : Z),
    foldl (λ (m : Z * Z) (idx : nat),
             (mask_step (Z.shiftl 1 (product (_fold_pts d) - 1))
                (peel_lane dv j (lane_point d (Z.of_nat idx + 0))) m.1,
              mask_step (Z.shiftl 1 (product (_fold_pts d) - 1))
                (rem_lane dv j (lane_point d (Z.of_nat idx + 0))) m.2))
          (a, b) l
    = (foldl (λ m idx, mask_step (Z.shiftl 1 (product (_fold_pts d) - 1))
                         (peel_lane dv j (lane_point d (Z.of_nat idx))) m) a l,
       foldl (λ m idx, mask_step (Z.shiftl 1 (product (_fold_pts d) - 1))
                         (rem_lane dv j (lane_point d (Z.of_nat idx))) m) b l)).
  { induction l as [|idx l IH]; intros a b; [reflexivity|].
    cbn [foldl]. rewrite IH. cbn [fst snd]. rewrite Z.add_0_r. reflexivity. }
  intros l. apply Hgen.
Qed.

(** The masks the loop builds for a dim, bit by bit. *)
Lemma visited_masks_testbit (d : Dims) (j : nat) (dv : DimVars) (t : Z) :
  _fold_sizes d = _fold_pts d → 0 < product (_fold_pts d) →
  let m := (visit_all_points (is_first_inner d) (_fold_sizes d)
              (StencilBundleTempl.mask_visitor j dv
                 (Z.shiftl 1 (product (_fold_pts d) - 1))) (0, 0)).1 in
  Z.testbit m.1 t =
    (if bool_decide (0 ≤ t < product (_fold_pts d))
     then peel_lane dv j (lane_point d t) else false) ∧
  Z.testbit m.2 t =
    (if bool_decide (0 ≤ t < product (_fold_pts d))
     then rem_lane dv j (lane_point d t) else false).
Proof.
  intros Hsz HP m. subst m. rewrite visited_masks. cbn [fst snd].
  rewrite Hsz.
  rewrite (mask_fold_full _ (λ idx, peel_lane dv j (lane_point d (Z.of_nat idx))))
    by assumption.
  rewrite (mask_fold_full _ (λ idx, rem_lane dv j (lane_point d (Z.of_nat idx))))
    by assumption.
  split; case_bool_decide; try reflexivity; rewrite Z2Nat.id by lia; reflexivity.
Qed.

Lemma testbit_nonzero (m t : Z) : Z.testbit m t = true → m ≠ 0.
Proof. intros Hb ->. rewrite Z.testbit_0_l in Hb. discriminate. Qed.

(** Some lane has a given offset in dim [j]. *)
Lemma lane_with_offset (d : Dims) (j : nat) (c : Z → Z) :
  _fold_sizes d = _fold_pts d → Forall (λ s, 0 < s) (_fold_pts d) →
  (j < length (_fold_pts d))%nat →
  (∀ s, 0 < s → 0 ≤ c s < s) →
  ∃ t, 0 ≤ t < product (_fold_pts d) ∧
       lane_point d t !!! j = c (_fold_pts d !!! j).
Proof.
  intros Hsz Hpos Hj Hc.
  set (pt := c <$> _fold_pts d).
  assert (Hpt : in_space (_fold_pts d) pt).
  { subst pt. unfold in_space. clear Hj Hsz.
    induction Hpos; cbn; constructor; auto. }
  exists (layout (is_first_inner d) (_fold_pts d) pt). split.
  - apply layout_range, Hpt.
  - unfold lane_point. rewrite Hsz, unlayout_layout by exact Hpt.
    subst pt. apply list_lookup_total_fmap. exact Hj.
Qed.

Lemma fold_pts_pos (d : Dims) (j : nat) :
  Forall (λ s, 0 < s) (_fold_pts d) → (j < length (_fold_pts d))%nat →
  0 < _fold_pts d !!! j.
Proof. intros Hpos Hj. apply (Forall_lookup_total_1 _ _ j Hpos Hj). Qed.

Lemma to_idx_small (x : Z) : - 2 ^ 63 ≤ x < 2 ^ 63 → to_idx x = x.
Proof. intros Hx. unfold to_idx. rewrite Z.mod_small by lia. lia. Qed.

(** Up to 63 lanes the upper bit of the masks is a positive [idx_t]. *)
Lemma mbit_small (P : Z) :
  0 < P ≤ 63 → to_idx (Z.shiftl 1 (P - 1)) = Z.shiftl 1 (P - 1).
Proof.
  intros HP. apply to_idx_small. rewrite Z.shiftl_1_l.
  assert (0 < 2 ^ (P - 1)) by (apply Z.pow_pos_nonneg; lia).
  assert (2 ^ (P - 1) < 2 ^ 63) by (apply Z.pow_lt_mono_r; lia).
  lia.
Qed.

(** The masks of a dim with a partial vector, and why neither assertion
    on them fails. *)
Lemma make_masks_run (DEBUG : bool) (ctx : StencilContext)
    (sb_idxs : ScanIndices) (i j : nat) :
  _fold_sizes (dims ctx) = _fold_pts (dims ctx) →
  Forall (λ s, 0 < s) (_fold_pts (dims ctx)) →
  (j < length (_fold_pts (dims ctx)))%nat →
  product (_fold_pts (dims ctx)) ≤ 63 →
  let dv := StencilBundleTempl.dim_bounds ctx sb_idxs i j in
  StencilBundleTempl.make_masks DEBUG (dims ctx) j dv =
  Ok (if do_left_pvec dv || do_right_pvec dv
      then StencilBundleTempl.with_masks
             (spec_masks (dims ctx) j dv).1 (spec_masks (dims ctx) j dv).2 dv
      else dv) [].
Proof.
  intros Hsz Hpos Hj Hlanes dv.
  pose proof (fold_pts_pos _ _ Hpos Hj) as HV.
  pose proof (product_pos _ Hpos) as HP.
  unfold StencilBundleTempl.make_masks.
  destruct (do_left_pvec dv || do_right_pvec dv) eqn:Hany; [|reflexivity].
  rewrite mbit_small by lia.
  replace (pmask dv) with 0 by reflexivity.
  replace (rmask dv) with 0 by reflexivity.
  rewrite spec_masks_unfold, <- visited_masks.
  set (m := (visit_all_points _ _ _ _).1).
  assert (Hbits := λ t, visited_masks_testbit (dims ctx) j dv t Hsz HP).
  cbn zeta in Hbits. fold m in Hbits.
  rewrite (bind_Ok_nil _ _ tt); [rewrite (bind_Ok_nil _ _ tt); [reflexivity|]|].
  - destruct (do_right_pvec dv) eqn:Hr; [|reflexivity].
    apply assert_holds. intros _. apply negb_true_iff, Z.eqb_neq.
    destruct (lane_with_offset (dims ctx) j (λ _, 0) Hsz Hpos Hj ltac:(lia))
      as (t & Ht & Hlane).
    apply (testbit_nonzero _ t). rewrite (proj2 (Hbits t)).
    rewrite bool_decide_eq_true_2 by exact Ht.
    unfold rem_lane. rewrite Hlane. apply Z.ltb_lt.
    cbn in Hr |- *. apply Z.gtb_lt in Hr. lia.
  - destruct (do_left_pvec dv) eqn:Hl; [|reflexivity].
    apply assert_holds. intros _. apply negb_true_iff, Z.eqb_neq.
    destruct (lane_with_offset (dims ctx) j (λ s, s - 1) Hsz Hpos Hj ltac:(lia))
      as (t & Ht & Hlane).
    apply (testbit_nonzero _ t). rewrite (proj1 (Hbits t)).
    rewrite bool_decide_eq_true_2 by exact Ht.
    unfold peel_lane. rewrite Hlane. apply Z.geb_le.
    cbn.
    destruct (round_down_flr_bounds
                (begin sb_idxs !!! i - rank_domain_offsets ctx !!! j)
                (_fold_pts (dims ctx) !!! j) HV) as (q & -> & Hq).
    lia.
Qed.

(** With a fold of 64 lanes the upper bit is the sign bit of [idx_t] and
    the arithmetic shift copies it down: for the block [1, 70) the
    remainder mask comes out as all ones although only 6 lanes of the
    remainder vector lie in the block. *)
Lemma masks_at_64_lanes :
  ∃ r,
    StencilBundleTempl.make_masks true (dims wide_context) 0
      (StencilBundleTempl.dim_bounds wide_context (one_dim_block 1 70) 1 0)
    = Ok r [] ∧
    pmask r = -2 ∧ rmask r = -1.
Proof. eexists. split; [vm_compute; reflexivity|]. split; reflexivity. Qed.

(** C3. For a dim with a partial vector the masks are those obtained by
    visiting every lane of the fold in layout order, shifting both masks
    right by one at each lane and then setting the high bit of the peel
    mask iff [ovbgn + p[j] ≥ ebgn] and that of the rem mask iff
    [fvend + p[j] < eend]; bit [t] of each mask thus tells whether lane
    [t] is enabled.  A dim with no partial vector keeps zero masks.
    Nothing but the masks changes, and neither assertion on the masks
    fails.  The fold has at most 63 lanes, so that the high bit is not
    the sign bit of [idx_t]. *)
Theorem make_masks_spec (DEBUG : bool) (ctx : StencilContext)
    (sb_idxs : ScanIndices) (i j : nat)
    (Hsizes : _fold_sizes (dims ctx) = _fold_pts (dims ctx))
    (Hpos : Forall (λ s, 0 < s) (_fold_pts (dims ctx)))
    (Hj : (j < length (_fold_pts (dims ctx)))%nat)
    (Hlanes : product (_fold_pts (dims ctx)) ≤ 63) :
  let d := dims ctx in
  let dv := StencilBundleTempl.dim_bounds ctx sb_idxs i j in
  ∃ r,
    StencilBundleTempl.make_masks DEBUG d j dv = Ok r [] ∧
    (ebgn r, eend r, fcbgn r, fcend r, fvbgn r, fvend r, ovbgn r, ovend r)
    = (ebgn dv, eend dv, fcbgn dv, fcend dv, fvbgn dv, fvend dv,
       ovbgn dv, ovend dv) ∧
    (do_left_fvec r, do_right_fvec r, do_left_pvec r, do_right_pvec r)
    = (do_left_fvec dv, do_right_fvec dv, do_left_pvec dv,
       do_right_pvec dv) ∧
    ((ebgn dv <? fvbgn dv) || (eend dv >? fvend dv) = false →
       pmask r = 0 ∧ rmask r = 0) ∧
    ((ebgn dv <? fvbgn dv) || (eend dv >? fvend dv) = true →
       (pmask r, rmask r) = spec_masks d j dv ∧
       ∀ t, Z.testbit (pmask r) t =
              (if bool_decide (0 ≤ t < product (_fold_pts d))
               then ovbgn dv + lane_point d t !!! j >=? ebgn dv else false) ∧
            Z.testbit (rmask r) t =
              (if bool_decide (0 ≤ t < product (_fold_pts d))
               then fvend dv + lane_point d t !!! j <? eend dv else false)).
Proof.
  intros d dv. subst d.
  pose proof (make_masks_run DEBUG ctx sb_idxs i j Hsizes Hpos Hj Hlanes)
    as Hrun.
  cbn zeta in Hrun. fold dv in Hrun.
  change (ebgn dv <? fvbgn dv) with (do_left_pvec dv).
  change (eend dv >? fvend dv) with (do_right_pvec dv).
  destruct (do_left_pvec dv || do_right_pvec dv) eqn:Hany.
  - eexists. split; [exact Hrun|].
    cbn [StencilBundleTempl.with_masks ebgn eend fcbgn fcend fvbgn fvend
           ovbgn ovend do_left_fvec do_right_fvec do_left_pvec
           do_right_pvec pmask rmask].
    split; [reflexivity|]. split; [reflexivity|].
    split; [intros; discriminate|].
    intros _. split; [destruct (spec_masks _ _ _); reflexivity|].
    intros t. rewrite spec_masks_unfold, <- visited_masks.
    apply (visited_masks_testbit (dims ctx) j dv t Hsizes
             (product_pos _ Hpos)).
  - exists dv. split; [exact Hrun|].
    split; [reflexivity|]. split; [reflexivity|].
    split; [intros _; split; reflexivity | intros; discriminate].
Qed.

Lemma make_masks_spec_witness :
  ∃ r,
    StencilBundleTempl.make_masks true (dims halo_context) 0
      (StencilBundleTempl.dim_bounds halo_context halo_block 1 0)
    = Ok r [] ∧
    Z.testbit (pmask r) 2 = false ∧ Z.testbit (pmask r) 3 = true ∧
    Z.testbit (rmask r) 0 = true ∧ Z.testbit (rmask r) 1 = false.
Proof.
  destruct (make_masks_spec true halo_context halo_block 1 0
              ltac:(reflexivity) ltac:(repeat constructor) ltac:(cbn; lia)
              ltac:(cbn; lia))
    as (r & Hrun & _ & _ & _ & Hbits).
  exists r. split; [exact Hrun|].
  destruct (Hbits ltac:(reflexivity)) as [_ Ht].
  repeat split.
  - apply (proj1 (Ht 2)).
  - apply (proj1 (Ht 3)).
  - apply (proj2 (Ht 0)).
  - apply (proj2 (Ht 1)).
Defined.

(** ** Loops *)

Lemma for_each_st_pure {A S : Type} (l : list A) (body : S → A → Result S)
    (g : S → A → S) (s : S) :
  (∀ s x, x ∈ l → body s x = Ok (g s x) []) →
  for_each_st l body s = Ok (foldl g s l) [].
Proof.
  revert s. induction l as [|x l IH]; intros s Hbody; [reflexivity|].
  cbn [for_each_st foldl].
  rewrite (bind_Ok_nil _ _ (g s x)) by (apply Hbody; constructor).
  apply IH. intros s' y Hy. apply Hbody. constructor. exact Hy.
Qed.

Lemma for_each_trace {A : Type} (l : list A) (body : A → Result unit)
    (g : A → list Event) :
  (∀ x, x ∈ l → body x = Ok tt (g x)) →
  for_each l body = Ok tt (concat (g <$> l)).
Proof.
  induction l as [|x l IH]; intros Hbody; [reflexivity|].
  cbn [for_each]. rewrite (bind_Ok _ _ tt (g x)) by (apply Hbody; constructor).
  rewrite IH by (intros y Hy; apply Hbody; constructor; exact Hy).
  reflexivity.
Qed.

Lemma DOMAIN_VAR_LOOP_S {S : Type} (n : nat) (body : S → nat → nat → S) s :
  DOMAIN_VAR_LOOP (Datatypes.S n) body s =
  body (DOMAIN_VAR_LOOP n body s) (Datatypes.S n) n.
Proof. unfold DOMAIN_VAR_LOOP. rewrite seq_S, foldl_app. reflexivity. Qed.

(** Entries written one per dim, [off] positions into the list. *)
Lemma length_foldl_insert (off : nat) (f : nat → Z) (l0 : Indices) (n : nat) :
  length (foldl (λ l j, <[(off + j)%nat := f j]> l) l0 (seq 0 n)) = length l0.
Proof.
  induction n as [|n IH]; [reflexivity|].
  rewrite seq_S, foldl_app. cbn. rewrite length_insert. exact IH.
Qed.

Lemma lookup_foldl_insert (off : nat) (f : nat → Z) (l0 : Indices) (n k : nat) :
  (off + n ≤ length l0)%nat →
  foldl (λ l j, <[(off + j)%nat := f j]> l) l0 (seq 0 n) !!! k =
  if bool_decide (off ≤ k < off + n)%nat then f (k - off)%nat else l0 !!! k.
Proof.
  induction n as [|n IH]; intros Hlen.
  - cbn. case_bool_decide; [lia | reflexivity].
  - rewrite seq_S, foldl_app. cbn [foldl Nat.add].
    destruct (decide (k = (off + n)%nat)) as [->|Hne].
    + rewrite list_lookup_total_insert_eq
        by (rewrite length_foldl_insert; lia).
      rewrite bool_decide_eq_true_2 by lia. f_equal. lia.
    + rewrite list_lookup_total_insert_ne by congruence.
      rewrite IH by lia.
      repeat case_bool_decide; try lia; reflexivity.
Qed.

(** A bit field with one bit per dim. *)
Lemma is_bit_set_set_bit (m : Z) (j k : nat) :
  is_bit_set (set_bit m j) k = is_bit_set m k || bool_decide (k = j).
Proof.
  unfold is_bit_set, set_bit. rewrite Z.lor_spec, Z.shiftl_1_l.
  rewrite Z.pow2_bits_eqb by lia. f_equal.
  case_bool_decide; [apply Z.eqb_eq | apply Z.eqb_neq]; lia.
Qed.

Lemma is_bit_set_foldl (c : nat → bool) (n k : nat) :
  is_bit_set (foldl (λ m j, if c j then set_bit m j else m) 0 (seq 0 n)) k =
  bool_decide (k < n)%nat && c k.
Proof.
  induction n as [|n IH].
  - cbn. unfold is_bit_set. rewrite Z.testbit_0_l. reflexivity.
  - rewrite seq_S, foldl_app. cbn [foldl Nat.add].
    destruct (c n) eqn:Hc.
    + rewrite is_bit_set_set_bit, IH.
      repeat case_bool_decide; subst; try lia; cbn;
        rewrite ?Hc, ?orb_false_r; reflexivity.
    + rewrite IH. repeat case_bool_decide; try lia; try reflexivity.
      assert (k = n) by lia. subst k. rewrite Hc. reflexivity.
Qed.

Lemma foldl_andb (c : nat → bool) (l : list nat) (b : bool) :
  foldl (λ acc j, acc && c j) b l = b && forallb c l.
Proof.
  revert b. induction l as [|x l IH]; intros b; cbn; [rewrite andb_true_r; reflexivity|].
  rewrite IH. rewrite andb_assoc. reflexivity.
Qed.

Lemma foldl_sticky (c : nat → bool) (l : list nat) (b : bool) :
  foldl (λ acc j, if c j then true else acc) b l = b || existsb c l.
Proof.
  revert b. induction l as [|x l IH]; intros b; cbn; [rewrite orb_false_r; reflexivity|].
  rewrite IH. destruct (c x), b; reflexivity.
Qed.

(** ** One pass of the per-dim loop *)

Lemma forallb_seq_lookup (c : nat → bool) (n j : nat) :
  forallb c (seq 0 n) = true → (j < n)%nat → c j = true.
Proof.
  intros Hall Hj. rewrite forallb_forall in Hall. apply Hall.
  apply in_seq. lia.
Qed.

Lemma forallb_Forall_pos (l : Indices) :
  forallb (λ v, 0 <? v) l = true → Forall (λ s, 0 < s) l.
Proof.
  intros Hall. rewrite forallb_forall in Hall. apply Forall_forall.
  intros x Hx. apply Z.ltb_lt, Hall. apply list_elem_of_In, Hx.
Qed.

(** What [dims_ok] provides, in a form fit for arithmetic. *)
Lemma dims_ok_inv (n : nat) (d : Dims) :
  dims_ok n d = true →
  length (_fold_pts d) = n ∧ length (_cluster_pts d) = n ∧
  _fold_sizes d = _fold_pts d ∧
  Forall (λ s, 0 < s) (_fold_pts d) ∧
  (∀ j, (j < n)%nat →
        0 < _fold_pts d !!! j ∧
        ∃ m, 0 < m ∧ _cluster_pts d !!! j = m * _fold_pts d !!! j) ∧
  0 < product (_fold_pts d) ≤ 63.
Proof.
  unfold dims_ok. rewrite !andb_true_iff.
  intros ((((((Hl1 & Hl2) & Hsz) & Hpos) & Hcl) & HP) & _).
  apply bool_decide_eq_true in Hl1, Hl2, Hsz.
  apply forallb_Forall_pos in Hpos.
  repeat split; try assumption.
  - apply fold_pts_pos; [assumption | lia].
  - pose proof (forallb_seq_lookup _ _ _ Hcl H) as Hj. cbn beta in Hj.
    apply andb_true_iff in Hj as [Hc Hm].
    apply Z.ltb_lt in Hc. apply Z.eqb_eq in Hm.
    assert (HV : 0 < _fold_pts d !!! j) by (apply fold_pts_pos; [assumption | lia]).
    exists (_cluster_pts d !!! j / _fold_pts d !!! j).
    assert (Hne : _fold_pts d !!! j ≠ 0) by lia.
    pose proof (Z.div_mod (_cluster_pts d !!! j) (_fold_pts d !!! j) Hne)
      as Hdm.
    rewrite Hm, Z.add_0_r in Hdm.
    set (q := _cluster_pts d !!! j / _fold_pts d !!! j) in *.
    split; [|lia].
    destruct (Z.lt_ge_cases 0 q) as [|Hq]; [assumption|].
    pose proof (Z.mul_nonneg_nonpos _ q (Z.lt_le_incl _ _ HV) Hq). lia.
  - apply product_pos, Hpos.
  - apply Z.leb_le, HP.
Qed.

Lemma dim_bounds_checked_run (DEBUG : bool) (ctx : StencilContext)
    (sb_idxs : ScanIndices) (i j : nat) :
  0 < _fold_pts (dims ctx) !!! j →
  begin sb_idxs !!! i ≤ end_ sb_idxs !!! i →
  StencilBundleTempl.dim_bounds_checked DEBUG ctx sb_idxs i j =
  Ok (StencilBundleTempl.dim_bounds ctx sb_idxs i j) [].
Proof.
  intros HV Hle. unfold StencilBundleTempl.dim_bounds_checked.
  set (x := begin sb_idxs !!! i - rank_domain_offsets ctx !!! j).
  set (y := end_ sb_idxs !!! i - rank_domain_offsets ctx !!! j).
  destruct (round_down_flr_bounds x _ HV) as (q1 & E1 & B1).
  destruct (round_up_flr_bounds x _ HV) as (q2 & E2 & B2).
  destruct (round_down_flr_bounds y _ HV) as (q3 & E3 & B3).
  destruct (round_up_flr_bounds y _ HV) as (q4 & E4 & B4).
  assert (x ≤ y) by (subst x y; lia).
  rewrite !(bind_Ok_nil _ _ tt); [reflexivity| | |];
    apply assert_holds; intros _; cbn; fold x y;
    rewrite ?E1, ?E2, ?E3, ?E4;
    first [apply Z.geb_le | apply Z.leb_le]; nia.
Qed.

Lemma fixups_run (DEBUG : bool) (dv : DimVars) (dc : bool) :
  (overlap dv = true → fvbgn dv = ovend dv) →
  StencilBundleTempl.fixups DEBUG dv dc =
  match StencilBundleTempl.fixups false dv true with
  | Ok r _ => Ok (r.1, dc && r.2) []
  | Fault msg tr => Fault msg tr
  end.
Proof.
  intros Hov. unfold StencilBundleTempl.fixups. fold (overlap dv).
  destruct (overlap dv).
  - rewrite (bind_Ok_nil _ _ tt)
      by (apply assert_holds; intros _; apply Z.eqb_eq, Hov; reflexivity).
    cbn. rewrite andb_false_r. reflexivity.
  - destruct (fcend dv <=? fcbgn dv); cbn;
      rewrite ?andb_false_r, ?andb_true_r; reflexivity.
Qed.

Lemma overlap_bounds (ctx : StencilContext) (sb_idxs : ScanIndices)
    (i j : nat) (pm rm : Z) :
  0 < _fold_pts (dims ctx) !!! j →
  let dv := StencilBundleTempl.with_masks pm rm
              (StencilBundleTempl.dim_bounds ctx sb_idxs i j) in
  overlap dv = true → fvbgn dv = ovend dv.
Proof.
  intros HV dv Hov.
  destruct (fixups_cases false ctx sb_idxs i j pm rm true HV)
    as (dv' & dc' & _ & _ & Hcase & _).
  apply Hcase. exact Hov.
Qed.

Lemma masked_with_masks (d : Dims) (j : nat) (dv : DimVars) :
  pmask dv = 0 → rmask dv = 0 →
  ∃ pm rm, masked d j dv = StencilBundleTempl.with_masks pm rm dv.
Proof.
  intros Hp Hr. unfold masked. destruct (_ || _); [eauto|].
  exists 0, 0. destruct dv; cbn in *; subst; reflexivity.
Qed.

(** The pass of dim [j] runs to its end in DEBUG builds as well, with the
    same local vars. *)
Lemma dim_vars_run (DEBUG : bool) (ctx : StencilContext)
    (sb_idxs : ScanIndices) (dc : bool) (j : nat) :
  dims_ok (nddims ctx) (dims ctx) = true → (j < nddims ctx)%nat →
  begin sb_idxs !!! S j ≤ end_ sb_idxs !!! S j →
  StencilBundleTempl.dim_vars DEBUG ctx sb_idxs dc (S j) j =
  Ok (dim_result ctx sb_idxs j, dc && dim_keeps_clusters ctx sb_idxs j) [] ∧
  dim_result ctx sb_idxs j =
  match StencilBundleTempl.fixups false
          (masked (dims ctx) j (StencilBundleTempl.dim_bounds ctx sb_idxs (S j) j))
          true with
  | Ok r _ => r.1
  | Fault _ _ => StencilBundleTempl.dim_bounds ctx sb_idxs (S j) j
  end ∧
  dim_keeps_clusters ctx sb_idxs j =
  match StencilBundleTempl.fixups false
          (masked (dims ctx) j (StencilBundleTempl.dim_bounds ctx sb_idxs (S j) j))
          true with
  | Ok r _ => r.2
  | Fault _ _ => false
  end.
Proof.
  intros Hok Hj Hle.
  destruct (dims_ok_inv _ _ Hok) as (Hl1 & Hl2 & Hsz & Hpos & Hdim & HP).
  destruct (Hdim j Hj) as [HV _].
  assert (Hjl : (j < length (_fold_pts (dims ctx)))%nat) by lia.
  set (dv0 := StencilBundleTempl.dim_bounds ctx sb_idxs (S j) j).
  assert (Hrun : ∀ D dc',
    StencilBundleTempl.dim_vars D ctx sb_idxs dc' (S j) j =
    StencilBundleTempl.fixups D (masked (dims ctx) j dv0) dc').
  { intros D dc'. unfold StencilBundleTempl.dim_vars.
    rewrite (bind_Ok_nil _ _ dv0) by (apply dim_bounds_checked_run; assumption).
    rewrite (bind_Ok_nil _ _ (masked (dims ctx) j dv0))
      by (apply make_masks_run; try assumption; lia).
    reflexivity. }
  assert (Hov : overlap (masked (dims ctx) j dv0) = true →
                fvbgn (masked (dims ctx) j dv0) = ovend (masked (dims ctx) j dv0)).
  { destruct (masked_with_masks (dims ctx) j dv0 eq_refl eq_refl)
      as (pm & rm & ->).
    apply (overlap_bounds ctx sb_idxs (S j) j pm rm HV). }
  unfold dim_result, dim_keeps_clusters. rewrite !Hrun.
  rewrite (fixups_run DEBUG _ dc Hov).
  destruct (StencilBundleTempl.fixups false (masked (dims ctx) j dv0) true)
    as [r tr|msg tr] eqn:Hfix.
  - repeat split; reflexivity.
  - exfalso. unfold StencilBundleTempl.fixups in Hfix.
    destruct (_ && _); [discriminate|]. destruct (_ <=? _); discriminate.
Qed.

(** ** The variables after the per-dim loop *)

Lemma block_ok_inv (n : nat) (idxs : ScanIndices) :
  block_ok n idxs = true →
  length (start idxs) = S n ∧ length (stop idxs) = S n ∧
  ∀ j, (j < n)%nat → start idxs !!! S j ≤ stop idxs !!! S j.
Proof.
  unfold block_ok. rewrite !andb_true_iff. intros ((Hl1 & Hl2) & Hle).
  apply bool_decide_eq_true in Hl1, Hl2. repeat split; try assumption.
  intros j Hj. apply Z.leb_le. apply (forallb_seq_lookup _ _ _ Hle Hj).
Qed.

Lemma nano_block_vars_run (DEBUG : bool) (b : StencilBundleTempl.t)
    (settings : KernelSettings) (micro_block_idxs : ScanIndices) :
  let ctx := StencilBundleTempl._context b in
  dims_ok (nddims ctx) (dims ctx) = true →
  block_ok (nddims ctx) micro_block_idxs = true →
  StencilBundleTempl.nano_block_vars DEBUG b settings micro_block_idxs =
  Ok (loop_state ctx
        (StencilBundleTempl.nano_block_idxs settings micro_block_idxs)
        (nddims ctx)) [].
Proof.
  intros ctx Hok Hblk.
  destruct (block_ok_inv _ _ Hblk) as (_ & _ & Hle).
  unfold StencilBundleTempl.nano_block_vars, DOMAIN_VAR_LOOP_M, loop_state,
    DOMAIN_VAR_LOOP.
  apply for_each_st_pure. intros st j Hj.
  apply elem_of_seq in Hj.
  unfold StencilBundleTempl.dim_body.
  fold ctx.
  destruct (dim_vars_run DEBUG ctx
              (StencilBundleTempl.nano_block_idxs settings micro_block_idxs)
              (do_clusters st) j Hok ltac:(lia)) as (Hrun & _).
  { apply Hle. lia. }
  cbn [Nat.add step_posn]. rewrite (bind_Ok_nil _ _ _ Hrun). reflexivity.
Qed.

Lemma loop_state_S ctx sb_idxs n :
  loop_state ctx sb_idxs (S n) =
  StencilBundleTempl.save_dim (loop_state ctx sb_idxs n) (S n) n
    (dim_result ctx sb_idxs n)
    (do_clusters (loop_state ctx sb_idxs n) && dim_keeps_clusters ctx sb_idxs n).
Proof. unfold loop_state. rewrite DOMAIN_VAR_LOOP_S. reflexivity. Qed.


Lemma written_S f g s0 n :
  written f g s0 (S n) = set_end (S n) (g n) (set_begin (S n) (f n) (written f g s0 n)).
Proof. unfold written. rewrite seq_S, !foldl_app. reflexivity. Qed.

Lemma written_0 f g s0 : written f g s0 0 = s0.
Proof. destruct s0; reflexivity. Qed.

Lemma loop_state_indices ctx sb_idxs n :
  let rr := with_align_ofs (set_from_const (align_ofs sb_idxs) 0) sb_idxs in
  let dr := dim_result ctx sb_idxs in
  let st := loop_state ctx sb_idxs n in
  sb_eidxs st = written (λ j, ebgn (dr j)) (λ j, eend (dr j)) rr n ∧
  sb_fcidxs st = written (λ j, fcbgn (dr j)) (λ j, fcend (dr j)) rr n ∧
  sb_fvidxs st = written (λ j, fvbgn (dr j)) (λ j, fvend (dr j)) rr n ∧
  sb_ovidxs st = written (λ j, ovbgn (dr j)) (λ j, ovend (dr j)) rr n.
Proof.
  intros rr dr. induction n as [|n IH]; cbn zeta.
  - rewrite !written_0. repeat split; reflexivity.
  - rewrite loop_state_S, !written_S. cbn zeta in IH.
    destruct IH as (<- & <- & <- & <-). repeat split; reflexivity.
Qed.

Lemma loop_state_flags ctx sb_idxs n :
  let dr := dim_result ctx sb_idxs in
  let st := loop_state ctx sb_idxs n in
  do_left_fvecs st =
    foldl (λ m j, if do_left_fvec (dr j) then set_bit m j else m) 0 (seq 0 n) ∧
  do_right_fvecs st =
    foldl (λ m j, if do_right_fvec (dr j) then set_bit m j else m) 0 (seq 0 n) ∧
  do_left_pvecs st =
    foldl (λ m j, if do_left_pvec (dr j) then set_bit m j else m) 0 (seq 0 n) ∧
  do_right_pvecs st =
    foldl (λ m j, if do_right_pvec (dr j) then set_bit m j else m) 0 (seq 0 n) ∧
  peel_masks st =
    foldl (λ l j, <[(0 + j)%nat := pmask (dr j)]> l)
          (replicate (nddims ctx) 0) (seq 0 n) ∧
  rem_masks st =
    foldl (λ l j, <[(0 + j)%nat := rmask (dr j)]> l)
          (replicate (nddims ctx) 0) (seq 0 n) ∧
  do_clusters st =
    foldl (λ acc j, acc && dim_keeps_clusters ctx sb_idxs j) true (seq 0 n) ∧
  do_outside_clusters st =
    foldl (λ acc j, if any_outside (dr j) then true else acc) false (seq 0 n).
Proof.
  intros dr. induction n as [|n IH]; cbn zeta.
  - repeat split; reflexivity.
  - rewrite loop_state_S, seq_S, !foldl_app. cbn zeta in IH.
    destruct IH as (<- & <- & <- & <- & <- & <- & <- & <-).
    repeat split; reflexivity.
Qed.

(** ** Ranges in elements and in vectors *)

Lemma in_vec_range_elem (V B1 B2 x : Z) :
  0 < V → (V | B1) → (V | B2) →
  in_vec_range (B1 / V) (B2 / V) (x / V) = (B1 <=? x) && (x <? B2).
Proof.
  intros HV [a ->] [b ->]. unfold in_vec_range.
  rewrite !Z.div_mul by lia.
  pose proof (Z.div_mod x V ltac:(lia)) as Hx.
  pose proof (Z.mod_pos_bound x V HV) as Hp.
  set (q := x / V) in *. set (p := x mod V) in *.
  f_equal.
  - destruct (Z.leb_spec a q), (Z.leb_spec (a * V) x); try reflexivity; nia.
  - destruct (Z.ltb_spec q b), (Z.ltb_spec x (b * V)); try reflexivity; nia.
Qed.

Lemma mod_in_vector (V B x : Z) :
  0 < V → (V | B) → B ≤ x < B + V → x mod V = x - B.
Proof.
  intros HV [a ->] Hx.
  replace x with (x - a * V + a * V) at 1 by lia.
  rewrite Z.mod_add by lia. apply Z.mod_small. lia.
Qed.

Lemma testbit_to_bit_mask (m t : Z) :
  0 ≤ t < 64 → Z.testbit (to_bit_mask m) t = Z.testbit m t.
Proof. intros Ht. unfold to_bit_mask. apply Z.mod_pow2_bits_low. lia. Qed.

Lemma in_cluster_range_aligned (m a b v : Z) :
  0 < m →
  in_cluster_range m (a * m) (b * m) v = in_vec_range (a * m) (b * m) v.
Proof.
  intros Hm. unfold in_cluster_range, in_vec_range.
  destruct (Z.leb_spec (a * m) v) as [Hav|]; [|reflexivity]. cbn [andb].
  pose proof (Z.div_mod (v - a * m) m ltac:(lia)) as Hd.
  pose proof (Z.mod_pos_bound (v - a * m) m Hm) as Hp.
  set (k := (v - a * m) / m) in *. set (p := (v - a * m) mod m) in *.
  destruct (Z.lt_ge_cases (a + k) b) as [Hlt|Hge].
  - pose proof (Z.mul_le_mono_nonneg_r (a + k + 1) b m ltac:(lia) ltac:(lia)).
    destruct (Z.ltb_spec (a * m + k * m) (b * m)), (Z.ltb_spec v (b * m));
      try reflexivity; lia.
  - pose proof (Z.mul_le_mono_nonneg_r b (a + k) m ltac:(lia) ltac:(lia)).
    destruct (Z.ltb_spec (a * m + k * m) (b * m)), (Z.ltb_spec v (b * m));
      try reflexivity; lia.
Qed.

(** Comparisons on [Z] as propositions, for [lia]. *)
Ltac bool_to_prop H :=
  rewrite ?Z.geb_leb, ?Z.gtb_ltb in H;
  repeat first
    [ rewrite andb_true_iff in H | rewrite andb_false_iff in H
    | rewrite orb_true_iff in H | rewrite orb_false_iff in H
    | rewrite Z.leb_le in H | rewrite Z.leb_gt in H
    | rewrite Z.ltb_lt in H | rewrite Z.ltb_ge in H
    | rewrite Z.eqb_eq in H | rewrite Z.eqb_neq in H ].

Ltac solve_b2z :=
  repeat match goal with
    | |- context [b2z ?b] =>
        let H := fresh "Hb" in
        destruct b eqn:H; bool_to_prop H; cbn [b2z]
    end;
  lia.

Ltac solve_false :=
  apply not_true_is_false;
  let H := fresh "Hb" in intros H; bool_to_prop H; lia.

(** ** The local vars of a dim at the end of its pass *)

Section DimFacts.
Variables (ctx : StencilContext) (sb_idxs : ScanIndices) (j : nat).
Hypothesis Hok : dims_ok (nddims ctx) (dims ctx) = true.
Hypothesis Hj : (j < nddims ctx)%nat.
Hypothesis Hle : begin sb_idxs !!! S j ≤ end_ sb_idxs !!! S j.

Let d := dims ctx.
Let V := _fold_pts d !!! j.
Let C := _cluster_pts d !!! j.
Let dv0 := StencilBundleTempl.dim_bounds ctx sb_idxs (S j) j.
Let m0 := masked d j dv0.
Let r := dim_result ctx sb_idxs j.
Let keeps := dim_keeps_clusters ctx sb_idxs j.

Lemma dim_V_pos : 0 < V.
Proof. destruct (dims_ok_inv _ _ Hok) as (_ & _ & _ & _ & Hdim & _).
       apply (Hdim j Hj). Qed.

Lemma dim_C_mult : ∃ m, 0 < m ∧ C = m * V.
Proof. destruct (dims_ok_inv _ _ Hok) as (_ & _ & _ & _ & Hdim & _).
       apply (Hdim j Hj). Qed.

Lemma masked_fields :
  ebgn m0 = ebgn dv0 ∧ eend m0 = eend dv0 ∧
  fcbgn m0 = fcbgn dv0 ∧ fcend m0 = fcend dv0 ∧
  fvbgn m0 = fvbgn dv0 ∧ fvend m0 = fvend dv0 ∧
  ovbgn m0 = ovbgn dv0 ∧ ovend m0 = ovend dv0 ∧
  do_left_fvec m0 = do_left_fvec dv0 ∧
  do_right_fvec m0 = do_right_fvec dv0 ∧
  do_left_pvec m0 = do_left_pvec dv0 ∧
  do_right_pvec m0 = do_right_pvec dv0.
Proof.
  subst m0. unfold masked. destruct (_ || _); repeat split; reflexivity.
Qed.

(** The three outcomes of the fixups. *)
Lemma dim_result_shape :
  (ebgn r = ebgn dv0 ∧ eend r = eend dv0 ∧ fvbgn r = fvbgn dv0 ∧
   fvend r = fvend dv0 ∧ ovbgn r = ovbgn dv0 ∧ ovend r = ovend dv0) ∧
  ((overlap dv0 = true ∧
    pmask r = Z.land (pmask m0) (rmask m0) ∧ rmask r = 0 ∧
    do_left_pvec r = true ∧ do_right_pvec r = false ∧
    do_left_fvec r = false ∧ do_right_fvec r = false ∧
    keeps = false ∧ fcbgn r = fcbgn dv0 ∧ fcend r = fcend dv0) ∨
   (overlap dv0 = false ∧ fcend dv0 ≤ fcbgn dv0 ∧
    fcbgn r = fvend dv0 ∧ fcend r = fvend dv0 ∧ keeps = false ∧
    do_left_fvec r = do_left_fvec dv0 || do_right_fvec dv0 ∧
    do_right_fvec r = false ∧
    do_left_pvec r = do_left_pvec dv0 ∧
    do_right_pvec r = do_right_pvec dv0 ∧
    pmask r = pmask m0 ∧ rmask r = rmask m0) ∨
   (overlap dv0 = false ∧ fcbgn dv0 < fcend dv0 ∧ r = m0 ∧ keeps = true)).
Proof.
  destruct (dim_vars_run false ctx sb_idxs true j Hok Hj Hle)
    as (_ & Hr & Hk).
  fold dv0 d m0 r in Hr. fold dv0 d m0 keeps in Hk.
  destruct (masked_with_masks d j dv0 eq_refl eq_refl) as (pm & rm & Hm).
  fold m0 in Hm.
  destruct (fixups_cases false ctx sb_idxs (S j) j pm rm true dim_V_pos)
    as (dv' & dc' & Hfix & Hsame & Hcase1 & Hcase2 & Hcase3).
  fold dv0 in Hfix, Hsame, Hcase1, Hcase2, Hcase3.
  rewrite <- Hm in Hfix, Hsame, Hcase1, Hcase2, Hcase3.
  rewrite Hfix in Hr, Hk. cbn in Hr, Hk. subst dv' dc'.
  destruct masked_fields
    as (E1 & E2 & E3 & E4 & E5 & E6 & E7 & E8 & E9 & E10 & E11 & E12).
  assert (Hov : overlap m0 = overlap dv0).
  { unfold overlap. congruence. }
  fold (overlap m0) in Hcase1, Hcase2, Hcase3. rewrite Hov in *.
  assert (Hpm : pmask m0 = pm ∧ rmask m0 = rm) by (rewrite Hm; split; reflexivity).
  destruct Hpm as [Hpm Hrm].
  split.
  { assert (Hs : (ebgn r, eend r, fvbgn r, fvend r, ovbgn r, ovend r)
                 = (ebgn dv0, eend dv0, fvbgn dv0, fvend dv0, ovbgn dv0,
                    ovend dv0)) by (rewrite Hsame; congruence).
    clear -Hs. generalize dependent dv0. intros dv Hs.
    generalize dependent r. intros r' Hs.
    inversion Hs. repeat split; reflexivity. }
  destruct (overlap dv0) eqn:Hovl.
  - left. destruct (Hcase1 eq_refl) as (_ & ? & ? & ? & ? & ? & ? & ? & ? & ?).
    repeat split; congruence.
  - destruct (Z.le_gt_cases (fcend dv0) (fcbgn dv0)) as [Hnc|Hc].
    + right; left.
      destruct (Hcase2 eq_refl ltac:(congruence))
        as (? & ? & ? & ? & ? & ? & ? & ? & ?).
      repeat split; congruence.
    + right; right.
      destruct (Hcase3 eq_refl ltac:(lia)) as (? & ?).
      repeat split; congruence.
Qed.

(** Bit [t] of the masks made for the dim. *)
Lemma masked_bits (t : Z) :
  0 ≤ t < product (_fold_pts d) →
  Z.testbit (pmask m0) t =
    (do_left_pvec dv0 || do_right_pvec dv0) &&
    peel_lane dv0 j (lane_point d t) ∧
  Z.testbit (rmask m0) t =
    (do_left_pvec dv0 || do_right_pvec dv0) &&
    rem_lane dv0 j (lane_point d t).
Proof.
  intros Ht.
  destruct (dims_ok_inv _ _ Hok) as (_ & _ & Hsz & Hpos & _ & HP).
  fold d in Hsz, Hpos, HP.
  subst m0. unfold masked.
  destruct (do_left_pvec dv0 || do_right_pvec dv0) eqn:Hany.
  - cbn [pmask rmask StencilBundleTempl.with_masks andb].
    rewrite spec_masks_unfold, <- visited_masks.
    destruct (visited_masks_testbit d j dv0 t Hsz ltac:(lia)) as [H1 H2].
    rewrite H1, H2. rewrite !bool_decide_eq_true_2 by lia. split; reflexivity.
  - cbn. rewrite Z.testbit_0_l. split; reflexivity.
Qed.

(** The bounds first computed, as facts of linear arithmetic. *)
Lemma dim_bounds_facts :
  ebgn dv0 ≤ eend dv0 ∧
  (V | ovbgn dv0) ∧ (V | fvbgn dv0) ∧ (V | fvend dv0) ∧ (V | ovend dv0) ∧
  (V | fcbgn dv0) ∧ (V | fcend dv0) ∧ (C | fcbgn dv0) ∧ (C | fcend dv0) ∧
  ovbgn dv0 ≤ ebgn dv0 < ovbgn dv0 + V ∧
  ebgn dv0 ≤ fvbgn dv0 < ebgn dv0 + V ∧
  fvend dv0 ≤ eend dv0 < fvend dv0 + V ∧
  eend dv0 ≤ ovend dv0 < eend dv0 + V ∧
  (fvbgn dv0 = ovbgn dv0 ∨ fvbgn dv0 = ovbgn dv0 + V) ∧
  (ovend dv0 = fvend dv0 ∨ ovend dv0 = fvend dv0 + V) ∧
  fvbgn dv0 ≤ fcbgn dv0 ∧ fcend dv0 ≤ fvend dv0 ∧
  (fvend dv0 < fvbgn dv0 → fvbgn dv0 = fvend dv0 + V) ∧
  (fvend dv0 ≤ ovbgn dv0 → fvend dv0 = ovbgn dv0).
Proof.
  pose proof dim_V_pos as HV. destruct dim_C_mult as (m & Hm & HC).
  assert (HCpos : 0 < C) by nia.
  subst dv0. cbn -[round_up_flr round_down_flr].
  fold d V C.
  set (x := begin sb_idxs !!! S j - rank_domain_offsets ctx !!! j).
  set (y := end_ sb_idxs !!! S j - rank_domain_offsets ctx !!! j).
  assert (Hxy : x ≤ y) by (subst x y; lia).
  destruct (round_down_flr_bounds x V HV) as (q1 & E1 & B1).
  destruct (round_up_flr_bounds x V HV) as (q2 & E2 & B2).
  destruct (round_down_flr_bounds y V HV) as (q3 & E3 & B3).
  destruct (round_up_flr_bounds y V HV) as (q4 & E4 & B4).
  destruct (round_up_flr_bounds x C HCpos) as (q5 & E5 & B5).
  destruct (round_down_flr_bounds y C HCpos) as (q6 & E6 & B6).
  rewrite E1, E2, E3, E4, E5, E6.
  assert (q2 = q1 ∨ q2 = q1 + 1) as H21 by nia.
  assert (q4 = q3 ∨ q4 = q3 + 1) as H43 by nia.
  assert (q2 ≤ q5 * m) as H25.
  { apply (multiple_le V); [assumption|]. nia. }
  assert (q6 * m ≤ q3) as H63.
  { apply (multiple_le V); [assumption|]. nia. }
  assert (q3 < q2 → q2 = q3 + 1) as H32 by nia.
  assert (q3 ≤ q1 → q3 = q1) as H31 by nia.
  repeat split; try lia; try nia;
    try (eexists; reflexivity).
  - exists (q5 * m). nia.
  - exists (q6 * m). nia.
Qed.

(** The ranges of the dim tile its line of elements: the cluster and
    the two full-vector ranges make up the range of full vectors, which
    with the enabled lanes of the peel and remainder vectors makes up the
    range of the nano-block. *)
Lemma dim_partition (x t : Z) :
  0 ≤ t < product (_fold_pts d) →
  lane_point d t !!! j = x mod V →
  b2z (fvN r V x) + b2z (fvL r V x) + b2z (fvR r V x) = b2z (pvN r V x) ∧
  b2z (pvN r V x) + b2z (pvL r V x t) + b2z (pvR r V x t) = b2z (inE r x) ∧
  (keeps = true → clN r V C x = fvN r V x) ∧
  (keeps = false → fvN r V x = false).
Proof.
  intros Ht Hlane.
  pose proof dim_V_pos as HV. destruct dim_C_mult as (m & Hm & HC).
  destruct (dims_ok_inv _ _ Hok) as (_ & _ & _ & _ & _ & HP). fold d in HP.
  destruct dim_bounds_facts
    as (Hxy & Dov & Dfv & Dfe & Doe & Dfc & Dce & DCb & DCe &
        R1 & R2 & R3 & R4 & R5 & R6 & R7 & R8 & R9 & R10).
  destruct (masked_bits t Ht) as [Hpb Hrb].
  unfold peel_lane in Hpb. unfold rem_lane in Hrb. rewrite Hlane in Hpb, Hrb.
  pose proof (mod_in_vector V (ovbgn dv0) x HV Dov) as Hmod1.
  pose proof (mod_in_vector V (fvend dv0) x HV Dfe) as Hmod2.
  pose proof (Z.mod_pos_bound x V HV) as Hp.
  destruct dim_result_shape as ((S1 & S2 & S3 & S4 & S5 & S6) & Hshape).
  unfold fvN, fvL, fvR, pvN, pvL, pvR, clN, inE.
  rewrite !testbit_to_bit_mask by lia.
  rewrite S1, S2, S3, S4, S5, S6.
  change (do_left_pvec dv0) with (ebgn dv0 <? fvbgn dv0) in *.
  change (do_right_pvec dv0) with (eend dv0 >? fvend dv0) in *.
  change (do_left_fvec dv0) with (fvbgn dv0 <? fcbgn dv0) in *.
  change (do_right_fvec dv0) with (fvend dv0 >? fcend dv0) in *.
  unfold overlap in Hshape.
  change (do_left_pvec dv0) with (ebgn dv0 <? fvbgn dv0) in Hshape.
  change (do_right_pvec dv0) with (eend dv0 >? fvend dv0) in Hshape.
  destruct Hshape as
    [(Hov & Hp1 & Hp2 & F1 & F2 & F3 & F4 & Hk & Hb & He) |
     [(Hov & Hnc & Hb & He & Hk & F1 & F2 & F3 & F4 & Hp1 & Hp2) |
      (Hov & Hc & Hr & Hk)]].
  - rewrite Hp1, Hp2, F1, F2, F3, F4, Hb, He, Hk.
    rewrite Z.land_spec, Hpb, Hrb, Z.testbit_0_l.
    rewrite !in_vec_range_elem by assumption.
    bool_to_prop Hov.
    set (p := x mod V) in *.
    remember (ebgn dv0) as e0 eqn:X0 in *.
    remember (eend dv0) as e1 eqn:X1 in *.
    remember (fvbgn dv0) as fvb eqn:X2 in *.
    remember (fvend dv0) as fve eqn:X3 in *.
    remember (ovbgn dv0) as ov eqn:X4 in *.
    remember (ovend dv0) as ove eqn:X5 in *.
    remember (fcbgn dv0) as fcb eqn:X6 in *.
    remember (fcend dv0) as fce eqn:X7 in *.
    assert (Hchain : ov = fve ∧ fvb = ov + V ∧ ove = fvb ∧
                     ov < e0 ≤ e1 ∧ e1 < fvb ∧ fvb ≤ fcb ∧ fce ≤ fve)
      by lia.
    clear - Hp Hchain Hmod1 Hmod2.
    split; [solve_b2z|]. split; [solve_b2z|].
    split; [discriminate|]. intros _. solve_false.
  - rewrite Hp1, Hp2, F1, F2, F3, F4, Hb, He, Hk.
    rewrite Hpb, Hrb.
    rewrite !in_vec_range_elem by assumption.
    bool_to_prop Hov.
    set (p := x mod V) in *.
    remember (ebgn dv0) as e0 eqn:X0 in *.
    remember (eend dv0) as e1 eqn:X1 in *.
    remember (fvbgn dv0) as fvb eqn:X2 in *.
    remember (fvend dv0) as fve eqn:X3 in *.
    remember (ovbgn dv0) as ov eqn:X4 in *.
    remember (ovend dv0) as ove eqn:X5 in *.
    remember (fcbgn dv0) as fcb eqn:X6 in *.
    remember (fcend dv0) as fce eqn:X7 in *.
    assert (Hchain : ov ≤ e0 ≤ fvb ∧ fvb ≤ fve ∧ fve ≤ e1 ≤ ove ∧
                     fvb ≤ ov + V ∧ ove ≤ fve + V) by lia.
    assert (Hfl : (fvb <? fcb) || (fve >? fce) = false → fvb = fve).
    { intros Hbb. bool_to_prop Hbb. lia. }
    clear - Hp Hchain Hmod1 Hmod2 Hfl.
    split; [solve_b2z|]. split; [solve_b2z|].
    split; [discriminate|]. intros _. solve_false.
  - rewrite Hr, Hk.
    destruct masked_fields
      as (E1 & E2 & E3 & E4 & E5 & E6 & E7 & E8 & E9 & E10 & E11 & E12).
    rewrite ?E3, ?E4, ?E5, ?E6, ?E7, ?E8, ?E9, ?E10, ?E11, ?E12.
    change (do_left_pvec dv0) with (ebgn dv0 <? fvbgn dv0).
    change (do_right_pvec dv0) with (eend dv0 >? fvend dv0).
    change (do_left_fvec dv0) with (fvbgn dv0 <? fcbgn dv0).
    change (do_right_fvec dv0) with (fvend dv0 >? fcend dv0).
    rewrite Hpb, Hrb.
    assert (Hcl : in_cluster_range (C / V) (fcbgn dv0 / V) (fcend dv0 / V) (x / V)
                  = in_vec_range (fcbgn dv0 / V) (fcend dv0 / V) (x / V)).
    { destruct DCb as [a Ha]. destruct DCe as [b Hb].
      rewrite Ha, Hb, HC.
      rewrite !Z.mul_assoc, !Z.div_mul by lia.
      apply in_cluster_range_aligned, Hm. }
    rewrite Hcl.
    rewrite !in_vec_range_elem by assumption.
    bool_to_prop Hov.
    set (p := x mod V) in *.
    remember (ebgn dv0) as e0 eqn:X0 in *.
    remember (eend dv0) as e1 eqn:X1 in *.
    remember (fvbgn dv0) as fvb eqn:X2 in *.
    remember (fvend dv0) as fve eqn:X3 in *.
    remember (ovbgn dv0) as ov eqn:X4 in *.
    remember (ovend dv0) as ove eqn:X5 in *.
    remember (fcbgn dv0) as fcb eqn:X6 in *.
    remember (fcend dv0) as fce eqn:X7 in *.
    assert (Hchain : ov ≤ e0 ≤ fvb ∧ fvb ≤ fcb ∧ fcb < fce ∧ fce ≤ fve ∧
                     fve ≤ e1 ≤ ove ∧ fvb ≤ ov + V ∧ ove ≤ fve + V) by lia.
    clear - Hp Hchain Hmod1 Hmod2.
    split; [solve_b2z|]. split; [solve_b2z|].
    split; [reflexivity | discriminate].
Qed.

End DimFacts.

(** ** Index sets written by the per-dim loop *)

Lemma written_lookup (f g : nat → Z) (s0 : ScanIndices) (n j : nat) :
  (S n ≤ length (begin s0))%nat → (S n ≤ length (end_ s0))%nat →
  (j < n)%nat →
  begin (written f g s0 n) !!! S j = f j ∧
  end_ (written f g s0 n) !!! S j = g j.
Proof.
  intros Hb He Hj. unfold written. cbn [begin end_ with_begin with_end].
  rewrite !lookup_foldl_insert by lia.
  rewrite !bool_decide_eq_true_2 by lia.
  replace (S j - 1)%nat with j by lia. split; reflexivity.
Qed.

Lemma written_fields (f g : nat → Z) (s0 : ScanIndices) (n : nat) :
  length (begin (written f g s0 n)) = length (begin s0) ∧
  length (end_ (written f g s0 n)) = length (end_ s0) ∧
  begin (written f g s0 n) !!! 0%nat = begin s0 !!! 0%nat ∧
  end_ (written f g s0 n) !!! 0%nat = end_ s0 !!! 0%nat ∧
  stride (written f g s0 n) = stride s0 ∧
  tile_size (written f g s0 n) = tile_size s0 ∧
  align (written f g s0 n) = align s0 ∧
  align_ofs (written f g s0 n) = align_ofs s0.
Proof.
  unfold written. cbn [begin end_ stride tile_size align align_ofs
                       with_begin with_end].
  rewrite !length_foldl_insert.
  repeat split.
  - clear. induction n as [|n IH]; [reflexivity|].
    rewrite seq_S, foldl_app. cbn [foldl].
    rewrite list_lookup_total_insert_ne by lia. exact IH.
  - clear. induction n as [|n IH]; [reflexivity|].
    rewrite seq_S, foldl_app. cbn [foldl].
    rewrite list_lookup_total_insert_ne by lia. exact IH.
Qed.

(** ** Normalization *)

Lemma normalized_lookup (d : Dims) (n : nat) (orig : Indices) (j : nat) :
  (S n ≤ length orig)%nat → (j < n)%nat →
  normalized d n orig !!! S j = orig !!! S j / _fold_pts d !!! j.
Proof.
  intros Hlen Hj. unfold normalized.
  rewrite (lookup_foldl_insert 1
             (λ j, idiv_flr (orig !!! S j) (_fold_pts d !!! j))) by lia.
  rewrite bool_decide_eq_true_2 by lia.
  replace (S j - 1)%nat with j by lia. reflexivity.
Qed.

Lemma normalized_fields (d : Dims) (n : nat) (orig : Indices) :
  length (normalized d n orig) = length orig ∧
  normalized d n orig !!! 0%nat = orig !!! 0%nat.
Proof.
  unfold normalized. split.
  - apply (length_foldl_insert 1).
  - induction n as [|n IH]; [reflexivity|].
    rewrite seq_S, foldl_app. cbn [foldl].
    rewrite list_lookup_total_insert_ne by lia. exact IH.
Qed.

Lemma fold_aligned_inv (n : nat) (d : Dims) (l : Indices) :
  fold_aligned n d l = true →
  length l = S n ∧
  ∀ j, (j < n)%nat → imod_flr (l !!! S j) (_fold_pts d !!! j) = 0.
Proof.
  unfold fold_aligned. rewrite andb_true_iff. intros [Hl Hall].
  apply bool_decide_eq_true in Hl. split; [exact Hl|].
  intros j Hj. apply Z.eqb_eq. apply (forallb_seq_lookup _ _ _ Hall Hj).
Qed.

Lemma fold_aligned_intro (n : nat) (d : Dims) (l : Indices) :
  length l = S n →
  (∀ j, (j < n)%nat → (_fold_pts d !!! j | l !!! S j)) →
  (∀ j, (j < n)%nat → 0 < _fold_pts d !!! j) →
  fold_aligned n d l = true.
Proof.
  intros Hl Hdiv Hpos. unfold fold_aligned.
  apply andb_true_iff. split; [apply bool_decide_eq_true, Hl|].
  apply forallb_forall. intros j Hj. apply in_seq in Hj.
  apply Z.eqb_eq. unfold imod_flr.
  destruct (Hdiv j ltac:(lia)) as [a ->].
  apply Z.mod_mul. specialize (Hpos j ltac:(lia)). lia.
Qed.

Lemma normalize_indices_run (DEBUG : bool) (b : StencilBundleTempl.t)
    (orig : Indices) :
  let ctx := StencilBundleTempl._context b in
  (DEBUG = true → fold_aligned (nddims ctx) (dims ctx) orig = true) →
  StencilBundleTempl.normalize_indices DEBUG b orig =
  Ok (normalized (dims ctx) (nddims ctx) orig) [].
Proof.
  intros ctx Hal. unfold StencilBundleTempl.normalize_indices. fold ctx.
  rewrite (bind_Ok_nil _ _ tt).
  2:{ apply assert_holds. intros HD.
      destruct (fold_aligned_inv _ _ _ (Hal HD)) as [Hl _].
      apply bool_decide_eq_true, Hl. }
  unfold DOMAIN_VAR_LOOP_M, normalized.
  apply for_each_st_pure. intros norm j Hj. apply elem_of_seq in Hj.
  rewrite (bind_Ok_nil _ _ tt); [reflexivity|].
  apply assert_holds. intros HD.
  destruct (fold_aligned_inv _ _ _ (Hal HD)) as [_ Hmod].
  apply Z.eqb_eq. apply Hmod. lia.
Qed.

Lemma normalize_scan_indices_run (DEBUG : bool) (b : StencilBundleTempl.t)
    (orig : ScanIndices) :
  let ctx := StencilBundleTempl._context b in
  (DEBUG = true →
   fold_aligned (nddims ctx) (dims ctx) (begin orig) = true ∧
   fold_aligned (nddims ctx) (dims ctx) (end_ orig) = true ∧
   fold_aligned (nddims ctx) (dims ctx) (tile_size orig) = true ∧
   fold_aligned (nddims ctx) (dims ctx) (align orig) = true ∧
   fold_aligned (nddims ctx) (dims ctx) (stride orig) = true) →
  StencilBundleTempl.normalize_scan_indices DEBUG b orig =
  Ok (normalized_scan (dims ctx) (nddims ctx) orig) [].
Proof.
  intros ctx Hal. unfold StencilBundleTempl.normalize_scan_indices.
  assert (H1 := normalize_indices_run DEBUG b (begin orig)
                  (λ HD, proj1 (Hal HD))).
  assert (H2 := normalize_indices_run DEBUG b (end_ orig)
                  (λ HD, proj1 (proj2 (Hal HD)))).
  assert (H3 := normalize_indices_run DEBUG b (tile_size orig)
                  (λ HD, proj1 (proj2 (proj2 (Hal HD))))).
  assert (H4 := normalize_indices_run DEBUG b (align orig)
                  (λ HD, proj1 (proj2 (proj2 (proj2 (Hal HD)))))).
  assert (H5 := normalize_indices_run DEBUG b (stride orig)
                  (λ HD, proj2 (proj2 (proj2 (proj2 (Hal HD)))))).
  cbn zeta in H1, H2, H3, H4, H5.
  rewrite (bind_Ok_nil _ _ _ H1), (bind_Ok_nil _ _ _ H2),
    (bind_Ok_nil _ _ _ H3), (bind_Ok_nil _ _ _ H4), (bind_Ok_nil _ _ _ H5).
  reflexivity.
Qed.

(** ** Alignment of what the per-dim loop leaves *)

Lemma dim_result_aligned (ctx : StencilContext) (sb_idxs : ScanIndices)
    (j : nat) :
  dims_ok (nddims ctx) (dims ctx) = true → (j < nddims ctx)%nat →
  begin sb_idxs !!! S j ≤ end_ sb_idxs !!! S j →
  let V := _fold_pts (dims ctx) !!! j in
  let r := dim_result ctx sb_idxs j in
  (V | fcbgn r) ∧ (V | fcend r) ∧ (V | fvbgn r) ∧ (V | fvend r) ∧
  (V | ovbgn r) ∧ (V | ovend r).
Proof.
  intros Hok Hj Hle V r.
  destruct (dim_bounds_facts ctx sb_idxs j Hok Hj Hle)
    as (_ & Dov & Dfv & Dfe & Doe & Dfc & Dce & _).
  destruct (dim_result_shape ctx sb_idxs j Hok Hj Hle)
    as ((S1 & S2 & S3 & S4 & S5 & S6) & Hshape).
  fold r in S1, S2, S3, S4, S5, S6, Hshape.
  rewrite S3, S4, S5, S6.
  assert (Hfc : (V | fcbgn r) ∧ (V | fcend r)).
  { destruct Hshape as
      [(_ & _ & _ & _ & _ & _ & _ & _ & -> & ->) |
       [(_ & _ & -> & -> & _) | (_ & _ & Hr & _)]].
    - split; assumption.
    - split; assumption.
    - rewrite Hr.
      destruct (masked_fields ctx sb_idxs j) as (_ & _ & -> & -> & _).
      split; assumption. }
  destruct Hfc. repeat split; assumption.
Qed.

(** ** The variables handed to the dispatch *)

Section FinalState.
Variables (b : StencilBundleTempl.t) (settings : KernelSettings)
          (micro_block_idxs : ScanIndices).

Let ctx := StencilBundleTempl._context b.
Let n := nddims ctx.
Let d := dims ctx.
Let sb := StencilBundleTempl.nano_block_idxs settings micro_block_idxs.
Let st := loop_state ctx sb n.
Let dr := dim_result ctx sb.

Hypothesis Hok : dims_ok n d = true.
Hypothesis Hblk : block_ok n micro_block_idxs = true.

Lemma sb_begin_end :
  begin sb = start micro_block_idxs ∧ end_ sb = stop micro_block_idxs ∧
  length (begin sb) = S n ∧ length (end_ sb) = S n ∧
  ∀ j, (j < n)%nat → begin sb !!! S j ≤ end_ sb !!! S j.
Proof.
  destruct (block_ok_inv _ _ Hblk) as (Hl1 & Hl2 & Hle).
  subst sb. cbn. repeat split; assumption.
Qed.

Lemma final_lookups (j : nat) :
  (j < n)%nat →
  (begin (sb_eidxs st) !!! S j = ebgn (dr j) ∧
   end_ (sb_eidxs st) !!! S j = eend (dr j)) ∧
  (begin (sb_fcidxs st) !!! S j = fcbgn (dr j) ∧
   end_ (sb_fcidxs st) !!! S j = fcend (dr j)) ∧
  (begin (sb_fvidxs st) !!! S j = fvbgn (dr j) ∧
   end_ (sb_fvidxs st) !!! S j = fvend (dr j)) ∧
  (begin (sb_ovidxs st) !!! S j = ovbgn (dr j) ∧
   end_ (sb_ovidxs st) !!! S j = ovend (dr j)).
Proof.
  intros Hj.
  destruct sb_begin_end as (_ & _ & Hl1 & Hl2 & _).
  destruct (loop_state_indices ctx sb n) as (He & Hfc & Hfv & Hov).
  fold st dr in He, Hfc, Hfv, Hov.
  rewrite He, Hfc, Hfv, Hov.
  repeat split; apply written_lookup;
    cbn [begin end_ with_align_ofs]; lia.
Qed.

Lemma final_fields (idxs : ScanIndices) :
  idxs ∈ [sb_eidxs st; sb_fcidxs st; sb_fvidxs st; sb_ovidxs st] →
  length (begin idxs) = S n ∧ length (end_ idxs) = S n ∧
  begin idxs !!! 0%nat = start micro_block_idxs !!! 0%nat ∧
  end_ idxs !!! 0%nat = stop micro_block_idxs !!! 0%nat ∧
  stride idxs = <[0%nat := 1]> (_pico_block_sizes settings) ∧
  tile_size idxs = _nano_block_tile_sizes settings ∧
  align idxs = align micro_block_idxs.
Proof.
  intros Hin.
  destruct sb_begin_end as (_ & _ & Hl1 & Hl2 & _).
  destruct (loop_state_indices ctx sb n) as (He & Hfc & Hfv & Hov).
  fold st dr in He, Hfc, Hfv, Hov.
  assert (Hw : ∃ f g, idxs = written f g
                 (with_align_ofs (set_from_const (align_ofs sb) 0) sb) n).
  { rewrite !elem_of_cons in Hin.
    destruct Hin as [->|[->|[->|[->|Hin]]]]; [eauto..|].
    apply elem_of_nil in Hin. contradiction. }
  destruct Hw as (f & g & ->).
  destruct (written_fields f g
              (with_align_ofs (set_from_const (align_ofs sb) 0) sb) n)
    as (E1 & E2 & E3 & E4 & E5 & E6 & E7 & _).
  rewrite E1, E2, E3, E4, E5, E6, E7. cbn.
  repeat split; assumption.
Qed.

Lemma final_flags (j : nat) :
  is_bit_set (do_left_fvecs st) j =
    bool_decide (j < n)%nat && do_left_fvec (dr j) ∧
  is_bit_set (do_right_fvecs st) j =
    bool_decide (j < n)%nat && do_right_fvec (dr j) ∧
  is_bit_set (do_left_pvecs st) j =
    bool_decide (j < n)%nat && do_left_pvec (dr j) ∧
  is_bit_set (do_right_pvecs st) j =
    bool_decide (j < n)%nat && do_right_pvec (dr j).
Proof.
  destruct (loop_state_flags ctx sb n) as (E1 & E2 & E3 & E4 & _).
  fold st dr in E1, E2, E3, E4. rewrite E1, E2, E3, E4.
  rewrite !is_bit_set_foldl. repeat split; reflexivity.
Qed.

Lemma final_masks (j : nat) :
  (j < n)%nat →
  peel_masks st !!! j = pmask (dr j) ∧ rem_masks st !!! j = rmask (dr j).
Proof.
  intros Hj.
  destruct (loop_state_flags ctx sb n) as (_ & _ & _ & _ & E5 & E6 & _).
  fold st dr n in E5, E6. rewrite E5, E6.
  rewrite !lookup_foldl_insert by (rewrite length_replicate; lia).
  rewrite !bool_decide_eq_true_2 by lia.
  replace (j - 0)%nat with j by lia. split; reflexivity.
Qed.

Lemma final_globals :
  do_clusters st = forallb (dim_keeps_clusters ctx sb) (seq 0 n) ∧
  do_outside_clusters st = existsb (λ j, any_outside (dr j)) (seq 0 n).
Proof.
  destruct (loop_state_flags ctx sb n)
    as (_ & _ & _ & _ & _ & _ & E7 & E8).
  fold st dr in E7, E8. rewrite E7, E8.
  rewrite foldl_andb, (foldl_sticky (λ j, any_outside (dr j))).
  split; reflexivity.
Qed.

(** Begin and end of the three index sets are whole vectors in every
    domain dim, in each outcome of the fixups. *)
Lemma final_aligned (idxs : ScanIndices) :
  idxs ∈ [sb_fcidxs st; sb_fvidxs st; sb_ovidxs st] →
  fold_aligned n d (begin idxs) = true ∧
  fold_aligned n d (end_ idxs) = true.
Proof.
  intros Hin.
  destruct sb_begin_end as (_ & _ & _ & _ & Hle).
  destruct (final_fields idxs) as (Hl1 & Hl2 & _).
  { apply elem_of_cons. right. exact Hin. }
  destruct (dims_ok_inv _ _ Hok) as (_ & _ & _ & _ & Hdim & _).
  assert (Hal : ∀ j, (j < n)%nat →
            (_fold_pts d !!! j | begin idxs !!! S j) ∧
            (_fold_pts d !!! j | end_ idxs !!! S j)).
  { intros j Hj.
    destruct (final_lookups j Hj) as (_ & (F1 & F2) & (F3 & F4) & (F5 & F6)).
    destruct (dim_result_aligned ctx sb j Hok Hj (Hle j Hj))
      as (A1 & A2 & A3 & A4 & A5 & A6).
    fold dr d in A1, A2, A3, A4, A5, A6.
    rewrite !elem_of_cons in Hin.
    destruct Hin as [->|[->|[->|Hin]]];
      [| | |apply elem_of_nil in Hin; contradiction].
    - rewrite F1, F2. split; assumption.
    - rewrite F3, F4. split; assumption.
    - rewrite F5, F6. split; assumption. }
  split; apply fold_aligned_intro; try assumption;
    intros j Hj; first [apply (Hal j Hj) | apply (Hdim j Hj)].
Qed.

(** Strides, tiles and alignments are those of the caller. *)
Lemma final_caller_aligned (idxs : ScanIndices) :
  caller_aligned n d settings micro_block_idxs = true →
  idxs ∈ [sb_fcidxs st; sb_fvidxs st; sb_ovidxs st] →
  fold_aligned n d (tile_size idxs) = true ∧
  fold_aligned n d (align idxs) = true ∧
  fold_aligned n d (stride idxs) = true.
Proof.
  intros Hcal Hin.
  destruct (final_fields idxs) as (_ & _ & _ & _ & E5 & E6 & E7).
  { apply elem_of_cons. right. exact Hin. }
  unfold caller_aligned in Hcal. rewrite !andb_true_iff in Hcal.
  destruct Hcal as ((Hp & Ht) & Ha).
  rewrite E5, E6, E7. repeat split; try assumption.
  unfold fold_aligned in Hp |- *. rewrite andb_true_iff in Hp |- *.
  destruct Hp as [Hl Hall]. split.
  - apply bool_decide_eq_true in Hl. apply bool_decide_eq_true.
    rewrite length_insert. exact Hl.
  - rewrite forallb_forall in Hall |- *. intros j Hj.
    rewrite list_lookup_total_insert_ne by lia. apply Hall, Hj.
Qed.

Lemma final_normalize (DEBUG : bool) (idxs : ScanIndices) :
  (DEBUG = true → caller_aligned n d settings micro_block_idxs = true) →
  idxs ∈ [sb_fcidxs st; sb_fvidxs st; sb_ovidxs st] →
  StencilBundleTempl.normalize_scan_indices DEBUG b idxs =
  Ok (normalized_scan d n idxs) [].
Proof.
  intros Hcal Hin. apply normalize_scan_indices_run. intros HD.
  destruct (final_aligned idxs Hin) as [A1 A2].
  destruct (final_caller_aligned idxs (Hcal HD) Hin) as (A3 & A4 & A5).
  repeat split; assumption.
Qed.

End FinalState.

(** ** The dispatch *)

Lemma do_part_run (ctx : StencilContext) (outer inner : Z) (p : PartVars) :
  CPTS (dims ctx) ≠ 1 →
  StencilBundleTempl.do_part ctx outer inner p =
  Ok tt (part_calls ctx outer inner p).
Proof.
  intros Hc. unfold StencilBundleTempl.do_part, part_calls,
    StencilBundleTempl.calc_vectors_opt2.
  apply Z.eqb_neq in Hc. rewrite Hc.
  destruct (fv_needed p), (pv_needed p); reflexivity.
Qed.

Lemma boundary_parts_run (ctx : StencilContext) (outer inner : Z)
    (st : NanoBlockVars) (nfc nfv nov : ScanIndices) :
  CPTS (dims ctx) ≠ 1 →
  StencilBundleTempl.boundary_parts ctx outer inner st nfc nfv nov =
  Ok tt (boundary_calls ctx outer inner st nfc nfv nov).
Proof.
  intros Hc. unfold StencilBundleTempl.boundary_parts, boundary_calls.
  apply for_each_trace. intros k _.
  unfold level_calls. apply for_each_trace. intros r _.
  unfold combo_calls. apply for_each_trace. intros lr _.
  apply do_part_run, Hc.
Qed.

(** A product of positive factors is one only if every factor is. *)
Lemma product_one (l : Indices) :
  Forall (λ s, 0 < s) l → product l = 1 → Forall (λ s, s = 1) l.
Proof.
  unfold product. induction 1 as [|x l Hx Hl IH]; cbn; intros Hp;
    [constructor|].
  pose proof (product_pos l Hl) as Hpos. unfold product in Hpos.
  assert (x = 1 ∧ foldr Z.mul 1 l = 1) as [-> Hr] by nia.
  constructor; [reflexivity | apply IH, Hr].
Qed.

Lemma round_flr_one (x : Z) : round_up_flr x 1 = x ∧ round_down_flr x 1 = x.
Proof.
  destruct (round_up_flr_bounds x 1 ltac:(lia)) as (q1 & -> & B1).
  destruct (round_down_flr_bounds x 1 ltac:(lia)) as (q2 & -> & B2).
  lia.
Qed.

(** With clusters of one point there is nothing outside the clusters. *)
Lemma no_outside_when_scalar (ctx : StencilContext) (sb_idxs : ScanIndices)
    (j : nat) :
  dims_ok (nddims ctx) (dims ctx) = true → (j < nddims ctx)%nat →
  begin sb_idxs !!! S j ≤ end_ sb_idxs !!! S j →
  CPTS (dims ctx) = 1 →
  any_outside (dim_result ctx sb_idxs j) = false.
Proof.
  intros Hok Hj Hle Hc.
  destruct (dims_ok_inv _ _ Hok) as (Hl1 & Hl2 & _ & Hpos & Hdim & _).
  assert (HC1 : _cluster_pts (dims ctx) !!! j = 1).
  { assert (Hcpos : Forall (λ s, 0 < s) (_cluster_pts (dims ctx))).
    { apply (Forall_lookup_total_2 (λ s, 0 < s)). intros i Hi.
      destruct (Hdim i ltac:(lia)) as (HV & m & Hm & ->). nia. }
    pose proof (product_one _ Hcpos Hc) as Hone.
    apply (Forall_lookup_total_1 _ _ j Hone). lia. }
  assert (HV1 : _fold_pts (dims ctx) !!! j = 1).
  { destruct (Hdim j Hj) as (HV & m & Hm & HCm). rewrite HC1 in HCm. nia. }
  destruct (dim_result_shape ctx sb_idxs j Hok Hj Hle)
    as (_ & Hshape).
  destruct (masked_fields ctx sb_idxs j)
    as (_ & _ & _ & _ & _ & _ & _ & _ & M1 & M2 & M3 & M4).
  set (dv0 := StencilBundleTempl.dim_bounds ctx sb_idxs (S j) j) in *.
  assert (Hflags : do_left_fvec dv0 = false ∧ do_right_fvec dv0 = false ∧
                   do_left_pvec dv0 = false ∧ do_right_pvec dv0 = false).
  { subst dv0. cbn -[round_up_flr round_down_flr]. rewrite HC1, HV1.
    set (x := begin sb_idxs !!! S j - rank_domain_offsets ctx !!! j).
    set (y := end_ sb_idxs !!! S j - rank_domain_offsets ctx !!! j).
    destruct (round_flr_one x) as [-> _]. destruct (round_flr_one y) as [_ ->].
    rewrite !Z.gtb_ltb, !Z.ltb_irrefl. repeat split; reflexivity. }
  destruct Hflags as (F1 & F2 & F3 & F4).
  unfold any_outside.
  destruct Hshape as
    [(Hov & _) |
     [(_ & _ & _ & _ & _ & -> & -> & -> & -> & _) | (_ & _ & -> & _)]].
  - unfold overlap in Hov. rewrite F3 in Hov. discriminate.
  - rewrite F1, F2, F3, F4. reflexivity.
  - rewrite M1, M2, M3, M4, F1, F2, F3, F4. reflexivity.
Qed.

Section Dispatch.
Variables (DEBUG : bool) (b : StencilBundleTempl.t)
          (outer inner : Z) (settings : KernelSettings)
          (micro_block_idxs : ScanIndices).

Let ctx := StencilBundleTempl._context b.
Let n := nddims ctx.
Let d := dims ctx.
Let sb := StencilBundleTempl.nano_block_idxs settings micro_block_idxs.
Let st := loop_state ctx sb n.

Hypothesis Hok : dims_ok n d = true.
Hypothesis Hblk : block_ok n micro_block_idxs = true.
Hypothesis Hcal :
  DEBUG = true → caller_aligned n d settings micro_block_idxs = true.

Lemma outside_needs_vectors :
  do_outside_clusters st = true → CPTS d ≠ 1.
Proof.
  intros Hout Hc.
  destruct (final_globals b settings micro_block_idxs) as [_ Hg].
  fold ctx n sb st in Hg. rewrite Hg in Hout.
  apply existsb_exists in Hout as (j & Hj & Hany).
  apply in_seq in Hj.
  destruct (sb_begin_end b settings micro_block_idxs Hblk)
    as (_ & _ & _ & _ & Hle).
  fold ctx n sb in Hle.
  rewrite (no_outside_when_scalar ctx sb j Hok ltac:(lia)) in Hany;
    [discriminate | apply Hle; lia | exact Hc].
Qed.

Lemma dispatch_run :
  StencilBundleTempl.dispatch DEBUG b outer inner st =
  Ok tt (dispatch_calls ctx outer inner st).
Proof.
  unfold StencilBundleTempl.dispatch, dispatch_calls. fold ctx n d.
  assert (Hn : ∀ idxs, idxs ∈ [sb_fcidxs st; sb_fvidxs st; sb_ovidxs st] →
            StencilBundleTempl.normalize_scan_indices DEBUG b idxs =
            Ok (normalized_scan d n idxs) []).
  { intros idxs Hin.
    apply (final_normalize b settings micro_block_idxs Hok Hblk DEBUG idxs Hcal Hin). }
  rewrite (bind_Ok_nil _ _ _ (Hn (sb_fcidxs st) ltac:(rewrite !elem_of_cons; tauto))).
  unfold StencilBundleTempl.calc_clusters_opt2, emit.
  destruct (do_clusters st); cbn [negb];
    destruct (do_outside_clusters st) eqn:Hout; cbn [negb];
    try reflexivity.
  - pose proof (outside_needs_vectors Hout) as Hc.
    apply Z.eqb_neq in Hc as Hc'. cbn. rewrite Hc'.
    rewrite (bind_Ok_nil _ _ _ (Hn (sb_fvidxs st) ltac:(rewrite !elem_of_cons; tauto))).
    rewrite (bind_Ok_nil _ _ _ (Hn (sb_ovidxs st) ltac:(rewrite !elem_of_cons; tauto))).
    rewrite boundary_parts_run by exact Hc. reflexivity.
  - pose proof (outside_needs_vectors Hout) as Hc.
    apply Z.eqb_neq in Hc as Hc'. cbn. rewrite Hc'.
    rewrite (bind_Ok_nil _ _ _ (Hn (sb_fvidxs st) ltac:(rewrite !elem_of_cons; tauto))).
    rewrite (bind_Ok_nil _ _ _ (Hn (sb_ovidxs st) ltac:(rewrite !elem_of_cons; tauto))).
    rewrite boundary_parts_run by exact Hc. reflexivity.
Qed.

Lemma calc_nano_block_opt_run :
  StencilBundleTempl.calc_nano_block_opt DEBUG b outer inner settings
    micro_block_idxs = Ok tt (dispatch_calls ctx outer inner st).
Proof.
  unfold StencilBundleTempl.calc_nano_block_opt.
  rewrite (bind_Ok_nil _ _ st)
    by (apply nano_block_vars_run; assumption).
  apply dispatch_run.
Qed.

End Dispatch.

Lemma context_ok_dims (ctx : StencilContext) :
  context_ok ctx = true → dims_ok (nddims ctx) (dims ctx) = true.
Proof. unfold context_ok. rewrite andb_true_iff. tauto. Qed.

(** ** The global flags *)

Lemma keeps_clusters_iff (ctx : StencilContext) (sb_idxs : ScanIndices)
    (j : nat) :
  dims_ok (nddims ctx) (dims ctx) = true → (j < nddims ctx)%nat →
  begin sb_idxs !!! S j ≤ end_ sb_idxs !!! S j →
  dim_keeps_clusters ctx sb_idxs j = true ↔
  fcbgn (dim_result ctx sb_idxs j) < fcend (dim_result ctx sb_idxs j).
Proof.
  intros Hok Hj Hle.
  destruct (dims_ok_inv _ _ Hok) as (_ & _ & _ & _ & Hdim & _).
  destruct (Hdim j Hj) as [HV _].
  destruct (dim_bounds_facts ctx sb_idxs j Hok Hj Hle)
    as (Hxy & Dov & Dfv & Dfe & Doe & Dfc & Dce & DCb & DCe &
        R1 & R2 & R3 & R4 & R5 & R6 & R7 & R8 & R9 & R10).
  destruct (masked_fields ctx sb_idxs j)
    as (_ & _ & M3 & M4 & _).
  destruct (dim_result_shape ctx sb_idxs j Hok Hj Hle) as (_ & Hshape).
  destruct Hshape as
    [(Hov & _ & _ & _ & _ & _ & _ & -> & -> & ->) |
     [(_ & _ & -> & -> & -> & _) | (_ & Hc & -> & ->)]].
  - unfold overlap in Hov. bool_to_prop Hov.
    change (do_left_pvec (StencilBundleTempl.dim_bounds ctx sb_idxs (S j) j))
      with (ebgn (StencilBundleTempl.dim_bounds ctx sb_idxs (S j) j) <?
            fvbgn (StencilBundleTempl.dim_bounds ctx sb_idxs (S j) j)) in Hov.
    change (do_right_pvec (StencilBundleTempl.dim_bounds ctx sb_idxs (S j) j))
      with (eend (StencilBundleTempl.dim_bounds ctx sb_idxs (S j) j) >?
            fvend (StencilBundleTempl.dim_bounds ctx sb_idxs (S j) j)) in Hov.
    bool_to_prop Hov. split; [discriminate | lia].
  - split; [discriminate | lia].
  - rewrite M3, M4. split; [intros _; exact Hc | reflexivity].
Qed.

Lemma boundary_calls_vectors (ctx : StencilContext) (outer inner : Z)
    (st : NanoBlockVars) (nfc nfv nov : ScanIndices) :
  Forall (λ e, ∃ idxs mask,
            e = CalcVectors outer inner (thread_limit ctx) idxs mask)
         (boundary_calls ctx outer inner st nfc nfv nov).
Proof.
  unfold boundary_calls, level_calls, combo_calls, part_calls.
  apply Forall_concat, Forall_fmap, Forall_forall. intros k _.
  apply Forall_concat, Forall_fmap, Forall_forall. intros r _.
  apply Forall_concat, Forall_fmap, Forall_forall. intros lr _.
  apply Forall_app. split.
  - destruct (fv_needed _); repeat constructor. eauto.
  - destruct (pv_needed _); repeat constructor. eauto.
Qed.

(** C6, as stated, fails: the nano-block [4, 16) has a full vector left
    of its clusters and no partial vector; no peel or remainder flag is
    set, yet [do_outside_clusters] is set and the boundary parts run. *)
Lemma outside_flag_counterexample :
  ∃ st,
    StencilBundleTempl.nano_block_vars true one_dim_bundle one_dim_settings
      (one_dim_block 4 16) = Ok st [] ∧
    do_outside_clusters st = true ∧
    do_left_pvecs st = 0 ∧ do_right_pvecs st = 0 ∧
    do_left_fvecs st = 1 ∧
    ∃ cl fv, StencilBundleTempl.dispatch true one_dim_bundle 0 0 st
             = Ok tt [CalcClusters 0 0 1 cl; CalcVectors 0 0 1 fv all_ones].
Proof.
  eexists. split; [vm_compute; reflexivity|].
  repeat split. eexists _, _. vm_compute. reflexivity.
Qed.

(** C6, amended.  After the per-dim loop [do_clusters] is set iff every
    domain dim retains a full-cluster range, and [do_outside_clusters] is
    set iff some domain dim has one of its four flags set (left or right
    full vectors, left or right partial vectors).  [calc_clusters] is
    called, once and first, iff [do_clusters] is set; the boundary parts
    run iff [do_outside_clusters] is set, and make calls of
    [calc_vectors] only. *)
Theorem global_flags_spec (DEBUG : bool) (b : StencilBundleTempl.t)
    (outer inner : Z) (settings : KernelSettings)
    (micro_block_idxs : ScanIndices)
    (Hctx : context_ok (StencilBundleTempl._context b) = true)
    (Hblk : block_ok (nddims (StencilBundleTempl._context b))
                     micro_block_idxs = true)
    (Hcal : DEBUG = true →
            caller_aligned (nddims (StencilBundleTempl._context b))
              (dims (StencilBundleTempl._context b))
              settings micro_block_idxs = true) :
  let ctx := StencilBundleTempl._context b in
  ∃ st,
    StencilBundleTempl.nano_block_vars DEBUG b settings micro_block_idxs
    = Ok st [] ∧
    (do_clusters st = true ↔
     ∀ j, (j < nddims ctx)%nat →
          begin (sb_fcidxs st) !!! S j < end_ (sb_fcidxs st) !!! S j) ∧
    (do_outside_clusters st = true ↔
     ∃ j, (j < nddims ctx)%nat ∧
          is_bit_set (do_left_fvecs st) j || is_bit_set (do_right_fvecs st) j ||
          is_bit_set (do_left_pvecs st) j || is_bit_set (do_right_pvecs st) j
          = true) ∧
    ∃ norm_fcidxs norm_fvidxs norm_ovidxs parts,
      StencilBundleTempl.normalize_scan_indices DEBUG b (sb_fcidxs st)
      = Ok norm_fcidxs [] ∧
      StencilBundleTempl.dispatch DEBUG b outer inner st
      = Ok tt ((if do_clusters st
                then [CalcClusters outer inner (thread_limit ctx) norm_fcidxs]
                else []) ++ parts) ∧
      Forall (λ e, ∃ idxs mask,
                e = CalcVectors outer inner (thread_limit ctx) idxs mask)
             parts ∧
      (do_outside_clusters st = false → parts = []) ∧
      (do_outside_clusters st = true →
       StencilBundleTempl.normalize_scan_indices DEBUG b (sb_fvidxs st)
       = Ok norm_fvidxs [] ∧
       StencilBundleTempl.normalize_scan_indices DEBUG b (sb_ovidxs st)
       = Ok norm_ovidxs [] ∧
       StencilBundleTempl.boundary_parts ctx outer inner st
         norm_fcidxs norm_fvidxs norm_ovidxs = Ok tt parts).
Proof.
  intros ctx. pose proof (context_ok_dims _ Hctx) as Hok.
  fold ctx in Hok, Hblk, Hcal.
  set (sb := StencilBundleTempl.nano_block_idxs settings micro_block_idxs).
  set (st := loop_state ctx sb (nddims ctx)).
  exists st. split; [apply nano_block_vars_run; assumption|].
  destruct (sb_begin_end b settings micro_block_idxs Hblk)
    as (_ & _ & _ & _ & Hle).
  destruct (final_globals b settings micro_block_idxs) as [Hcl Hout].
  fold ctx sb st in Hle, Hcl, Hout.
  split; [|split].
  - rewrite Hcl, forallb_forall. split.
    + intros Hall j Hj.
      destruct (final_lookups b settings micro_block_idxs Hblk j Hj)
        as (_ & (F1 & F2) & _).
      fold ctx sb st in F1, F2. rewrite F1, F2.
      apply (keeps_clusters_iff ctx sb j Hok Hj (Hle j Hj)).
      apply Hall, in_seq. lia.
    + intros Hall j Hj. apply in_seq in Hj.
      assert (Hj' : (j < nddims ctx)%nat) by lia.
      destruct (final_lookups b settings micro_block_idxs Hblk j Hj')
        as (_ & (F1 & F2) & _).
      fold ctx sb st in F1, F2.
      apply (keeps_clusters_iff ctx sb j Hok Hj' (Hle j Hj')).
      rewrite <- F1, <- F2. apply Hall. exact Hj'.
  - rewrite Hout, existsb_exists. split.
    + intros (j & Hj & Hany). apply in_seq in Hj. exists j.
      split; [lia|].
      destruct (final_flags b settings micro_block_idxs j) as (E1 & E2 & E3 & E4).
      fold ctx sb st in E1, E2, E3, E4. rewrite E1, E2, E3, E4.
      rewrite bool_decide_eq_true_2 by lia. exact Hany.
    + intros (j & Hj & Hany). exists j. split; [apply in_seq; lia|].
      destruct (final_flags b settings micro_block_idxs j) as (E1 & E2 & E3 & E4).
      fold ctx sb st in E1, E2, E3, E4. rewrite E1, E2, E3, E4 in Hany.
      rewrite bool_decide_eq_true_2 in Hany by lia. exact Hany.
  - assert (Hn : ∀ idxs, idxs ∈ [sb_fcidxs st; sb_fvidxs st; sb_ovidxs st] →
              StencilBundleTempl.normalize_scan_indices DEBUG b idxs =
              Ok (normalized_scan (dims ctx) (nddims ctx) idxs) []).
    { intros idxs Hin.
      apply (final_normalize b settings micro_block_idxs Hok Hblk DEBUG idxs
               Hcal Hin). }
    exists (normalized_scan (dims ctx) (nddims ctx) (sb_fcidxs st)),
           (normalized_scan (dims ctx) (nddims ctx) (sb_fvidxs st)),
           (normalized_scan (dims ctx) (nddims ctx) (sb_ovidxs st)).
    exists (if do_outside_clusters st
            then boundary_calls ctx outer inner st
                   (normalized_scan (dims ctx) (nddims ctx) (sb_fcidxs st))
                   (normalized_scan (dims ctx) (nddims ctx) (sb_fvidxs st))
                   (normalized_scan (dims ctx) (nddims ctx) (sb_ovidxs st))
            else []).
    split; [apply Hn; rewrite !elem_of_cons; tauto|].
    split; [apply (dispatch_run DEBUG b outer inner settings micro_block_idxs
                     Hok Hblk Hcal)|].
    split; [destruct (do_outside_clusters st);
            [apply boundary_calls_vectors | constructor]|].
    split; [intros ->; reflexivity|].
    intros Ho. rewrite Ho.
    split; [apply Hn; rewrite !elem_of_cons; tauto|].
    split; [apply Hn; rewrite !elem_of_cons; tauto|].
    apply boundary_parts_run.
    apply (outside_needs_vectors b settings micro_block_idxs Hok Hblk Ho).
Qed.

Lemma global_flags_spec_witness :
  ∃ st,
    StencilBundleTempl.nano_block_vars true one_dim_bundle one_dim_settings
      (one_dim_block 4 16) = Ok st [] ∧
    (do_outside_clusters st = true ↔
     ∃ j, (j < 1)%nat ∧
          is_bit_set (do_left_fvecs st) j || is_bit_set (do_right_fvecs st) j ||
          is_bit_set (do_left_pvecs st) j || is_bit_set (do_right_pvecs st) j
          = true).
Proof.
  destruct (global_flags_spec true one_dim_bundle 0 0 one_dim_settings
              (one_dim_block 4 16) ltac:(reflexivity) ltac:(reflexivity)
              ltac:(reflexivity)) as (st & Hrun & _ & Hout & _).
  exists st. split; [exact Hrun | exact Hout].
Defined.

(** ** The reference scalar paths *)

Lemma range_points_unit (b e x : Z) :
  NoDup (range_points b e 1) ∧ (x ∈ range_points b e 1 ↔ b ≤ x < e).
Proof.
  unfold range_points. cbn [Z.ltb Z.compare].
  replace (e - b + 1 - 1) with (e - b) by lia. rewrite Z.div_1_r.
  split.
  - apply NoDup_fmap_2; [|apply NoDup_seqZ]. intros t1 t2 Ht. lia.
  - rewrite list_elem_of_fmap. split.
    + intros (t & -> & Ht). apply elem_of_seqZ in Ht. lia.
    + intros Hx. exists (x - b). split; [lia|]. apply elem_of_seqZ. lia.
Qed.

(** With stride 1 the scan visits every element of the box once. *)
Lemma scan_points_unit (bgn en : Indices) :
  length bgn = length en →
  NoDup (scan_points bgn en ((λ _, 1) <$> bgn)) ∧
  ∀ pt, pt ∈ scan_points bgn en ((λ _, 1) <$> bgn) ↔
        length pt = length bgn ∧
        ∀ i, (i < length bgn)%nat → bgn !!! i ≤ pt !!! i < en !!! i.
Proof.
  revert en. induction bgn as [|b bs IH]; intros [|e es] Hlen;
    try discriminate.
  - cbn. split; [apply NoDup_singleton|].
    intros pt. rewrite list_elem_of_singleton. split.
    + intros ->. split; [reflexivity | intros i Hi; lia].
    + intros [Hl _]. destruct pt; [reflexivity | discriminate].
  - cbn [scan_points fmap list_fmap]. injection Hlen as Hlen.
    destruct (IH es Hlen) as [IHnd IHin].
    split.
    + apply NoDup_bind.
      * intros x1 x2 y _ _ H1 H2.
        apply list_elem_of_fmap in H1 as (p1 & -> & _).
        apply list_elem_of_fmap in H2 as (p2 & Heq & _). congruence.
      * intros x _. apply NoDup_fmap_2; [|exact IHnd].
        intros p1 p2 Heq. congruence.
      * apply (range_points_unit b e 0).
    + intros pt. rewrite list_elem_of_bind. split.
      * intros (x & Hpt & Hx).
        apply list_elem_of_fmap in Hpt as (pt' & -> & Hpt').
        apply (range_points_unit b e x) in Hx.
        apply IHin in Hpt' as [Hl Hall].
        split; [cbn; congruence|].
        intros [|i] Hi; cbn; [exact Hx|]. apply Hall. cbn in Hi. lia.
      * intros [Hl Hall]. destruct pt as [|x pt']; [discriminate|].
        exists x. split.
        -- apply list_elem_of_fmap. exists pt'. split; [reflexivity|].
           apply IHin. split; [cbn in Hl; congruence|].
           intros i Hi. apply (Hall (S i)). cbn. lia.
        -- apply (range_points_unit b e x). apply (Hall 0%nat). cbn. lia.
Qed.

(** The region of the specification is the box that is scanned. *)
Lemma region_points_spec (bgn en : Indices) :
  length bgn = length en → (0 < length bgn)%nat →
  NoDup (region_points bgn en) ∧
  ∀ pt, pt ∈ region_points bgn en ↔ in_region bgn en pt.
Proof.
  intros Hlen Hpos. unfold region_points, in_region.
  destruct bgn as [|b0 bs]; [cbn in Hpos; lia|].
  destruct en as [|e0 es]; [discriminate|].
  cbn [tail]. injection Hlen as Hlen.
  destruct (scan_points_unit bs es Hlen) as [Hnd Hin].
  split.
  - apply NoDup_fmap_2; [|exact Hnd]. intros p1 p2 Heq. congruence.
  - intros pt. rewrite list_elem_of_fmap. split.
    + intros (pt' & -> & Hpt'). apply Hin in Hpt' as [Hl Hall].
      split; [cbn; congruence|]. split; [reflexivity|].
      intros j Hj. cbn. apply Hall. cbn in Hj. lia.
    + intros (Hl & H0 & Hall). destruct pt as [|x pt']; [discriminate|].
      exists pt'. cbn in H0. subst x. split; [reflexivity|].
      apply Hin. split; [cbn in Hl; congruence|].
      intros i Hi. apply (Hall i). cbn. lia.
Qed.

Lemma MISC_LOOP_trace (misc_idxs : ScanIndices)
    (body : ScanIndices → Result unit) (g : Indices → list Event) :
  tail (stride misc_idxs) = (λ _, 1) <$> tail (begin misc_idxs) →
  (∀ misc_range, body misc_range = Ok tt (g (start misc_range))) →
  MISC_LOOP misc_idxs body =
  Ok tt (concat (g <$> region_points (begin misc_idxs) (end_ misc_idxs))).
Proof.
  intros Hstride Hbody. unfold MISC_LOOP, region_points.
  rewrite Hstride, <- list_fmap_compose.
  apply for_each_trace. intros pt _. rewrite Hbody. reflexivity.
Qed.

Lemma calc_in_domain_run (b : StencilBundleTempl.t) (scratch_var_idx : Z)
    (misc_idxs : ScanIndices) :
  tail (stride misc_idxs) = (λ _, 1) <$> tail (begin misc_idxs) →
  StencilBundleTempl.calc_in_domain b scratch_var_idx misc_idxs =
  Ok tt (concat ((λ pt,
                    IsInValidDomain pt ::
                    if gen_is_in_valid_domain (StencilBundleTempl._bundle b) pt
                    then [CalcScalar scratch_var_idx pt] else [])
                 <$> region_points (begin misc_idxs) (end_ misc_idxs))).
Proof.
  intros Hstride. unfold StencilBundleTempl.calc_in_domain.
  apply MISC_LOOP_trace; [exact Hstride|].
  intros misc_range. unfold StencilBundleTempl.is_in_valid_domain. cbn.
  destruct (gen_is_in_valid_domain _ _); reflexivity.
Qed.

Lemma calc_nano_block_dbg_run (b : StencilBundleTempl.t)
    (outer inner : Z) (settings : KernelSettings)
    (micro_block_idxs : ScanIndices) :
  length (stride micro_block_idxs) = length (start micro_block_idxs) →
  StencilBundleTempl.calc_nano_block_dbg b outer inner settings
    micro_block_idxs =
  Ok tt (CalcScalar outer
         <$> region_points (start micro_block_idxs) (stop micro_block_idxs)).
Proof.
  intros Hlen.
  unfold StencilBundleTempl.calc_nano_block_dbg,
    StencilBundleTempl.calc_nano_block_dbg2.
  rewrite (MISC_LOOP_trace _ _ (λ pt, [CalcScalar outer pt])).
  - cbn [begin end_ create_inner with_begin with_end with_stride with_align].
    f_equal. induction (region_points _ _) as [|pt l IH]; [reflexivity|].
    cbn. rewrite <- IH. reflexivity.
  - cbn [begin end_ stride create_inner with_begin with_end with_stride
         with_align set_from_const].
    generalize dependent (start micro_block_idxs).
    generalize (stride micro_block_idxs) as s.
    induction s as [|x s IH]; intros [|y l] Hl; try discriminate;
      [reflexivity|].
    cbn. injection Hl as Hl. clear IH x y.
    revert l Hl. induction s as [|x s IH]; intros [|y l] Hl;
      try discriminate; [reflexivity|].
    cbn. f_equal. apply IH. cbn in Hl. lia.
  - intros misc_range. reflexivity.
Qed.

(** *** Any strides *)

Lemma range_points_spec (b e s x : Z) :
  0 < s →
  NoDup (range_points b e s) ∧
  (x ∈ range_points b e s ↔ b ≤ x < e ∧ (s | x - b)).
Proof.
  intros Hs. unfold range_points.
  assert (Hlt : (0 <? s) = true) by (apply Z.ltb_lt; exact Hs).
  rewrite Hlt.
  assert (Hne : s ≠ 0) by lia.
  pose proof (Z.div_mod (e - b + s - 1) s Hne) as Hdm.
  pose proof (Z.mod_pos_bound (e - b + s - 1) s Hs) as Hmb.
  set (N := (e - b + s - 1) / s) in *.
  assert (Hbound : ∀ t, t < N ↔ t * s < e - b) by (intros t; split; nia).
  split.
  - apply NoDup_fmap_2; [|apply NoDup_seqZ]. intros t1 t2 Ht. nia.
  - rewrite list_elem_of_fmap. split.
    + intros (t & -> & Ht). apply elem_of_seqZ in Ht.
      assert (t * s < e - b) by (apply Hbound; lia).
      split; [nia|]. exists t. lia.
    + intros [Hx [t Ht]]. exists t. split; [lia|].
      apply elem_of_seqZ. assert (t < N) by (apply Hbound; lia). nia.
Qed.

(** The scan visits every lattice point of the box once. *)
Lemma scan_points_spec (bgn en strd : Indices) :
  length bgn = length en → length bgn = length strd →
  (∀ i, (i < length bgn)%nat → 0 < strd !!! i) →
  NoDup (scan_points bgn en strd) ∧
  ∀ pt, pt ∈ scan_points bgn en strd ↔
        length pt = length bgn ∧
        ∀ i, (i < length bgn)%nat →
             bgn !!! i ≤ pt !!! i < en !!! i ∧
             (strd !!! i | pt !!! i - bgn !!! i).
Proof.
  revert en strd. induction bgn as [|b bs IH]; intros [|e es] [|s ss] Hlen Hls Hpos;
    try discriminate.
  - cbn. split; [apply NoDup_singleton|].
    intros pt. rewrite list_elem_of_singleton. split.
    + intros ->. split; [reflexivity | intros i Hi; lia].
    + intros [Hl _]. destruct pt; [reflexivity | discriminate].
  - cbn [scan_points]. injection Hlen as Hlen. injection Hls as Hls.
    assert (Hs : 0 < s) by (apply (Hpos 0%nat); cbn; lia).
    destruct (IH es ss Hlen Hls) as [IHnd IHin].
    { intros i Hi. apply (Hpos (S i)). cbn. lia. }
    split.
    + apply NoDup_bind.
      * intros x1 x2 y _ _ H1 H2.
        apply list_elem_of_fmap in H1 as (p1 & -> & _).
        apply list_elem_of_fmap in H2 as (p2 & Heq & _). congruence.
      * intros x _. apply NoDup_fmap_2; [|exact IHnd].
        intros p1 p2 Heq. congruence.
      * apply (range_points_spec b e s 0 Hs).
    + intros pt. rewrite list_elem_of_bind. split.
      * intros (x & Hpt & Hx).
        apply list_elem_of_fmap in Hpt as (pt' & -> & Hpt').
        apply (range_points_spec b e s x Hs) in Hx.
        apply IHin in Hpt' as [Hl Hall].
        split; [cbn; congruence|].
        intros [|i] Hi; cbn; [exact Hx|]. apply Hall. cbn in Hi. lia.
      * intros [Hl Hall]. destruct pt as [|x pt']; [discriminate|].
        exists x. split.
        -- apply list_elem_of_fmap. exists pt'. split; [reflexivity|].
           apply IHin. split; [cbn in Hl; congruence|].
           intros i Hi. apply (Hall (S i)). cbn. lia.
        -- apply (range_points_spec b e s x Hs). apply (Hall 0%nat).
           cbn. lia.
Qed.

Lemma lattice_points_spec (idxs : ScanIndices) :
  length (begin idxs) = length (end_ idxs) →
  length (begin idxs) = length (stride idxs) →
  (0 < length (begin idxs))%nat →
  (∀ j, (S j < length (begin idxs))%nat → 0 < stride idxs !!! S j) →
  NoDup (lattice_points idxs) ∧
  ∀ pt, pt ∈ lattice_points idxs ↔ in_lattice idxs pt.
Proof.
  intros Hlen Hls Hpos Hstr. unfold lattice_points, in_lattice.
  destruct (begin idxs) as [|b0 bs]; [cbn in Hpos; lia|].
  destruct (end_ idxs) as [|e0 es]; [discriminate|].
  destruct (stride idxs) as [|s0 ss]; [discriminate|].
  cbn [tail]. injection Hlen as Hlen. injection Hls as Hls.
  destruct (scan_points_spec bs es ss Hlen Hls) as [Hnd Hin].
  { intros i Hi. apply (Hstr i). cbn. lia. }
  split.
  - apply NoDup_fmap_2; [|exact Hnd]. intros p1 p2 Heq. congruence.
  - intros pt. rewrite list_elem_of_fmap. split.
    + intros (pt' & -> & Hpt'). apply Hin in Hpt' as [Hl Hall].
      split; [cbn; congruence|]. split; [reflexivity|].
      intros j Hj. cbn. apply Hall. cbn in Hj. lia.
    + intros (Hl & H0 & Hall). destruct pt as [|x pt']; [discriminate|].
      exists pt'. cbn in H0. subst x. split; [reflexivity|].
      apply Hin. split; [cbn in Hl; congruence|].
      intros i Hi. apply (Hall i). cbn. lia.
Qed.

Lemma MISC_LOOP_lattice (misc_idxs : ScanIndices)
    (body : ScanIndices → Result unit) (g : Indices → list Event) :
  (∀ misc_range, body misc_range = Ok tt (g (start misc_range))) →
  MISC_LOOP misc_idxs body =
  Ok tt (concat (g <$> lattice_points misc_idxs)).
Proof.
  intros Hbody. unfold MISC_LOOP, lattice_points.
  rewrite <- list_fmap_compose.
  apply for_each_trace. intros pt _. rewrite Hbody. reflexivity.
Qed.

Lemma calc_in_domain_lattice (b : StencilBundleTempl.t) (scratch_var_idx : Z)
    (misc_idxs : ScanIndices) :
  StencilBundleTempl.calc_in_domain b scratch_var_idx misc_idxs =
  Ok tt (concat ((λ pt,
                    IsInValidDomain pt ::
                    if gen_is_in_valid_domain (StencilBundleTempl._bundle b) pt
                    then [CalcScalar scratch_var_idx pt] else [])
                 <$> lattice_points misc_idxs)).
Proof.
  unfold StencilBundleTempl.calc_in_domain.
  apply MISC_LOOP_lattice.
  intros misc_range. unfold StencilBundleTempl.is_in_valid_domain. cbn.
  destruct (gen_is_in_valid_domain _ _); reflexivity.
Qed.

Lemma concat_singletons {A B : Type} (f : A → B) (l : list A) :
  concat ((λ x, [f x]) <$> l) = f <$> l.
Proof.
  induction l as [|x l IH]; [reflexivity|]. cbn. f_equal. exact IH.
Qed.

(** The debug path makes scalar calls only, whatever its argument. *)
Lemma calc_nano_block_dbg_scalar (b : StencilBundleTempl.t)
    (outer inner : Z) (settings : KernelSettings)
    (micro_block_idxs : ScanIndices) :
  ∃ pts,
    StencilBundleTempl.calc_nano_block_dbg b outer inner settings
      micro_block_idxs = Ok tt (CalcScalar outer <$> pts).
Proof.
  unfold StencilBundleTempl.calc_nano_block_dbg,
    StencilBundleTempl.calc_nano_block_dbg2.
  rewrite (MISC_LOOP_lattice _ _ (λ pt, [CalcScalar outer pt]))
    by (intros; reflexivity).
  rewrite concat_singletons. eexists. reflexivity.
Qed.

(** C7, as stated, fails for the debug path: [calc_nano_block_dbg2] calls
    [calc_scalar] at every point and tests no point.  For a bundle whose
    sub-domain is empty it still evaluates both points of the block
    [0, 2), while [calc_in_domain] evaluates none. *)
Lemma scalar_paths_counterexample :
  gen_is_in_valid_domain (StencilBundleTempl._bundle nowhere_bundle) [0; 0]
  = false ∧
  StencilBundleTempl.calc_nano_block_dbg nowhere_bundle 0 0 one_dim_settings
    (one_dim_block 0 2)
  = Ok tt [CalcScalar 0 [0; 0]; CalcScalar 0 [0; 1]] ∧
  StencilBundleTempl.calc_in_domain nowhere_bundle 0 (one_dim_block 0 2)
  = Ok tt [IsInValidDomain [0; 0]; IsInValidDomain [0; 1]].
Proof. repeat split; reflexivity. Qed.

(** C7, amended.  Neither reference scalar path calls vector or cluster
    code.  [calc_nano_block_dbg] (via [calc_nano_block_dbg2]) sets the
    stride to 1 itself: whatever strides its argument carries, it calls
    [calc_scalar] once at every element of the block [start, stop), and
    tests [is_in_valid_domain] nowhere.  [calc_in_domain] does not set
    the stride: it visits, once each, the lattice points of its region
    [begin, end) for the strides of its argument, which are all elements
    of the region when the stride is 1 as its callers pass it; at each
    point visited it tests [is_in_valid_domain] and calls [calc_scalar]
    there iff the test holds. *)
Theorem scalar_paths_spec (b : StencilBundleTempl.t)
    (scratch_var_idx outer inner : Z) (settings : KernelSettings)
    (idxs : ScanIndices) :
  let valid := gen_is_in_valid_domain (StencilBundleTempl._bundle b) in
  let in_domain :=
    StencilBundleTempl.calc_in_domain b scratch_var_idx idxs in
  let dbg :=
    StencilBundleTempl.calc_nano_block_dbg b outer inner settings idxs in
  in_domain =
    Ok tt (concat ((λ pt, IsInValidDomain pt ::
                          if valid pt then [CalcScalar scratch_var_idx pt]
                          else [])
                   <$> lattice_points idxs)) ∧
  (length (begin idxs) = length (end_ idxs) →
   length (begin idxs) = length (stride idxs) →
   (0 < length (begin idxs))%nat →
   (∀ j, (S j < length (begin idxs))%nat → 0 < stride idxs !!! S j) →
   NoDup (lattice_points idxs) ∧
   ∀ pt, pt ∈ lattice_points idxs ↔ in_lattice idxs pt) ∧
  (tail (stride idxs) = (λ _, 1) <$> tail (begin idxs) →
   lattice_points idxs = region_points (begin idxs) (end_ idxs)) ∧
  (length (stride idxs) = length (start idxs) →
   dbg = Ok tt (CalcScalar outer
                <$> region_points (start idxs) (stop idxs))) ∧
  Forall scalar_event (trace in_domain) ∧ Forall scalar_event (trace dbg) ∧
  (∀ bgn en, length bgn = length en → (0 < length bgn)%nat →
     NoDup (region_points bgn en) ∧
     ∀ pt, pt ∈ region_points bgn en ↔ in_region bgn en pt).
Proof.
  intros valid in_domain dbg.
  assert (H1 := calc_in_domain_lattice b scratch_var_idx idxs).
  fold in_domain valid in H1.
  split; [exact H1|].
  split; [apply lattice_points_spec|].
  split.
  { intros Hstride. unfold lattice_points, region_points.
    rewrite Hstride. reflexivity. }
  split; [apply calc_nano_block_dbg_run|].
  split; [|split].
  - rewrite H1. cbn [trace].
    apply Forall_concat, Forall_fmap, Forall_forall. intros pt _. cbn.
    destruct (valid pt); repeat constructor.
  - destruct (calc_nano_block_dbg_scalar b outer inner settings idxs)
      as [pts Hpts].
    fold dbg in Hpts. rewrite Hpts. cbn [trace].
    apply Forall_fmap, Forall_forall. intros pt _. exact I.
  - apply region_points_spec.
Qed.

Lemma scalar_paths_spec_witness :
  StencilBundleTempl.calc_in_domain one_dim_bundle 0 (one_dim_block 0 2)
  = Ok tt [IsInValidDomain [0; 0]; CalcScalar 0 [0; 0];
           IsInValidDomain [0; 1]; CalcScalar 0 [0; 1]] ∧
  StencilBundleTempl.calc_nano_block_dbg one_dim_bundle 0 0 one_dim_settings
    (with_stride [1; 8] (one_dim_block 0 2))
  = Ok tt [CalcScalar 0 [0; 0]; CalcScalar 0 [0; 1]].
Proof.
  destruct (scalar_paths_spec one_dim_bundle 0 0 0 one_dim_settings
              (one_dim_block 0 2)) as (H1 & _).
  destruct (scalar_paths_spec one_dim_bundle 0 0 0 one_dim_settings
              (with_stride [1; 8] (one_dim_block 0 2)))
    as (_ & _ & _ & H2 & _).
  split; [exact H1 | exact (H2 eq_refl)].
Defined.

(** ** The boundary parts *)

Lemma forallb_snoc {A : Type} (c : A → bool) (l : list A) (x : A) :
  forallb c (l ++ [x]) = forallb c l && c x.
Proof. rewrite forallb_app. cbn. rewrite andb_true_r. reflexivity. Qed.

(** The loop over the domain dims computes the part dim by dim. *)
Lemma calc_part_spec (n : nat) (st : NanoBlockVars)
    (nfc nfv nov : ScanIndices) (cdims lr : bit_mask_t) :
  StencilBundleTempl.calc_part n st nfc nfv nov cdims lr =
  part_spec n st nfc nfv nov cdims lr.
Proof.
  unfold StencilBundleTempl.calc_part.
  induction n as [|n IH].
  - destruct nfc, nfv. reflexivity.
  - rewrite DOMAIN_VAR_LOOP_S, IH. clear IH.
    unfold part_spec, part_list, StencilBundleTempl.part_dim.
    rewrite !seq_S, !foldl_app, !forallb_snoc. cbn [foldl Nat.add nsel].
    unfold fv_dim_needed, pv_dim_needed, and_dim_mask, side_of.
    cbn [fv_part pv_part fv_needed pv_needed pv_mask nsel rank_of].
    destruct (is_bit_set cdims n) eqn:Hsel.
    + destruct (is_bit_set lr (rank_of cdims n)) eqn:Hlr; cbn [negb].
      * f_equal; try reflexivity; try lia;
          match goal with
          | |- context [negb (is_bit_set ?m n)] =>
              destruct (is_bit_set m n); cbn [negb];
              rewrite ?andb_true_r, ?andb_false_r; reflexivity
          end.
      * f_equal; try reflexivity; try lia;
          match goal with
          | |- context [negb (is_bit_set ?m n)] =>
              destruct (is_bit_set m n); cbn [negb];
              rewrite ?andb_true_r, ?andb_false_r; reflexivity
          end.
    + rewrite !andb_true_r, Nat.add_0_r.
      destruct nfc, nfv. reflexivity.
Qed.

Lemma part_list_lookup (cdims lr : bit_mask_t) (lv rv : nat → Z)
    (l0 : Indices) (n j : nat) :
  (S n ≤ length l0)%nat → (j < n)%nat →
  part_list cdims lr lv rv l0 n !!! S j =
  match side_of cdims lr j with
  | NotSelected => l0 !!! S j
  | Left => lv j
  | Right => rv j
  end.
Proof.
  unfold part_list. intros Hlen Hj.
  assert (Hlength : ∀ m,
    length (foldl (λ l j,
              match side_of cdims lr j with
              | NotSelected => l
              | Left => <[(1 + j)%nat := lv j]> l
              | Right => <[(1 + j)%nat := rv j]> l
              end) l0 (seq 0 m)) = length l0).
  { induction m as [|m IH]; [reflexivity|].
    rewrite seq_S, foldl_app. cbn [foldl].
    destruct (side_of _ _ _); rewrite ?length_insert; exact IH. }
  assert (Hgen : ∀ m k, (S m ≤ length l0)%nat →
    foldl (λ l j,
             match side_of cdims lr j with
             | NotSelected => l
             | Left => <[(1 + j)%nat := lv j]> l
             | Right => <[(1 + j)%nat := rv j]> l
             end) l0 (seq 0 m) !!! S k =
    if bool_decide (k < m)%nat
    then match side_of cdims lr k with
         | NotSelected => l0 !!! S k
         | Left => lv k
         | Right => rv k
         end
    else l0 !!! S k).
  { induction m as [|m IH]; intros k Hm; [reflexivity|].
    rewrite seq_S, foldl_app. cbn [foldl Nat.add].
    specialize (IH k ltac:(lia)).
    destruct (decide (k = m)) as [->|Hne].
    - rewrite bool_decide_eq_true_2 by lia.
      rewrite bool_decide_eq_false_2 in IH by lia.
      destruct (side_of cdims lr m); [exact IH| |];
        apply list_lookup_total_insert_eq; rewrite Hlength; lia.
    - assert (Hrec :
        foldl (λ l j,
                 match side_of cdims lr j with
                 | NotSelected => l
                 | Left => <[(1 + j)%nat := lv j]> l
                 | Right => <[(1 + j)%nat := rv j]> l
                 end) l0 (seq 0 m) !!! S k =
        if bool_decide (k < S m)%nat
        then match side_of cdims lr k with
             | NotSelected => l0 !!! S k
             | Left => lv k
             | Right => rv k
             end
        else l0 !!! S k).
      { rewrite IH. repeat case_bool_decide; try lia; reflexivity. }
      destruct (side_of cdims lr m);
        rewrite ?list_lookup_total_insert_ne by lia; exact Hrec. }
  rewrite Hgen by lia. rewrite bool_decide_eq_true_2 by lia. reflexivity.
Qed.

Lemma and_dim_mask_testbit (st : NanoBlockVars) (cdims lr : bit_mask_t)
    (n : nat) (t : Z) :
  Z.testbit (foldl (and_dim_mask st cdims lr) all_ones (seq 0 n)) t =
  Z.testbit all_ones t &&
  forallb (λ j, match side_of cdims lr j with
                | NotSelected => true
                | Left => Z.testbit (to_bit_mask (peel_masks st !!! j)) t
                | Right => Z.testbit (to_bit_mask (rem_masks st !!! j)) t
                end) (seq 0 n).
Proof.
  induction n as [|n IH]; [cbn; rewrite andb_true_r; reflexivity|].
  rewrite seq_S, foldl_app, forallb_snoc. cbn [foldl Nat.add].
  unfold and_dim_mask at 1.
  destruct (side_of cdims lr n); rewrite ?Z.land_spec, IH;
    rewrite ?andb_true_r, ?andb_assoc; reflexivity.
Qed.

Lemma forallb_false_iff (c : nat → bool) (n : nat) :
  forallb c (seq 0 n) = false ↔ ∃ j, (j < n)%nat ∧ c j = false.
Proof.
  split.
  - intros Hf. induction n as [|n IH]; [discriminate|].
    rewrite seq_S, forallb_snoc in Hf. cbn in Hf.
    apply andb_false_iff in Hf as [Hf|Hf].
    + destruct (IH Hf) as (j & Hj & Hc). exists j. split; [lia | exact Hc].
    + exists n. split; [lia | exact Hf].
  - intros (j & Hj & Hc). apply not_true_is_false. intros Hall.
    rewrite (forallb_seq_lookup c n j Hall Hj) in Hc. discriminate.
Qed.

(** Ranges, flags and mask of a part, dim by dim. *)
Lemma part_ranges (n : nat) (st : NanoBlockVars)
    (nfc nfv nov : ScanIndices) (cdims lr : bit_mask_t) (j : nat) :
  (S n ≤ length (begin nfc))%nat → (S n ≤ length (end_ nfc))%nat →
  (S n ≤ length (begin nfv))%nat → (S n ≤ length (end_ nfv))%nat →
  (j < n)%nat →
  let p := StencilBundleTempl.calc_part n st nfc nfv nov cdims lr in
  match side_of cdims lr j with
  | NotSelected =>
      range_at (fv_part p) (S j) = range_at nfc (S j) ∧
      range_at (pv_part p) (S j) = range_at nfv (S j)
  | Left =>
      range_at (fv_part p) (S j) = (begin nfv !!! S j, begin nfc !!! S j) ∧
      range_at (pv_part p) (S j) = (begin nov !!! S j, begin nfv !!! S j)
  | Right =>
      range_at (fv_part p) (S j) = (end_ nfc !!! S j, end_ nfv !!! S j) ∧
      range_at (pv_part p) (S j) = (end_ nfv !!! S j, end_ nov !!! S j)
  end.
Proof.
  intros H1 H2 H3 H4 Hj p. subst p. rewrite calc_part_spec.
  unfold range_at, part_spec.
  cbn [fv_part pv_part begin end_ with_begin with_end].
  rewrite !part_list_lookup by assumption.
  destruct (side_of cdims lr j); split; reflexivity.
Qed.

(** C5, as stated, fails: in a non-selected dim the partial-vector region
    has the bounds of the full-vector index set, not those of the
    full-cluster one.  For the nano-block [1, 32) x [4, 32) the left part
    of dim x alone is needed with partial vectors, and in dim y its region
    is the vectors [1, 8) while the full clusters are the vectors
    [2, 8). *)
Lemma boundary_parts_counterexample :
  ∃ st nfc nfv nov,
    StencilBundleTempl.nano_block_vars true two_dim_bundle two_dim_settings
      (two_dim_block 1 32 4 32) = Ok st [] ∧
    StencilBundleTempl.normalize_scan_indices true two_dim_bundle
      (sb_fcidxs st) = Ok nfc [] ∧
    StencilBundleTempl.normalize_scan_indices true two_dim_bundle
      (sb_fvidxs st) = Ok nfv [] ∧
    StencilBundleTempl.normalize_scan_indices true two_dim_bundle
      (sb_ovidxs st) = Ok nov [] ∧
    let cdims := n_choose_k_set 2 1 0 in
    let p := StencilBundleTempl.calc_part 2 st nfc nfv nov cdims 0 in
    is_bit_set cdims 0 = true ∧ is_bit_set cdims 1 = false ∧
    pv_needed p = true ∧
    range_at (pv_part p) 2 = (1, 8) ∧ range_at nfc 2 = (2, 8).
Proof.
  eexists _, _, _, _.
  split; [vm_compute; reflexivity|].
  split; [vm_compute; reflexivity|].
  split; [vm_compute; reflexivity|].
  split; [vm_compute; reflexivity|].
  vm_compute. repeat split; reflexivity.
Qed.

(** C5, amended.  The boundary parts are enumerated over k = 1..nddims,
    every combo of k domain dims and every left-right sequence of length
    k.  In a non-selected dim the full-vector region of a part has the
    bounds of [norm_fcidxs] and its partial-vector region those of
    [norm_fvidxs].  In a selected dim the full-vector region spans
    [norm_fvidxs.begin, norm_fcidxs.begin) on the left and
    [norm_fcidxs.end, norm_fvidxs.end) on the right, the partial-vector
    region [norm_ovidxs.begin, norm_fvidxs.begin) on the left and
    [norm_fvidxs.end, norm_ovidxs.end) on the right.  The full-vector call
    is skipped iff some selected dim lacks the full-vec flag of its side,
    the partial-vector call iff some selected dim lacks the partial-vec
    flag of its side; the mask of the partial-vector call is all-ones ANDed
    with the peel mask (left) or the rem mask (right) of each selected
    dim, and the full-vector call has the all-ones mask. *)
Theorem boundary_parts_spec (ctx : StencilContext) (outer inner : Z)
    (st : NanoBlockVars) (nfc nfv nov : ScanIndices)
    (Hcpts : CPTS (dims ctx) ≠ 1)
    (Hfc : (S (nddims ctx) ≤ length (begin nfc) ∧
            S (nddims ctx) ≤ length (end_ nfc))%nat)
    (Hfv : (S (nddims ctx) ≤ length (begin nfv) ∧
            S (nddims ctx) ≤ length (end_ nfv))%nat) :
  let n := nddims ctx in
  let part := StencilBundleTempl.calc_part n st nfc nfv nov in
  StencilBundleTempl.boundary_parts ctx outer inner st nfc nfv nov =
  Ok tt (concat ((λ k,
           concat ((λ r,
             concat ((λ lr,
               part_calls ctx outer inner (part (n_choose_k_set n k r) lr))
               <$> seqZ 0 (Z.shiftl 1 (Z.of_nat k))))
             <$> seq 0 (n_choose_k n k)))
           <$> seq 1 n)) ∧
  ∀ cdims lr,
    let p := part cdims lr in
    (∀ j, (j < n)%nat →
       match side_of cdims lr j with
       | NotSelected =>
           range_at (fv_part p) (S j) = range_at nfc (S j) ∧
           range_at (pv_part p) (S j) = range_at nfv (S j)
       | Left =>
           range_at (fv_part p) (S j)
           = (begin nfv !!! S j, begin nfc !!! S j) ∧
           range_at (pv_part p) (S j)
           = (begin nov !!! S j, begin nfv !!! S j)
       | Right =>
           range_at (fv_part p) (S j)
           = (end_ nfc !!! S j, end_ nfv !!! S j) ∧
           range_at (pv_part p) (S j)
           = (end_ nfv !!! S j, end_ nov !!! S j)
       end) ∧
    (fv_needed p = false ↔
     ∃ j, (j < n)%nat ∧
          (side_of cdims lr j = Left ∧
           is_bit_set (do_left_fvecs st) j = false ∨
           side_of cdims lr j = Right ∧
           is_bit_set (do_right_fvecs st) j = false)) ∧
    (pv_needed p = false ↔
     ∃ j, (j < n)%nat ∧
          (side_of cdims lr j = Left ∧
           is_bit_set (do_left_pvecs st) j = false ∨
           side_of cdims lr j = Right ∧
           is_bit_set (do_right_pvecs st) j = false)) ∧
    pv_mask p = foldl (and_dim_mask st cdims lr) all_ones (seq 0 n) ∧
    part_calls ctx outer inner p =
      (if fv_needed p
       then [CalcVectors outer inner (thread_limit ctx) (fv_part p) all_ones]
       else []) ++
      (if pv_needed p
       then [CalcVectors outer inner (thread_limit ctx) (pv_part p)
                         (pv_mask p)]
       else []).
Proof.
  intros n part. split; [apply boundary_parts_run, Hcpts|].
  intros cdims lr p. destruct Hfc as [Hfc1 Hfc2]. destruct Hfv as [Hfv1 Hfv2].
  split; [intros j Hj; apply part_ranges; assumption|].
  subst p part. rewrite calc_part_spec.
  cbn [fv_needed pv_needed pv_mask part_spec].
  split; [|split; [|split; reflexivity]].
  - rewrite forallb_false_iff. unfold fv_dim_needed.
    split; intros (j & Hj & Hc); exists j; (split; [exact Hj|]).
    + destruct (side_of cdims lr j); [discriminate | left | right]; auto.
    + destruct Hc as [[-> Hc]|[-> Hc]]; exact Hc.
  - rewrite forallb_false_iff. unfold pv_dim_needed.
    split; intros (j & Hj & Hc); exists j; (split; [exact Hj|]).
    + destruct (side_of cdims lr j); [discriminate | left | right]; auto.
    + destruct Hc as [[-> Hc]|[-> Hc]]; exact Hc.
Qed.

Lemma boundary_parts_spec_witness :
  ∃ st nfc nfv nov,
    StencilBundleTempl.nano_block_vars true two_dim_bundle two_dim_settings
      (two_dim_block 1 32 4 32) = Ok st [] ∧
    StencilBundleTempl.normalize_scan_indices true two_dim_bundle
      (sb_fcidxs st) = Ok nfc [] ∧
    StencilBundleTempl.normalize_scan_indices true two_dim_bundle
      (sb_fvidxs st) = Ok nfv [] ∧
    StencilBundleTempl.normalize_scan_indices true two_dim_bundle
      (sb_ovidxs st) = Ok nov [] ∧
    let p := StencilBundleTempl.calc_part 2 st nfc nfv nov
               (n_choose_k_set 2 1 0) 0 in
    range_at (fv_part p) 2 = range_at nfc 2 ∧
    range_at (pv_part p) 2 = range_at nfv 2.
Proof.
  eexists _, _, _, _.
  split; [vm_compute; reflexivity|].
  split; [vm_compute; reflexivity|].
  split; [vm_compute; reflexivity|].
  split; [vm_compute; reflexivity|].
  cbn zeta.
  match goal with
  | |- context [StencilBundleTempl.calc_part 2 ?st ?nfc ?nfv ?nov _ _] =>
      destruct (boundary_parts_spec two_dim_context 0 0 st nfc nfv nov
                  ltac:(vm_compute; discriminate)
                  ltac:(cbn; lia) ltac:(cbn; lia)) as [_ Hparts]
  end.
  destruct (Hparts (n_choose_k_set 2 1 0) 0) as (Hranges & _).
  apply (Hranges 1%nat ltac:(cbn; lia)).
Defined.

(** ** Sums and products over lists *)

Lemma sumZ_app (l k : list Z) : sumZ (l ++ k) = sumZ l + sumZ k.
Proof. unfold sumZ. induction l as [|x l IH]; cbn; [reflexivity|]. lia. Qed.

Lemma sumZ_concat (ls : list (list Z)) : sumZ (concat ls) = sumZ (sumZ <$> ls).
Proof.
  induction ls as [|l ls IH]; [reflexivity|].
  cbn [concat fmap list_fmap]. rewrite sumZ_app, IH. reflexivity.
Qed.

Lemma sumZ_linear {A : Type} (a b : Z) (f g : A → Z) (l : list A) :
  sumZ ((λ x, a * f x + b * g x) <$> l) =
  a * sumZ (f <$> l) + b * sumZ (g <$> l).
Proof.
  unfold sumZ. induction l as [|x l IH]; cbn; [lia|]. rewrite IH. lia.
Qed.

Lemma sumZ_scale {A : Type} (a : Z) (f : A → Z) (l : list A) :
  sumZ ((λ x, f x * a) <$> l) = sumZ (f <$> l) * a.
Proof.
  unfold sumZ. induction l as [|x l IH]; cbn; [lia|]. rewrite IH. lia.
Qed.

Lemma sumZ_plus {A : Type} (f g : A → Z) (l : list A) :
  sumZ ((λ x, f x + g x) <$> l) = sumZ (f <$> l) + sumZ (g <$> l).
Proof.
  unfold sumZ. induction l as [|x l IH]; cbn; [lia|]. rewrite IH. lia.
Qed.

Lemma sumZ_ext {A : Type} (f g : A → Z) (l : list A) :
  (∀ x, x ∈ l → f x = g x) → sumZ (f <$> l) = sumZ (g <$> l).
Proof.
  intros Hfg. induction l as [|x l IH]; [reflexivity|].
  cbn. rewrite (Hfg x) by constructor.
  unfold sumZ in IH. rewrite IH; [reflexivity|].
  intros y Hy. apply Hfg. constructor. exact Hy.
Qed.

Lemma product_snoc (l : Indices) (x : Z) : product (l ++ [x]) = product l * x.
Proof. unfold product. induction l as [|y l IH]; cbn; [lia|]. rewrite IH. lia. Qed.

Lemma product_ext (f g : nat → Z) (l : list nat) :
  (∀ x, x ∈ l → f x = g x) → product (f <$> l) = product (g <$> l).
Proof.
  intros Hfg. induction l as [|x l IH]; [reflexivity|].
  cbn. rewrite (Hfg x) by constructor.
  unfold product in IH. rewrite IH; [reflexivity|].
  intros y Hy. apply Hfg. constructor. exact Hy.
Qed.

Lemma b2z_forallb (c : nat → bool) (l : list nat) :
  b2z (forallb c l) = product ((λ j, b2z (c j)) <$> l).
Proof.
  induction l as [|x l IH]; [reflexivity|].
  cbn. unfold product in IH. rewrite <- IH.
  destruct (c x), (forallb c l); reflexivity.
Qed.

(** ** Bits of left-right sequences and of combos *)

Lemma is_bit_set_small (lr : Z) (k i : nat) :
  0 ≤ lr < 2 ^ Z.of_nat k → (k ≤ i)%nat → is_bit_set lr i = false.
Proof.
  intros Hlr Hi. unfold is_bit_set.
  rewrite <- (Z.mod_small lr (2 ^ Z.of_nat k)) by lia.
  apply Z.mod_pow2_bits_high. lia.
Qed.

Lemma is_bit_set_add_pow2 (lr : Z) (k i : nat) :
  0 ≤ lr < 2 ^ Z.of_nat k →
  is_bit_set (2 ^ Z.of_nat k + lr) i =
  if decide (i = k) then true
  else if decide (i < k)%nat then is_bit_set lr i else false.
Proof.
  intros Hlr. unfold is_bit_set.
  assert (Hpow : 0 < 2 ^ Z.of_nat k) by (apply Z.pow_pos_nonneg; lia).
  destruct (decide (i = k)) as [->|Hne].
  - apply Z.testbit_true; [lia|].
    replace (2 ^ Z.of_nat k + lr) with (lr + 1 * 2 ^ Z.of_nat k) by lia.
    rewrite Z.div_add by lia. rewrite Z.div_small by lia. reflexivity.
  - destruct (decide (i < k)%nat) as [Hlt|Hge].
    + rewrite <- (Z.mod_pow2_bits_low (2 ^ Z.of_nat k + lr) (Z.of_nat k))
        by lia.
      replace (2 ^ Z.of_nat k + lr) with (lr + 1 * 2 ^ Z.of_nat k) by lia.
      rewrite Z.mod_add by lia. rewrite Z.mod_small by lia. reflexivity.
    + assert (Hik : (S k ≤ i)%nat) by lia.
      rewrite <- (Z.mod_small (2 ^ Z.of_nat k + lr) (2 ^ Z.of_nat (S k))).
      * apply Z.mod_pow2_bits_high. lia.
      * rewrite Nat2Z.inj_succ, Z.pow_succ_r by lia. lia.
Qed.

Lemma rank_of_ext (cd cd' : Z) (n : nat) :
  (∀ i, (i < n)%nat → is_bit_set cd i = is_bit_set cd' i) →
  rank_of cd n = rank_of cd' n.
Proof.
  induction n as [|n IH]; intros Hbits; [reflexivity|].
  cbn. rewrite IH by (intros i Hi; apply Hbits; lia).
  rewrite (Hbits n) by lia. reflexivity.
Qed.

Lemma rank_of_mono (cd : Z) (j n : nat) :
  (j ≤ n)%nat → (rank_of cd j ≤ rank_of cd n)%nat.
Proof. induction 1 as [|n Hle IH]; [lia|]. cbn. lia. Qed.

Lemma rank_of_selected (cd : Z) (j n : nat) :
  (j < n)%nat → is_bit_set cd j = true → (rank_of cd j < rank_of cd n)%nat.
Proof.
  intros Hj Hb. pose proof (rank_of_mono cd (S j) n Hj) as Hm.
  cbn in Hm. rewrite Hb in Hm. lia.
Qed.

Lemma rank_of_zero (n : nat) : rank_of 0 n = 0%nat.
Proof.
  induction n as [|n IH]; [reflexivity|]. cbn. rewrite IH.
  unfold is_bit_set. rewrite Z.testbit_0_l. reflexivity.
Qed.

(** A combo of [k] among [n] dims has [k] bits, all below [n]. *)
Lemma combos_bits (n k : nat) (cd : Z) :
  cd ∈ combos n k →
  (∀ j, (n ≤ j)%nat → is_bit_set cd j = false) ∧ rank_of cd n = k.
Proof.
  revert k cd. induction n as [|n IH]; intros [|k] cd Hin.
  - cbn in Hin. apply list_elem_of_singleton in Hin as ->.
    split; [intros j _; unfold is_bit_set; apply Z.testbit_0_l | reflexivity].
  - cbn in Hin. apply elem_of_nil in Hin. contradiction.
  - cbn in Hin. apply list_elem_of_singleton in Hin as ->.
    split; [intros j _; unfold is_bit_set; apply Z.testbit_0_l|].
    apply rank_of_zero.
  - cbn [combos] in Hin. apply elem_of_app in Hin as [Hin|Hin].
    + destruct (IH (S k) cd Hin) as [Hhigh Hrank]. split.
      * intros j Hj. apply Hhigh. lia.
      * cbn. rewrite Hrank, (Hhigh n) by lia. lia.
    + apply list_elem_of_fmap in Hin as (cd' & -> & Hin).
      destruct (IH k cd' Hin) as [Hhigh Hrank]. split.
      * intros j Hj. rewrite is_bit_set_set_bit, Hhigh by lia.
        rewrite bool_decide_eq_false_2 by lia. reflexivity.
      * cbn. rewrite is_bit_set_set_bit, bool_decide_eq_true_2 by reflexivity.
        rewrite orb_true_r.
        rewrite (rank_of_ext (set_bit cd' n) cd' n), Hrank; [lia|].
        intros i Hi. rewrite is_bit_set_set_bit.
        rewrite bool_decide_eq_false_2 by lia. apply orb_false_r.
Qed.

Lemma combos_empty (n k : nat) : (n < k)%nat → combos n k = [].
Proof.
  revert k. induction n as [|n IH]; intros [|k] Hk; try lia; [reflexivity|].
  cbn. rewrite !IH by lia. reflexivity.
Qed.

Lemma length_combos (n k : nat) : length (combos n k) = n_choose_k n k.
Proof.
  revert k. induction n as [|n IH]; intros [|k]; try reflexivity.
  cbn. rewrite length_app, length_fmap, !IH. reflexivity.
Qed.

Lemma fmap_nth_seq {A : Type} (l : list A) (d : A) :
  (λ r, nth r l d) <$> seq 0 (length l) = l.
Proof.
  induction l as [|x l IH]; [reflexivity|].
  cbn [length seq fmap list_fmap nth]. f_equal.
  rewrite <- seq_shift, <- list_fmap_compose. exact IH.
Qed.

(** ** Summing a product over all boundary parts *)

Section PartSums.
Variables fN fL fR : nat → Z.

Lemma part_value_S (n : nat) (cd lr : Z) :
  part_value fN fL fR (S n) cd lr =
  part_value fN fL fR n cd lr * side_value fN fL fR cd lr n.
Proof.
  unfold part_value. rewrite seq_S, fmap_app. cbn. apply product_snoc.
Qed.

Lemma combo_value_S (n : nat) (cd : Z) :
  combo_value fN fL fR (S n) cd =
  combo_value fN fL fR n cd *
  (if is_bit_set cd n then fL n + fR n else fN n).
Proof.
  unfold combo_value. rewrite seq_S, fmap_app. cbn. apply product_snoc.
Qed.

Lemma combo_value_ext (n : nat) (cd cd' : Z) :
  (∀ i, (i < n)%nat → is_bit_set cd i = is_bit_set cd' i) →
  combo_value fN fL fR n cd = combo_value fN fL fR n cd'.
Proof.
  intros Hbits. unfold combo_value. apply product_ext.
  intros j Hj. apply elem_of_seq in Hj. rewrite (Hbits j) by lia.
  reflexivity.
Qed.

(** Only the first [rank_of cd n] bits of a left-right sequence matter. *)
Lemma part_value_low_bits (n : nat) (cd lr lr' : Z) :
  (∀ i, (i < rank_of cd n)%nat → is_bit_set lr i = is_bit_set lr' i) →
  part_value fN fL fR n cd lr = part_value fN fL fR n cd lr'.
Proof.
  intros Hbits. unfold part_value. apply product_ext.
  intros j Hj. apply elem_of_seq in Hj.
  unfold side_value, side_of.
  destruct (is_bit_set cd j) eqn:Hb; [|reflexivity].
  rewrite (Hbits (rank_of cd j)); [reflexivity|].
  apply rank_of_selected; [lia | exact Hb].
Qed.

(** The parts of one combo: each selected dim counts for its two sides. *)
Lemma part_values_sum (n : nat) (cd : Z) :
  sumZ (part_value fN fL fR n cd
        <$> seqZ 0 (2 ^ Z.of_nat (rank_of cd n))) =
  combo_value fN fL fR n cd.
Proof.
  induction n as [|n IH]; [reflexivity|].
  rewrite combo_value_S. cbn [rank_of].
  destruct (is_bit_set cd n) eqn:Hb.
  - replace (rank_of cd n + 1)%nat with (S (rank_of cd n)) by lia.
    set (k := rank_of cd n) in *.
    assert (Hpow : 0 < 2 ^ Z.of_nat k) by (apply Z.pow_pos_nonneg; lia).
    rewrite Nat2Z.inj_succ, Z.pow_succ_r by lia.
    replace (2 * 2 ^ Z.of_nat k) with (2 ^ Z.of_nat k + 2 ^ Z.of_nat k)
      by lia.
    rewrite seqZ_app by lia. rewrite fmap_app, sumZ_app.
    rewrite Z.add_0_l.
    replace (seqZ (2 ^ Z.of_nat k) (2 ^ Z.of_nat k))
      with (Z.add (2 ^ Z.of_nat k) <$> seqZ 0 (2 ^ Z.of_nat k))
      by (rewrite fmap_add_seqZ; f_equal; lia).
    rewrite <- list_fmap_compose.
    rewrite (sumZ_ext _ (λ lr, part_value fN fL fR n cd lr * fL n)).
    + rewrite (sumZ_ext (_ ∘ _)
                 (λ lr, part_value fN fL fR n cd lr * fR n)).
      * rewrite !sumZ_scale, IH. lia.
      * intros lr Hlr. apply elem_of_seqZ in Hlr. unfold compose.
        rewrite part_value_S. f_equal.
        -- apply part_value_low_bits. intros i Hi.
           rewrite is_bit_set_add_pow2 by lia.
           destruct (decide (i = k)); [lia|].
           destruct (decide (i < k)%nat); [reflexivity|]. fold k in Hi. lia.
        -- unfold side_value, side_of. rewrite Hb. fold k.
           rewrite is_bit_set_add_pow2 by lia.
           destruct (decide (k = k)); [reflexivity|congruence].
    + intros lr Hlr. apply elem_of_seqZ in Hlr.
      rewrite part_value_S. f_equal.
      unfold side_value, side_of. rewrite Hb. fold k.
      rewrite (is_bit_set_small lr k k) by lia. reflexivity.
  - rewrite Nat.add_0_r.
    rewrite (sumZ_ext _ (λ lr, part_value fN fL fR n cd lr * fN n)).
    + rewrite sumZ_scale, IH. reflexivity.
    + intros lr _. rewrite part_value_S. f_equal.
      unfold side_value, side_of. rewrite Hb. reflexivity.
Qed.

(** The combos of [S k] among [S n] dims: dim [n] is not selected, or is. *)
Lemma combos_sum_step (n k : nat) :
  sumZ (combo_value fN fL fR (S n) <$> combos (S n) (S k)) =
  fN n * sumZ (combo_value fN fL fR n <$> combos n (S k)) +
  (fL n + fR n) * sumZ (combo_value fN fL fR n <$> combos n k).
Proof.
  cbn [combos]. rewrite fmap_app, sumZ_app, <- list_fmap_compose.
  rewrite (sumZ_ext _ (λ cd, combo_value fN fL fR n cd * fN n)).
  - rewrite (sumZ_ext (_ ∘ _)
               (λ cd, combo_value fN fL fR n cd * (fL n + fR n))).
    + rewrite !sumZ_scale. lia.
    + intros cd Hcd. unfold compose. rewrite combo_value_S.
      rewrite is_bit_set_set_bit, bool_decide_eq_true_2 by reflexivity.
      rewrite orb_true_r. f_equal. apply combo_value_ext.
      intros i Hi. rewrite is_bit_set_set_bit.
      rewrite bool_decide_eq_false_2 by lia. apply orb_false_r.
  - intros cd Hcd. rewrite combo_value_S.
    destruct (combos_bits _ _ _ Hcd) as [Hhigh _].
    rewrite (Hhigh n) by lia. reflexivity.
Qed.

Lemma combos_sum_zero (n : nat) :
  sumZ (combo_value fN fL fR n <$> combos n 0) = product (fN <$> seq 0 n).
Proof.
  replace (combos n 0) with [0] by (destruct n; reflexivity).
  cbn. rewrite Z.add_0_r. unfold combo_value. apply product_ext.
  intros j _. unfold is_bit_set. rewrite Z.testbit_0_l. reflexivity.
Qed.

Lemma sumZ_seq_S (f : nat → Z) (n : nat) :
  sumZ (f <$> seq 0 (S n)) = f 0%nat + sumZ ((λ k, f (S k)) <$> seq 0 n).
Proof.
  cbn [seq fmap list_fmap sumZ foldr]. f_equal.
  rewrite <- seq_shift.
  change (map S (seq 0 n)) with (S <$> seq 0 n).
  rewrite <- list_fmap_compose. reflexivity.
Qed.

(** All combos of all sizes: each dim is not selected, left or right. *)
Lemma all_combos_sum (n : nat) :
  sumZ ((λ k, sumZ (combo_value fN fL fR n <$> combos n k))
        <$> seq 0 (S n)) =
  product ((λ j, fN j + fL j + fR j) <$> seq 0 n).
Proof.
  induction n as [|n IH]; [reflexivity|].
  rewrite sumZ_seq_S.
  rewrite (sumZ_ext _ _ _ (λ k _, combos_sum_step n k)).
  rewrite (sumZ_linear (fN n) (fL n + fR n)
             (λ k, sumZ (combo_value fN fL fR n <$> combos n (S k)))
             (λ k, sumZ (combo_value fN fL fR n <$> combos n k))).
  rewrite IH.
  assert (Htop : sumZ ((λ k, sumZ (combo_value fN fL fR n
                                    <$> combos n (S k)))
                       <$> seq 0 (S n)) +
                 sumZ (combo_value fN fL fR n <$> combos n 0) =
                 product ((λ j, fN j + fL j + fR j) <$> seq 0 n)).
  { rewrite <- IH.
    pose proof (sumZ_seq_S
      (λ k, sumZ (combo_value fN fL fR n <$> combos n k)) (S n)) as Hs.
    cbn beta in Hs. rewrite Z.add_comm, <- Hs.
    rewrite (seq_S (S n)), fmap_app, sumZ_app. cbn [fmap list_fmap].
    rewrite Nat.add_0_l, (combos_empty n (S n)) by lia. cbn. lia. }
  rewrite (combos_sum_zero (S n)), combos_sum_zero in *.
  clear IH. set (X := sumZ (_ <$> seq 0 (S n))) in *. clearbody X.
  rewrite seq_S, !fmap_app. cbn [fmap list_fmap]. rewrite !product_snoc.
  rewrite Nat.add_0_l. nia.
Qed.

(** The enumeration of the source: all sizes from 1, the combos by their
    number, and the left-right sequences as integers. *)
Lemma all_parts_sum (n : nat) :
  sumZ ((λ k, sumZ ((λ r, sumZ (part_value fN fL fR n
                                   (n_choose_k_set n k r)
                                 <$> seqZ 0 (Z.shiftl 1 (Z.of_nat k))))
                    <$> seq 0 (n_choose_k n k)))
        <$> seq 1 n) =
  product ((λ j, fN j + fL j + fR j) <$> seq 0 n) - product (fN <$> seq 0 n).
Proof.
  rewrite <- all_combos_sum, sumZ_seq_S, combos_sum_zero.
  rewrite <- seq_shift. change (map S (seq 0 n)) with (S <$> seq 0 n).
  rewrite <- list_fmap_compose.
  match goal with |- ?a = ?p + ?b - ?p => cut (a = b); [lia|] end.
  apply sumZ_ext. intros k _. unfold compose.
  rewrite <- length_combos.
  rewrite <- (fmap_nth_seq (combos n (S k)) 0) at 2.
  rewrite <- list_fmap_compose.
  apply sumZ_ext. intros r Hr. apply elem_of_seq in Hr. unfold compose.
  unfold n_choose_k_set.
  assert (Hcd : nth r (combos n (S k)) 0 ∈ combos n (S k)).
  { apply list_elem_of_In, nth_In. lia. }
  destruct (combos_bits _ _ _ Hcd) as [_ Hrank].
  rewrite <- part_values_sum, Hrank.
  rewrite Z.shiftl_1_l. reflexivity.
Qed.

End PartSums.

(** ** The lane of an element *)

Lemma mod_in_space (xs sizes : Indices) :
  length xs = length sizes → Forall (λ s, 0 < s) sizes →
  in_space sizes (zip_with imod_flr xs sizes).
Proof.
  intros Hlen Hpos. revert xs Hlen.
  induction Hpos as [|s sizes Hs Hpos IH]; intros [|x xs] Hlen;
    try discriminate.
  - constructor.
  - cbn. constructor.
    + unfold imod_flr. apply Z.mod_pos_bound. exact Hs.
    + apply IH. cbn in Hlen. lia.
Qed.

(** The lane of an element is a lane of the fold, and its offset in each
    dim is the index of the element modulo the fold length. *)
Lemma lane_of_facts (d : Dims) (n : nat) (pt : Indices) :
  dims_ok n d = true → length pt = S n →
  0 ≤ lane_of d pt < product (_fold_pts d) ∧
  ∀ j, (j < n)%nat →
       lane_point d (lane_of d pt) !!! j = (pt !!! S j) mod (_fold_pts d !!! j).
Proof.
  intros Hok Hpt.
  destruct (dims_ok_inv _ _ Hok) as (Hlen & _ & Hsz & Hpos & _ & _).
  destruct pt as [|p0 pt']; [discriminate|]. cbn in Hpt.
  assert (Hsp : in_space (_fold_sizes d)
                  (zip_with imod_flr pt' (_fold_pts d))).
  { rewrite Hsz. apply mod_in_space; [lia | exact Hpos]. }
  unfold lane_point, lane_of. cbn [tail]. split.
  - pose proof (layout_range (is_first_inner d) _ _ Hsp) as Hr.
    rewrite Hsz in Hr at 3. exact Hr.
  - intros j Hj. rewrite unlayout_layout by exact Hsp.
    apply list_lookup_total_correct. rewrite lookup_zip_with.
    rewrite (list_lookup_lookup_total_lt pt' j) by lia.
    rewrite (list_lookup_lookup_total_lt (_fold_pts d) j) by lia.
    reflexivity.
Qed.

Lemma all_ones_testbit (t : Z) : 0 ≤ t < 64 → Z.testbit all_ones t = true.
Proof.
  intros Ht. change all_ones with (Z.ones 64). apply Z.ones_spec_low. lia.
Qed.

(** ** Counting the calls that write an element *)

Lemma count_writes_sum (d : Dims) (n : nat) (tr : list Event) (pt : Indices) :
  Z.of_nat (count_writes d n tr pt) = writes_sum d n tr pt.
Proof.
  unfold count_writes, writes_sum.
  induction tr as [|e tr IH]; [reflexivity|].
  rewrite filter_cons. cbn [fmap list_fmap sumZ foldr].
  unfold sumZ in IH. rewrite <- IH.
  destruct (decide (writes d n e pt = true)) as [Hw|Hw].
  - rewrite Hw. cbn [length b2z]. lia.
  - apply not_true_is_false in Hw. rewrite Hw. cbn [b2z]. lia.
Qed.

Lemma writes_sum_app (d : Dims) (n : nat) (tr tr' : list Event)
    (pt : Indices) :
  writes_sum d n (tr ++ tr') pt = writes_sum d n tr pt + writes_sum d n tr' pt.
Proof. unfold writes_sum. rewrite fmap_app. apply sumZ_app. Qed.

Lemma writes_sum_concat {A : Type} (d : Dims) (n : nat)
    (f : A → list Event) (l : list A) (pt : Indices) :
  writes_sum d n (concat (f <$> l)) pt =
  sumZ ((λ a, writes_sum d n (f a) pt) <$> l).
Proof.
  induction l as [|a l IH]; [reflexivity|].
  cbn [fmap list_fmap concat sumZ foldr].
  rewrite writes_sum_app, IH. reflexivity.
Qed.

Lemma forallb_andb {A : Type} (c c' : A → bool) (l : list A) :
  forallb c l && forallb c' l = forallb (λ a, c a && c' a) l.
Proof.
  induction l as [|a l IH]; [reflexivity|]. cbn. rewrite <- IH.
  destruct (c a), (c' a), (forallb c l); reflexivity.
Qed.

Lemma forallb_ext_seq (c c' : nat → bool) (n : nat) :
  (∀ j, (j < n)%nat → c j = c' j) →
  forallb c (seq 0 n) = forallb c' (seq 0 n).
Proof.
  intros Hcc. induction n as [|n IH]; [reflexivity|].
  rewrite seq_S, !forallb_snoc. cbn [Nat.add].
  rewrite IH by (intros; apply Hcc; lia). rewrite (Hcc n) by lia.
  reflexivity.
Qed.

Lemma product_zero (f : nat → Z) (l : list nat) (j : nat) :
  j ∈ l → f j = 0 → product (f <$> l) = 0.
Proof.
  intros Hin Hf. induction l as [|a l IH]; [inversion Hin|].
  cbn. apply elem_of_cons in Hin as [<-|Hin].
  - rewrite Hf. lia.
  - unfold product in IH. rewrite IH by exact Hin. lia.
Qed.

Lemma existsb_false_seq (c : nat → bool) (n j : nat) :
  existsb c (seq 0 n) = false → (j < n)%nat → c j = false.
Proof.
  intros Hex Hj. destruct (c j) eqn:Hc; [|reflexivity].
  rewrite <- Hex. symmetry. apply existsb_exists. exists j. split; [|exact Hc].
  apply in_seq. lia.
Qed.

(** ** What the calls of the dispatch cover *)

Section Cover.
Variables (b : StencilBundleTempl.t) (settings : KernelSettings)
          (micro_block_idxs : ScanIndices) (outer inner : Z) (pt : Indices).
Let ctx := StencilBundleTempl._context b.
Let n := nddims ctx.
Let d := dims ctx.
Let sb := StencilBundleTempl.nano_block_idxs settings micro_block_idxs.
Let st := loop_state ctx sb n.
Let dr := dim_result ctx sb.
Let nfc := normalized_scan d n (sb_fcidxs st).
Let nfv := normalized_scan d n (sb_fvidxs st).
Let nov := normalized_scan d n (sb_ovidxs st).
Let V (j : nat) := _fold_pts d !!! j.
Let C (j : nat) := _cluster_pts d !!! j.
Let x (j : nat) := pt !!! S j.
Let t := lane_of d pt.

Hypothesis Hok : dims_ok n d = true.
Hypothesis Hblk : block_ok n micro_block_idxs = true.
Hypothesis Hpt : length pt = S n.

(** The share of dim [j] in a full-vector part, in a partial-vector part
    and in the nano-block. *)
Let fN (j : nat) := b2z (fvN (dr j) (V j) (x j)).
Let fL (j : nat) := b2z (fvL (dr j) (V j) (x j)).
Let fR (j : nat) := b2z (fvR (dr j) (V j) (x j)).
Let gN (j : nat) := b2z (pvN (dr j) (V j) (x j)).
Let gL (j : nat) := b2z (pvL (dr j) (V j) (x j) t).
Let gR (j : nat) := b2z (pvR (dr j) (V j) (x j) t).
Let eN (j : nat) := b2z (inE (dr j) (x j)).

Lemma norm_lengths :
  length (begin nfc) = S n ∧ length (end_ nfc) = S n ∧
  length (begin nfv) = S n ∧ length (end_ nfv) = S n ∧
  length (begin nov) = S n ∧ length (end_ nov) = S n.
Proof.
  assert (Hlen : ∀ idxs,
            idxs ∈ [sb_fcidxs st; sb_fvidxs st; sb_ovidxs st] →
            length (normalized d n (begin idxs)) = S n ∧
            length (normalized d n (end_ idxs)) = S n).
  { intros idxs Hin.
    destruct (final_fields b settings micro_block_idxs Hblk idxs)
      as (H1 & H2 & _); [apply elem_of_cons; right; exact Hin|].
    fold ctx n in H1, H2.
    destruct (normalized_fields d n (begin idxs)) as [-> _].
    destruct (normalized_fields d n (end_ idxs)) as [-> _].
    split; assumption. }
  destruct (Hlen (sb_fcidxs st)) as [H1 H2];
    [rewrite !elem_of_cons; tauto|].
  destruct (Hlen (sb_fvidxs st)) as [H3 H4];
    [rewrite !elem_of_cons; tauto|].
  destruct (Hlen (sb_ovidxs st)) as [H5 H6];
    [rewrite !elem_of_cons; tauto|].
  repeat split; assumption.
Qed.

(** The normalized ranges of dim [j]. *)
Lemma norm_ranges (j : nat) :
  (j < n)%nat →
  (begin nfc !!! S j = fcbgn (dr j) / V j ∧
   end_ nfc !!! S j = fcend (dr j) / V j) ∧
  (begin nfv !!! S j = fvbgn (dr j) / V j ∧
   end_ nfv !!! S j = fvend (dr j) / V j) ∧
  (begin nov !!! S j = ovbgn (dr j) / V j ∧
   end_ nov !!! S j = ovend (dr j) / V j).
Proof.
  intros Hj.
  destruct (final_lookups b settings micro_block_idxs Hblk j Hj)
    as (_ & (E1 & E2) & (E3 & E4) & (E5 & E6)).
  fold ctx n sb st dr in E1, E2, E3, E4, E5, E6.
  assert (Hlen : ∀ idxs,
            idxs ∈ [sb_fcidxs st; sb_fvidxs st; sb_ovidxs st] →
            (S n ≤ length (begin idxs))%nat ∧
            (S n ≤ length (end_ idxs))%nat).
  { intros idxs Hin.
    destruct (final_fields b settings micro_block_idxs Hblk idxs)
      as (H1 & H2 & _); [apply elem_of_cons; right; exact Hin|].
    fold ctx n in H1, H2. lia. }
  destruct (Hlen (sb_fcidxs st)) as [H1 H2];
    [rewrite !elem_of_cons; tauto|].
  destruct (Hlen (sb_fvidxs st)) as [H3 H4];
    [rewrite !elem_of_cons; tauto|].
  destruct (Hlen (sb_ovidxs st)) as [H5 H6];
    [rewrite !elem_of_cons; tauto|].
  unfold nfc, nfv, nov, normalized_scan. cbn [begin end_].
  rewrite !normalized_lookup by assumption.
  rewrite E1, E2, E3, E4, E5, E6. repeat split; reflexivity.
Qed.

Lemma lane_facts :
  0 ≤ t < 64 ∧ 0 ≤ t < product (_fold_pts d) ∧
  ∀ j, (j < n)%nat → lane_point d t !!! j = x j mod V j.
Proof.
  destruct (lane_of_facts d n pt Hok Hpt) as [Ht Hl].
  destruct (dims_ok_inv _ _ Hok) as (_ & _ & _ & _ & _ & Hprod).
  fold t in Ht, Hl. repeat split; try lia. exact Hl.
Qed.

(** The flags of dim [j], as the parts read them. *)
Lemma flag_bits (j : nat) :
  (j < n)%nat →
  is_bit_set (do_left_fvecs st) j = do_left_fvec (dr j) ∧
  is_bit_set (do_right_fvecs st) j = do_right_fvec (dr j) ∧
  is_bit_set (do_left_pvecs st) j = do_left_pvec (dr j) ∧
  is_bit_set (do_right_pvecs st) j = do_right_pvec (dr j) ∧
  peel_masks st !!! j = pmask (dr j) ∧ rem_masks st !!! j = rmask (dr j).
Proof.
  intros Hj.
  destruct (final_flags b settings micro_block_idxs j) as (F1 & F2 & F3 & F4).
  destruct (final_masks b settings micro_block_idxs j Hj) as (M1 & M2).
  fold ctx n sb st dr in F1, F2, F3, F4, M1, M2.
  rewrite bool_decide_eq_true_2 in F1, F2, F3, F4 by exact Hj.
  repeat split; assumption.
Qed.

(** The sums over the ways of treating dim [j]. *)
Lemma dim_sums (j : nat) :
  (j < n)%nat →
  fN j + fL j + fR j = gN j ∧ gN j + gL j + gR j = eN j ∧
  (dim_keeps_clusters ctx sb j = true →
   clN (dr j) (V j) (C j) (x j) = fvN (dr j) (V j) (x j)) ∧
  (dim_keeps_clusters ctx sb j = false → fN j = 0).
Proof.
  intros Hj.
  destruct (sb_begin_end b settings micro_block_idxs Hblk)
    as (_ & _ & _ & _ & Hle).
  fold ctx n sb in Hle.
  destruct lane_facts as (_ & Ht & Hl).
  destruct (dim_partition ctx sb j Hok Hj (Hle j Hj) (x j) t Ht (Hl j Hj))
    as (P1 & P2 & P3 & P4).
  fold d dr in P1, P2, P3, P4. fold (V j) (C j) in P1, P2, P3, P4.
  repeat split; try assumption.
  intros Hk. unfold fN. rewrite (P4 Hk). reflexivity.
Qed.

(** The share of dim [j] in the two calls of a part. *)
Lemma part_shares (cd lr : Z) (j : nat) :
  (j < n)%nat →
  let p := StencilBundleTempl.calc_part n st nfc nfv nov cd lr in
  b2z (fv_dim_needed st cd lr j &&
       in_vec_range (begin (fv_part p) !!! S j) (end_ (fv_part p) !!! S j)
         (vec_of d pt j)) =
  side_value fN fL fR cd lr j ∧
  b2z (pv_dim_needed st cd lr j &&
       in_vec_range (begin (pv_part p) !!! S j) (end_ (pv_part p) !!! S j)
         (vec_of d pt j) &&
       match side_of cd lr j with
       | NotSelected => true
       | Left => Z.testbit (to_bit_mask (peel_masks st !!! j)) t
       | Right => Z.testbit (to_bit_mask (rem_masks st !!! j)) t
       end) =
  side_value gN gL gR cd lr j.
Proof.
  intros Hj p.
  destruct norm_lengths as (L1 & L2 & L3 & L4 & _).
  assert (L1' : (S n ≤ length (begin nfc))%nat) by lia.
  assert (L2' : (S n ≤ length (end_ nfc))%nat) by lia.
  assert (L3' : (S n ≤ length (begin nfv))%nat) by lia.
  assert (L4' : (S n ≤ length (end_ nfv))%nat) by lia.
  pose proof (part_ranges n st nfc nfv nov cd lr j L1' L2' L3' L4' Hj) as Hr.
  cbn zeta in Hr. fold p in Hr.
  destruct (norm_ranges j Hj) as ((N1 & N2) & (N3 & N4) & (N5 & N6)).
  destruct (flag_bits j Hj) as (F1 & F2 & F3 & F4 & M1 & M2).
  unfold fv_dim_needed, pv_dim_needed, side_value.
  unfold range_at in Hr.
  destruct (side_of cd lr j); destruct Hr as [Hf Hp];
    apply pair_equal_spec in Hf as [Hf1 Hf2];
    apply pair_equal_spec in Hp as [Hp1 Hp2];
    rewrite Hf1, Hf2, Hp1, Hp2;
    rewrite ?N1, ?N2, ?N3, ?N4, ?N5, ?N6, ?F1, ?F2, ?F3, ?F4, ?M1, ?M2;
    unfold fN, fL, fR, gN, gL, gR, fvN, fvL, fvR, pvN, pvL, pvR, vec_of,
      idiv_flr, x, V;
    rewrite ?andb_true_r; split; reflexivity.
Qed.

(** The calls of one part, for the element at [pt]. *)
Lemma part_writes (cd lr : Z) :
  writes_sum d n
    (part_calls ctx outer inner
       (StencilBundleTempl.calc_part n st nfc nfv nov cd lr)) pt =
  part_value fN fL fR n cd lr + part_value gN gL gR n cd lr.
Proof.
  set (p := StencilBundleTempl.calc_part n st nfc nfv nov cd lr).
  destruct lane_facts as (Ht & _ & _).
  assert (Hfn : fv_needed p = forallb (fv_dim_needed st cd lr) (seq 0 n))
    by (unfold p; rewrite calc_part_spec; reflexivity).
  assert (Hpn : pv_needed p = forallb (pv_dim_needed st cd lr) (seq 0 n))
    by (unfold p; rewrite calc_part_spec; reflexivity).
  assert (Hpm : Z.testbit (pv_mask p) t =
                forallb (λ j, match side_of cd lr j with
                              | NotSelected => true
                              | Left =>
                                  Z.testbit
                                    (to_bit_mask (peel_masks st !!! j)) t
                              | Right =>
                                  Z.testbit
                                    (to_bit_mask (rem_masks st !!! j)) t
                              end) (seq 0 n)).
  { unfold p. rewrite calc_part_spec. cbn [pv_mask part_spec].
    rewrite and_dim_mask_testbit, all_ones_testbit by exact Ht.
    reflexivity. }
  assert (Hfv : b2z (fv_needed p && (vectors_cover d n (fv_part p) pt &&
                                     Z.testbit all_ones t)) =
                part_value fN fL fR n cd lr).
  { rewrite all_ones_testbit, andb_true_r by exact Ht. rewrite Hfn.
    unfold vectors_cover. rewrite forallb_andb, b2z_forallb.
    unfold part_value. apply product_ext. intros j Hj.
    apply elem_of_seq in Hj. apply part_shares. lia. }
  assert (Hpv : b2z (pv_needed p && (vectors_cover d n (pv_part p) pt &&
                                     Z.testbit (pv_mask p) t)) =
                part_value gN gL gR n cd lr).
  { rewrite Hpn, Hpm. unfold vectors_cover.
    rewrite !forallb_andb, b2z_forallb.
    unfold part_value. apply product_ext. intros j Hj.
    apply elem_of_seq in Hj. rewrite andb_assoc. apply part_shares. lia. }
  unfold part_calls. rewrite writes_sum_app, <- Hfv, <- Hpv.
  unfold writes_sum.
  destruct (fv_needed p), (pv_needed p);
    cbn [fmap list_fmap sumZ foldr writes andb b2z]; fold t; lia.
Qed.

(** The calls of all boundary parts. *)
Lemma boundary_writes :
  writes_sum d n (boundary_calls ctx outer inner st nfc nfv nov) pt =
  (product (gN <$> seq 0 n) - product (fN <$> seq 0 n)) +
  (product (eN <$> seq 0 n) - product (gN <$> seq 0 n)).
Proof.
  unfold boundary_calls. rewrite writes_sum_concat.
  erewrite sumZ_ext.
  2:{ intros k _. unfold level_calls. rewrite writes_sum_concat.
      erewrite sumZ_ext.
      2:{ intros r _. unfold combo_calls. rewrite writes_sum_concat.
          erewrite sumZ_ext; [|intros lr _; apply part_writes].
          apply sumZ_plus. }
      apply sumZ_plus. }
  rewrite sumZ_plus. fold n. rewrite !all_parts_sum.
  rewrite (product_ext (λ j, fN j + fL j + fR j) gN).
  - rewrite (product_ext (λ j, gN j + gL j + gR j) eN); [reflexivity|].
    intros j Hj. apply elem_of_seq in Hj. apply dim_sums. lia.
  - intros j Hj. apply elem_of_seq in Hj. apply dim_sums. lia.
Qed.

(** The cluster call. *)
Lemma cluster_writes :
  writes_sum d n
    (if do_clusters st
     then [CalcClusters outer inner (thread_limit ctx) nfc] else []) pt =
  product (fN <$> seq 0 n).
Proof.
  destruct (final_globals b settings micro_block_idxs) as [Hg _].
  fold ctx n sb st in Hg.
  destruct (do_clusters st) eqn:Hdc.
  - unfold writes_sum. cbn [fmap list_fmap sumZ foldr writes].
    rewrite Z.add_0_r. unfold clusters_cover. rewrite b2z_forallb.
    apply product_ext. intros j Hj. apply elem_of_seq in Hj.
    assert (Hjn : (j < n)%nat) by lia.
    destruct (norm_ranges j Hjn) as ((N1 & N2) & _).
    destruct (dim_sums j Hjn) as (_ & _ & Hk & _).
    rewrite N1, N2. unfold fN. rewrite <- Hk.
    + reflexivity.
    + symmetry in Hg. apply (forallb_seq_lookup _ _ _ Hg Hjn).
  - symmetry in Hg. apply forallb_false_iff in Hg as (j & Hj & Hk).
    unfold writes_sum. cbn [fmap list_fmap sumZ foldr]. symmetry.
    apply (product_zero fN _ j).
    + apply elem_of_seq. lia.
    + apply dim_sums; assumption.
Qed.

(** Without work outside the clusters, every dim has its whole range in
    the clusters. *)
Lemma no_outside_shares :
  do_outside_clusters st = false →
  product (fN <$> seq 0 n) = product (eN <$> seq 0 n).
Proof.
  intros Hout.
  destruct (final_globals b settings micro_block_idxs) as [_ Hg].
  fold ctx n sb st dr in Hg. rewrite Hg in Hout.
  apply product_ext. intros j Hj. apply elem_of_seq in Hj.
  assert (Hjn : (j < n)%nat) by lia.
  pose proof (existsb_false_seq _ _ _ Hout Hjn) as Hany. cbn beta in Hany.
  unfold any_outside in Hany.
  apply orb_false_elim in Hany as [Hany H4].
  apply orb_false_elim in Hany as [Hany H3].
  apply orb_false_elim in Hany as [H1 H2].
  destruct (dim_sums j Hjn) as (S1 & S2 & _).
  unfold fL, fR, gL, gR, fvL, fvR, pvL, pvR in S1, S2.
  rewrite H1, H2, H3, H4 in *. cbn [andb b2z] in S1, S2. lia.
Qed.

(** Every element is written by one call if it lies in the nano-block and
    by none otherwise. *)
Lemma cover_count :
  writes_sum d n (dispatch_calls ctx outer inner st) pt =
  b2z (in_range n (begin (sb_eidxs st)) (end_ (sb_eidxs st)) pt).
Proof.
  assert (HE : b2z (in_range n (begin (sb_eidxs st)) (end_ (sb_eidxs st)) pt)
               = product (eN <$> seq 0 n)).
  { unfold in_range. rewrite b2z_forallb. apply product_ext.
    intros j Hj. apply elem_of_seq in Hj.
    assert (Hjn : (j < n)%nat) by lia.
    destruct (final_lookups b settings micro_block_idxs Hblk j Hjn)
      as ((E1 & E2) & _).
    fold ctx n sb st dr in E1, E2. rewrite E1, E2. reflexivity. }
  rewrite HE. unfold dispatch_calls. cbn zeta. fold n d nfc nfv nov.
  rewrite writes_sum_app, cluster_writes.
  destruct (do_outside_clusters st) eqn:Hout.
  - rewrite boundary_writes. lia.
  - rewrite (no_outside_shares Hout). unfold writes_sum. cbn. lia.
Qed.

End Cover.

(** ** The partition property *)

(** C1. For every well-formed configuration of folds and clusters and
    every micro-block handed to [calc_nano_block_opt] (start not beyond
    stop in any domain dim; in a DEBUG build also the alignment the caller
    guarantees, so that no assertion fails), the call returns normally and
    its dispatched calls (the cluster call over the normalized full-cluster
    range, the unmasked full-vector calls and the masked partial-vector
    calls, a vector call counting only for the lanes its mask enables)
    partition the nano-block: the element range is the rank-relative range
    [start - offset, stop - offset) of the block in every domain dim,
    every element in it is written by exactly one call, and every element
    outside it by none. *)
Theorem dispatch_partition (DEBUG : bool) (b : StencilBundleTempl.t)
    (outer inner : Z) (settings : KernelSettings)
    (micro_block_idxs : ScanIndices) :
  let ctx := StencilBundleTempl._context b in
  let n := nddims ctx in
  context_ok ctx = true →
  block_ok n micro_block_idxs = true →
  (DEBUG = true →
   caller_aligned n (dims ctx) settings micro_block_idxs = true) →
  ∃ st calls,
    StencilBundleTempl.nano_block_vars DEBUG b settings micro_block_idxs =
      Ok st [] ∧
    StencilBundleTempl.calc_nano_block_opt DEBUG b outer inner settings
      micro_block_idxs = Ok tt calls ∧
    (∀ j, (j < n)%nat →
       begin (sb_eidxs st) !!! S j =
         start micro_block_idxs !!! S j - rank_domain_offsets ctx !!! j ∧
       end_ (sb_eidxs st) !!! S j =
         stop micro_block_idxs !!! S j - rank_domain_offsets ctx !!! j) ∧
    ∀ pt, length pt = S n →
      count_writes (dims ctx) n calls pt =
      if in_range n (begin (sb_eidxs st)) (end_ (sb_eidxs st)) pt
      then 1%nat else 0%nat.
Proof.
  intros ctx n Hctx Hblk Hcal.
  pose proof (context_ok_dims ctx Hctx) as Hok.
  set (sb := StencilBundleTempl.nano_block_idxs settings micro_block_idxs).
  exists (loop_state ctx sb n), (dispatch_calls ctx outer inner
                                   (loop_state ctx sb n)).
  split; [apply nano_block_vars_run; assumption|].
  split; [apply calc_nano_block_opt_run; assumption|].
  split.
  - intros j Hj.
    destruct (final_lookups b settings micro_block_idxs Hblk j Hj)
      as ((E1 & E2) & _).
    destruct (sb_begin_end b settings micro_block_idxs Hblk)
      as (Hb & He & _ & _ & Hle).
    fold ctx n sb in E1, E2, Hb, He, Hle.
    destruct (dim_result_shape ctx sb j Hok Hj (Hle j Hj))
      as ((R1 & R2 & _) & _).
    rewrite E1, E2, R1, R2. cbn [StencilBundleTempl.dim_bounds ebgn eend].
    rewrite Hb, He. split; reflexivity.
  - intros pt Hpt.
    pose proof (cover_count b settings micro_block_idxs outer inner pt
                  Hok Hblk Hpt) as Hc.
    fold ctx n sb in Hc. rewrite <- count_writes_sum in Hc.
    destruct (in_range n _ _ pt); cbn [b2z] in Hc; lia.
Qed.

Lemma dispatch_partition_witness :
  ∃ st calls,
    StencilBundleTempl.nano_block_vars true two_dim_bundle two_dim_settings
      (two_dim_block 1 30 3 29) = Ok st [] ∧
    StencilBundleTempl.calc_nano_block_opt true two_dim_bundle 0 0
      two_dim_settings (two_dim_block 1 30 3 29) = Ok tt calls ∧
    (∀ j, (j < 2)%nat →
       begin (sb_eidxs st) !!! S j =
         start (two_dim_block 1 30 3 29) !!! S j -
         rank_domain_offsets two_dim_context !!! j ∧
       end_ (sb_eidxs st) !!! S j =
         stop (two_dim_block 1 30 3 29) !!! S j -
         rank_domain_offsets two_dim_context !!! j) ∧
    ∀ pt, length pt = 3%nat →
      count_writes (dims two_dim_context) 2 calls pt =
      if in_range 2 (begin (sb_eidxs st)) (end_ (sb_eidxs st)) pt
      then 1%nat else 0%nat.
Proof.
  apply (dispatch_partition true two_dim_bundle 0 0 two_dim_settings
           (two_dim_block 1 30 3 29)).
  - reflexivity.
  - reflexivity.
  - intros _. reflexivity.
Defined.

(** ** The assertions of [normalize_indices] *)

(** A loop whose body checks a condition of the item and faults without
    a call when it fails. *)
Lemma for_each_st_checked {A S : Type} (l : list A) (cond : A → bool)
    (g : S → A → S) (msg : string) (body : S → A → Result S) (s : S) :
  (∀ s x, x ∈ l →
          body s x = if cond x then Ok (g s x) [] else Fault msg []) →
  for_each_st l body s =
  if forallb cond l then Ok (foldl g s l) [] else Fault msg [].
Proof.
  revert s. induction l as [|x l IH]; intros s Hbody; [reflexivity|].
  cbn [for_each_st foldl forallb].
  rewrite (Hbody s x) by constructor.
  destruct (cond x); [|reflexivity].
  cbn [andb]. rewrite (bind_Ok_nil _ _ (g s x)) by reflexivity.
  apply IH. intros s' y Hy. apply Hbody. constructor. exact Hy.
Qed.

(** [normalize_indices] of a DEBUG build, in closed form. *)
Lemma normalize_indices_debug (b : StencilBundleTempl.t) (orig : Indices) :
  let ctx := StencilBundleTempl._context b in
  StencilBundleTempl.normalize_indices true b orig =
  if bool_decide (length orig = S (nddims ctx)) then
    if forallb (λ j, imod_flr (orig !!! S j) (_fold_pts (dims ctx) !!! j) =? 0)
               (seq 0 (nddims ctx))
    then Ok (normalized (dims ctx) (nddims ctx) orig) []
    else Fault "imod_flr(orig[i], fold_pts[j]) == 0" []
  else Fault "orig.get_num_dims() == nsdims" [].
Proof.
  intros ctx. unfold StencilBundleTempl.normalize_indices. fold ctx.
  unfold assert_ at 1. cbn [andb].
  destruct (bool_decide (length orig = S (nddims ctx))); [|reflexivity].
  cbn [negb]. rewrite (bind_Ok_nil _ _ tt) by reflexivity.
  unfold DOMAIN_VAR_LOOP_M, normalized.
  apply (for_each_st_checked _
           (λ j, imod_flr (orig !!! S j) (_fold_pts (dims ctx) !!! j) =? 0)
           (λ norm j,
              <[(1 + j)%nat :=
                  idiv_flr (orig !!! S j) (_fold_pts (dims ctx) !!! j)]> norm)).
  intros norm j _. unfold assert_. cbn [andb step_posn Nat.add].
  destruct (imod_flr (orig !!! S j) (_fold_pts (dims ctx) !!! j) =? 0);
    reflexivity.
Qed.

(** X1. In a DEBUG build [normalize_indices] returns exactly when the
    tuple has one entry per stencil dim and every domain entry is a
    multiple of the fold length of its dim; it then returns the exact
    quotients.  Otherwise an assertion fails, before any call into the
    generated code. *)
Theorem normalize_indices_checked (b : StencilBundleTempl.t)
    (orig : Indices) :
  let ctx := StencilBundleTempl._context b in
  let n := nddims ctx in
  let V (j : nat) := _fold_pts (dims ctx) !!! j in
  let aligned := length orig = S n ∧ ∀ j, (j < n)%nat → (V j | orig !!! S j) in
  (∀ j, (j < n)%nat → 0 < V j) →
  (aligned →
   ∃ norm, StencilBundleTempl.normalize_indices true b orig = Ok norm [] ∧
           length norm = S n ∧ norm !!! step_posn = orig !!! step_posn ∧
           ∀ j, (j < n)%nat → norm !!! S j * V j = orig !!! S j) ∧
  (¬ aligned →
   ∃ msg, StencilBundleTempl.normalize_indices true b orig = Fault msg []).
Proof.
  intros ctx n V aligned Hpos.
  rewrite normalize_indices_debug. fold ctx n. split.
  - intros [Hlen Hdiv].
    rewrite bool_decide_eq_true_2 by exact Hlen.
    assert (Hall : forallb (λ j, imod_flr (orig !!! S j) (V j) =? 0)
                           (seq 0 n) = true).
    { apply forallb_forall. intros j Hj. apply in_seq in Hj.
      apply Z.eqb_eq. unfold imod_flr.
      destruct (Hdiv j ltac:(lia)) as [a ->].
      apply Z.mod_mul. specialize (Hpos j ltac:(lia)). lia. }
    unfold V in Hall. rewrite Hall.
    exists (normalized (dims ctx) n orig). split; [reflexivity|].
    destruct (normalized_fields (dims ctx) n orig) as [Hl H0].
    split; [lia|]. split; [exact H0|].
    intros j Hj. rewrite normalized_lookup by lia.
    destruct (Hdiv j Hj) as [a Ha]. fold (V j). rewrite Ha.
    rewrite Z.div_mul; [reflexivity|]. specialize (Hpos j Hj). lia.
  - intros Hna.
    destruct (bool_decide (length orig = S n)) eqn:Hlen; [|eauto].
    apply bool_decide_eq_true in Hlen.
    destruct (forallb _ (seq 0 n)) eqn:Hall; [|eauto].
    exfalso. apply Hna. split; [exact Hlen|].
    intros j Hj. pose proof (forallb_seq_lookup _ _ _ Hall Hj) as Hm.
    cbn beta in Hm. apply Z.eqb_eq in Hm. unfold imod_flr in Hm.
    fold (V j) in Hm. apply Z.mod_divide; [|exact Hm].
    specialize (Hpos j Hj). lia.
Qed.

Lemma normalize_indices_checked_witness :
  (∃ norm,
     StencilBundleTempl.normalize_indices true one_dim_bundle [7; -8]
     = Ok norm [] ∧
     length norm = 2%nat ∧ norm !!! step_posn = 7 ∧
     ∀ j, (j < 1)%nat →
          norm !!! S j * _fold_pts (dims one_dim_context) !!! j
          = [7; -8] !!! S j) ∧
  ∃ msg,
    StencilBundleTempl.normalize_indices true one_dim_bundle [7; -6]
    = Fault msg [].
Proof.
  assert (Hpos : ∀ j, (j < 1)%nat →
                      0 < _fold_pts (dims one_dim_context) !!! j).
  { intros j Hj. replace j with 0%nat by lia. reflexivity. }
  split.
  - apply (normalize_indices_checked one_dim_bundle [7; -8] Hpos).
    split; [reflexivity|]. intros j Hj. cbn in Hj.
    replace j with 0%nat by lia. exists (-2). reflexivity.
  - apply (normalize_indices_checked one_dim_bundle [7; -6] Hpos).
    intros [_ Hdiv]. destruct (Hdiv 0%nat (Nat.lt_0_succ 0)) as [a Ha].
    cbn in Ha. lia.
Defined.

(** X2. In a release build [normalize_indices] never fails, whatever the
    alignment: it leaves the step index alone and replaces every domain
    index by its floor quotient, also for negative (halo) indices, so
    that the index lies in the vector with that number. *)
Theorem normalize_indices_floor (b : StencilBundleTempl.t) (orig : Indices) :
  let ctx := StencilBundleTempl._context b in
  let n := nddims ctx in
  let V (j : nat) := _fold_pts (dims ctx) !!! j in
  length orig = S n →
  (∀ j, (j < n)%nat → 0 < V j) →
  ∃ norm,
    StencilBundleTempl.normalize_indices false b orig = Ok norm [] ∧
    length norm = S n ∧ norm !!! step_posn = orig !!! step_posn ∧
    ∀ j, (j < n)%nat →
         norm !!! S j * V j ≤ orig !!! S j < norm !!! S j * V j + V j.
Proof.
  intros ctx n V Hlen Hpos.
  exists (normalized (dims ctx) n orig).
  split; [apply normalize_indices_run; discriminate|].
  destruct (normalized_fields (dims ctx) n orig) as [Hl H0].
  split; [lia|]. split; [exact H0|].
  intros j Hj. rewrite normalized_lookup by lia. fold (V j).
  specialize (Hpos j Hj).
  assert (Hne : V j ≠ 0) by lia.
  pose proof (Z.div_mod (orig !!! S j) (V j) Hne) as Hdm.
  pose proof (Z.mod_pos_bound (orig !!! S j) (V j) Hpos) as Hmb.
  lia.
Qed.

Lemma normalize_indices_floor_witness :
  ∃ norm,
    StencilBundleTempl.normalize_indices false one_dim_bundle [7; -6]
    = Ok norm [] ∧
    length norm = 2%nat ∧ norm !!! step_posn = 7 ∧
    ∀ j, (j < 1)%nat →
         norm !!! S j * _fold_pts (dims one_dim_context) !!! j
         ≤ [7; -6] !!! S j
         < norm !!! S j * _fold_pts (dims one_dim_context) !!! j
           + _fold_pts (dims one_dim_context) !!! j.
Proof.
  apply (normalize_indices_floor one_dim_bundle [7; -6]).
  - reflexivity.
  - intros j Hj. cbn in Hj. replace j with 0%nat by lia. reflexivity.
Defined.

(** ** Blocks that begin and end on cluster boundaries *)

Lemma round_flr_multiple (x m : Z) :
  0 < m → (m | x) → round_up_flr x m = x ∧ round_down_flr x m = x.
Proof.
  intros Hm [a ->].
  destruct (round_up_flr_bounds (a * m) m Hm) as (q & -> & Hq).
  destruct (round_down_flr_bounds (a * m) m Hm) as (p & -> & Hp).
  assert (q = a) by (apply (multiples_close m); lia).
  assert (p = a) by (apply (multiples_close m); lia).
  subst. split; reflexivity.
Qed.

(** A dim in which the nano-block begins and ends on cluster boundaries
    needs nothing outside the clusters. *)
Lemma aligned_dim (ctx : StencilContext) (sb_idxs : ScanIndices) (j : nat) :
  let x := begin sb_idxs !!! S j - rank_domain_offsets ctx !!! j in
  let y := end_ sb_idxs !!! S j - rank_domain_offsets ctx !!! j in
  let C := _cluster_pts (dims ctx) !!! j in
  let r := dim_result ctx sb_idxs j in
  dims_ok (nddims ctx) (dims ctx) = true → (j < nddims ctx)%nat →
  begin sb_idxs !!! S j ≤ end_ sb_idxs !!! S j →
  (C | x) → (C | y) →
  any_outside r = false ∧ dim_keeps_clusters ctx sb_idxs j = (x <? y) ∧
  fcbgn r = x ∧ fcend r = y.
Proof.
  intros x y C r Hok Hj Hle HCx HCy.
  destruct (dims_ok_inv _ _ Hok) as (_ & _ & _ & _ & Hdim & _).
  destruct (Hdim j Hj) as (HV & m & Hm & HCm). fold C in HCm.
  assert (HC : 0 < C) by nia.
  assert (HVx : (_fold_pts (dims ctx) !!! j | x)).
  { destruct HCx as [a ->]. exists (a * m). rewrite HCm. lia. }
  assert (HVy : (_fold_pts (dims ctx) !!! j | y)).
  { destruct HCy as [a ->]. exists (a * m). rewrite HCm. lia. }
  destruct (round_flr_multiple x C HC HCx) as [Ux Dx].
  destruct (round_flr_multiple y C HC HCy) as [Uy Dy].
  destruct (round_flr_multiple x _ HV HVx) as [Uvx Dvx].
  destruct (round_flr_multiple y _ HV HVy) as [Uvy Dvy].
  destruct (dim_result_shape ctx sb_idxs j Hok Hj Hle) as (_ & Hshape).
  destruct (masked_fields ctx sb_idxs j)
    as (_ & _ & M3 & M4 & _ & _ & _ & _ & M9 & M10 & M11 & M12).
  fold r in Hshape.
  set (dv0 := StencilBundleTempl.dim_bounds ctx sb_idxs (S j) j) in *.
  assert (E : fcbgn dv0 = x ∧ fcend dv0 = y ∧ fvend dv0 = y ∧
              do_left_fvec dv0 = false ∧ do_right_fvec dv0 = false ∧
              do_left_pvec dv0 = false ∧ do_right_pvec dv0 = false).
  { subst dv0. cbn -[round_up_flr round_down_flr].
    fold x y C. rewrite Ux, Dy, Uvx, Dvy.
    rewrite !Z.gtb_ltb, !Z.ltb_irrefl. repeat split; reflexivity. }
  destruct E as (E1 & E2 & E3 & F1 & F2 & F3 & F4).
  unfold any_outside.
  destruct Hshape as
    [(Hov & _) |
     [(_ & Hc & -> & -> & -> & -> & -> & -> & -> & _) |
      (_ & Hc & -> & ->)]].
  - unfold overlap in Hov. rewrite F3 in Hov. discriminate.
  - rewrite F1, F2, F3, F4, E3. rewrite E1, E2 in Hc.
    assert (x ≤ y) by (unfold x, y; lia).
    split; [reflexivity|]. split; [|lia].
    symmetry. apply Z.ltb_ge. lia.
  - rewrite M3, M4, M9, M10, M11, M12, F1, F2, F3, F4, E1, E2.
    rewrite E1, E2 in Hc.
    split; [reflexivity|]. split; [|split; reflexivity].
    symmetry. apply Z.ltb_lt. exact Hc.
Qed.

(** The calls for a block that begins and ends on cluster boundaries in
    every dim. *)
Lemma aligned_block_calls (DEBUG : bool) (b : StencilBundleTempl.t)
    (outer inner : Z) (settings : KernelSettings)
    (micro_block_idxs : ScanIndices) :
  let ctx := StencilBundleTempl._context b in
  let n := nddims ctx in
  let x (j : nat) :=
    start micro_block_idxs !!! S j - rank_domain_offsets ctx !!! j in
  let y (j : nat) :=
    stop micro_block_idxs !!! S j - rank_domain_offsets ctx !!! j in
  dims_ok n (dims ctx) = true →
  block_ok n micro_block_idxs = true →
  (DEBUG = true →
   caller_aligned n (dims ctx) settings micro_block_idxs = true) →
  (∀ j, (j < n)%nat →
        (_cluster_pts (dims ctx) !!! j | x j) ∧
        (_cluster_pts (dims ctx) !!! j | y j)) →
  ∃ norm_fcidxs,
    StencilBundleTempl.calc_nano_block_opt DEBUG b outer inner settings
      micro_block_idxs =
    Ok tt (if forallb (λ j, x j <? y j) (seq 0 n)
           then [CalcClusters outer inner (thread_limit ctx) norm_fcidxs]
           else []) ∧
    ∀ j, (j < n)%nat →
         begin norm_fcidxs !!! S j = x j / _fold_pts (dims ctx) !!! j ∧
         end_ norm_fcidxs !!! S j = y j / _fold_pts (dims ctx) !!! j.
Proof.
  intros ctx n x y Hok Hblk Hcal Hal.
  set (sb := StencilBundleTempl.nano_block_idxs settings micro_block_idxs).
  set (st := loop_state ctx sb n).
  destruct (sb_begin_end b settings micro_block_idxs Hblk)
    as (Hb & He & _ & _ & Hle).
  fold ctx n sb in Hb, He, Hle.
  assert (Hdim : ∀ j, (j < n)%nat →
            any_outside (dim_result ctx sb j) = false ∧
            dim_keeps_clusters ctx sb j = (x j <? y j) ∧
            fcbgn (dim_result ctx sb j) = x j ∧
            fcend (dim_result ctx sb j) = y j).
  { intros j Hj. destruct (Hal j Hj) as [Hx Hy].
    unfold x, y in *. rewrite <- Hb, <- He in *.
    apply aligned_dim; auto. }
  destruct (final_globals b settings micro_block_idxs) as [Hdc Hout].
  fold ctx n sb st in Hdc, Hout.
  assert (Hdc' : do_clusters st = forallb (λ j, x j <? y j) (seq 0 n)).
  { rewrite Hdc. apply forallb_ext_seq. intros j Hj. apply Hdim, Hj. }
  assert (Hout' : do_outside_clusters st = false).
  { rewrite Hout. destruct (existsb _ _) eqn:Hex; [|reflexivity].
    apply existsb_exists in Hex as (j & Hj & Hany). apply in_seq in Hj.
    destruct (Hdim j) as [Hno _]; [lia|]. congruence. }
  exists (normalized_scan (dims ctx) n (sb_fcidxs st)). split.
  - rewrite (calc_nano_block_opt_run DEBUG b outer inner settings
               micro_block_idxs Hok Hblk Hcal).
    fold ctx n sb st. unfold dispatch_calls. cbn zeta. fold n.
    rewrite Hout', Hdc', app_nil_r. reflexivity.
  - intros j Hj.
    destruct (final_lookups b settings micro_block_idxs Hblk j Hj)
      as (_ & (E1 & E2) & _).
    destruct (final_fields b settings micro_block_idxs Hblk
                (sb_fcidxs st)) as (L1 & L2 & _).
    { apply elem_of_cons. right. apply elem_of_cons. left. reflexivity. }
    fold ctx n sb st in E1, E2, L1, L2.
    cbn [normalized_scan begin end_].
    rewrite !normalized_lookup by lia. rewrite E1, E2.
    destruct (Hdim j Hj) as (_ & _ & -> & ->). split; reflexivity.
Qed.

Lemma scalar_dims (d : Dims) (n j : nat) :
  dims_ok n d = true → CPTS d = 1 → (j < n)%nat →
  _cluster_pts d !!! j = 1 ∧ _fold_pts d !!! j = 1.
Proof.
  intros Hok Hc Hj.
  destruct (dims_ok_inv _ _ Hok) as (Hl1 & Hl2 & _ & Hpos & Hdim & _).
  assert (HC1 : _cluster_pts d !!! j = 1).
  { assert (Hcpos : Forall (λ s, 0 < s) (_cluster_pts d)).
    { apply (Forall_lookup_total_2 (λ s, 0 < s)). intros i Hi.
      assert (Hin : (i < n)%nat) by lia.
      destruct (Hdim i Hin) as (HV & m & Hm & ->). nia. }
    pose proof (product_one _ Hcpos Hc) as Hone.
    apply (Forall_lookup_total_1 _ _ j Hone). lia. }
  split; [exact HC1|].
  destruct (Hdim j Hj) as (HV & m & Hm & HCm). rewrite HC1 in HCm. nia.
Qed.

(** X3. A block that begins and ends on cluster boundaries in every
    domain dim (rank-relative) is evaluated by one cluster call over
    exactly its own range, normalized, and by no vector call; if it is
    empty in some dim, no call is made at all. *)
Theorem cluster_aligned_block (DEBUG : bool) (b : StencilBundleTempl.t)
    (outer inner : Z) (settings : KernelSettings)
    (micro_block_idxs : ScanIndices) :
  let ctx := StencilBundleTempl._context b in
  let n := nddims ctx in
  let x (j : nat) :=
    start micro_block_idxs !!! S j - rank_domain_offsets ctx !!! j in
  let y (j : nat) :=
    stop micro_block_idxs !!! S j - rank_domain_offsets ctx !!! j in
  context_ok ctx = true →
  block_ok n micro_block_idxs = true →
  (DEBUG = true →
   caller_aligned n (dims ctx) settings micro_block_idxs = true) →
  (∀ j, (j < n)%nat →
        (_cluster_pts (dims ctx) !!! j | x j) ∧
        (_cluster_pts (dims ctx) !!! j | y j)) →
  ∃ norm_fcidxs,
    StencilBundleTempl.calc_nano_block_opt DEBUG b outer inner settings
      micro_block_idxs =
    Ok tt (if forallb (λ j, x j <? y j) (seq 0 n)
           then [CalcClusters outer inner (thread_limit ctx) norm_fcidxs]
           else []) ∧
    ∀ j, (j < n)%nat →
         begin norm_fcidxs !!! S j = x j / _fold_pts (dims ctx) !!! j ∧
         end_ norm_fcidxs !!! S j = y j / _fold_pts (dims ctx) !!! j.
Proof.
  intros ctx n x y Hctx Hblk Hcal Hal.
  apply aligned_block_calls; try assumption.
  apply context_ok_dims, Hctx.
Qed.

Lemma cluster_aligned_block_witness :
  ∃ norm_fcidxs,
    StencilBundleTempl.calc_nano_block_opt true one_dim_bundle 0 0
      one_dim_settings (one_dim_block 8 24) =
    Ok tt [CalcClusters 0 0 1 norm_fcidxs] ∧
    ∀ j, (j < 1)%nat →
         begin norm_fcidxs !!! S j = (one_dim_block 8 24).(start) !!! S j / 4 ∧
         end_ norm_fcidxs !!! S j = (one_dim_block 8 24).(stop) !!! S j / 4.
Proof.
  destruct (cluster_aligned_block true one_dim_bundle 0 0 one_dim_settings
              (one_dim_block 8 24) ltac:(reflexivity) ltac:(reflexivity)
              ltac:(reflexivity)) as (nfc & Hrun & Hr).
  - intros j Hj. cbn in Hj. replace j with 0%nat by lia. cbn.
    split; [exists 1 | exists 3]; reflexivity.
  - exists nfc. split; [exact Hrun|].
    intros j Hj. destruct (Hr j Hj) as [H1 H2]. cbn in Hj.
    replace j with 0%nat in * by lia. split; [exact H1 | exact H2].
Defined.

(** X4. In a build without vectorization ([CPTS == 1]) the
    cluster-size-1 exceptions of [calc_nano_block_opt] and
    [calc_vectors_opt2] are never thrown: every block is evaluated by one
    cluster call over exactly its rank-relative element range, or by no
    call if it is empty in some dim. *)
Theorem scalar_build_single_call (DEBUG : bool) (b : StencilBundleTempl.t)
    (outer inner : Z) (settings : KernelSettings)
    (micro_block_idxs : ScanIndices) :
  let ctx := StencilBundleTempl._context b in
  let n := nddims ctx in
  context_ok ctx = true →
  block_ok n micro_block_idxs = true →
  (DEBUG = true →
   caller_aligned n (dims ctx) settings micro_block_idxs = true) →
  CPTS (dims ctx) = 1 →
  ∃ norm_fcidxs,
    StencilBundleTempl.calc_nano_block_opt DEBUG b outer inner settings
      micro_block_idxs =
    Ok tt (if forallb (λ j, start micro_block_idxs !!! S j <?
                            stop micro_block_idxs !!! S j) (seq 0 n)
           then [CalcClusters outer inner (thread_limit ctx) norm_fcidxs]
           else []) ∧
    ∀ j, (j < n)%nat →
         begin norm_fcidxs !!! S j =
           start micro_block_idxs !!! S j - rank_domain_offsets ctx !!! j ∧
         end_ norm_fcidxs !!! S j =
           stop micro_block_idxs !!! S j - rank_domain_offsets ctx !!! j.
Proof.
  intros ctx n Hctx Hblk Hcal Hc. subst n. subst ctx.
  pose proof (context_ok_dims _ Hctx) as Hok.
  destruct (aligned_block_calls DEBUG b outer inner settings
              micro_block_idxs Hok Hblk Hcal) as (nfc & Hrun & Hr).
  { intros j Hj. destruct (scalar_dims _ _ j Hok Hc Hj) as [-> _].
    split; apply Z.divide_1_l. }
  exists nfc. split.
  - rewrite Hrun.
    rewrite (forallb_ext_seq _ (λ j, start micro_block_idxs !!! S j <?
                                     stop micro_block_idxs !!! S j));
      [reflexivity|].
    intros j _.
    destruct (Z.ltb_spec (start micro_block_idxs !!! S j)
                         (stop micro_block_idxs !!! S j));
      [apply Z.ltb_lt | apply Z.ltb_ge]; lia.
  - intros j Hj. destruct (Hr j Hj) as [-> ->].
    destruct (scalar_dims _ _ j Hok Hc Hj) as [_ ->].
    rewrite !Z.div_1_r. split; reflexivity.
Qed.

Lemma scalar_build_single_call_witness :
  ∃ norm_fcidxs,
    StencilBundleTempl.calc_nano_block_opt true unit_bundle 0 0
      one_dim_settings (one_dim_block 3 7) =
    Ok tt [CalcClusters 0 0 1 norm_fcidxs] ∧
    ∀ j, (j < 1)%nat →
         begin norm_fcidxs !!! S j =
           start (one_dim_block 3 7) !!! S j -
           rank_domain_offsets unit_context !!! j ∧
         end_ norm_fcidxs !!! S j =
           stop (one_dim_block 3 7) !!! S j -
           rank_domain_offsets unit_context !!! j.
Proof.
  apply (scalar_build_single_call true unit_bundle 0 0 one_dim_settings
           (one_dim_block 3 7)).
  - reflexivity.
  - reflexivity.
  - intros _. reflexivity.
  - reflexivity.
Defined.

(** ** The final local vars of a dim, from the rounded bounds *)

Lemma dim_final (ctx : StencilContext) (sb_idxs : ScanIndices) (j : nat) :
  let x := begin sb_idxs !!! S j - rank_domain_offsets ctx !!! j in
  let y := end_ sb_idxs !!! S j - rank_domain_offsets ctx !!! j in
  let V := _fold_pts (dims ctx) !!! j in
  let C := _cluster_pts (dims ctx) !!! j in
  let r := dim_result ctx sb_idxs j in
  dims_ok (nddims ctx) (dims ctx) = true → (j < nddims ctx)%nat →
  begin sb_idxs !!! S j ≤ end_ sb_idxs !!! S j →
  (ebgn r = x ∧ eend r = y ∧
   fvbgn r = round_up_flr x V ∧ fvend r = round_down_flr y V ∧
   ovbgn r = round_down_flr x V ∧ ovend r = round_up_flr y V) ∧
  (dim_keeps_clusters ctx sb_idxs j = true →
   fcbgn r = round_up_flr x C ∧ fcend r = round_down_flr y C ∧
   fcbgn r < fcend r) ∧
  (do_left_fvec r = true →
   round_up_flr x V < round_up_flr x C ∨
   round_down_flr y C < round_down_flr y V) ∧
  (do_right_fvec r = true → round_down_flr y C < round_down_flr y V) ∧
  (do_left_pvec r = true → x < round_up_flr x V) ∧
  (do_right_pvec r = true → round_down_flr y V < y).
Proof.
  intros x y V C r Hok Hj Hle.
  destruct (dim_result_shape ctx sb_idxs j Hok Hj Hle)
    as ((R1 & R2 & R3 & R4 & R5 & R6) & Hshape).
  destruct (masked_fields ctx sb_idxs j)
    as (_ & _ & M3 & M4 & _ & _ & _ & _ & M9 & M10 & M11 & M12).
  fold r in R1, R2, R3, R4, R5, R6, Hshape.
  set (dv0 := StencilBundleTempl.dim_bounds ctx sb_idxs (S j) j) in *.
  assert (E : ebgn dv0 = x ∧ eend dv0 = y ∧
              fvbgn dv0 = round_up_flr x V ∧
              fvend dv0 = round_down_flr y V ∧
              ovbgn dv0 = round_down_flr x V ∧
              ovend dv0 = round_up_flr y V ∧
              fcbgn dv0 = round_up_flr x C ∧
              fcend dv0 = round_down_flr y C ∧
              do_left_fvec dv0 = (round_up_flr x V <? round_up_flr x C) ∧
              do_right_fvec dv0 =
                (round_down_flr y C <? round_down_flr y V) ∧
              do_left_pvec dv0 = (x <? round_up_flr x V) ∧
              do_right_pvec dv0 = (round_down_flr y V <? y)).
  { subst dv0. cbn -[round_up_flr round_down_flr].
    rewrite !Z.gtb_ltb. repeat split; reflexivity. }
  destruct E as (E1 & E2 & E3 & E4 & E5 & E6 & E7 & E8 &
                 F1 & F2 & F3 & F4).
  split; [rewrite R1, R2, R3, R4, R5, R6; repeat split; assumption|].
  destruct Hshape as
    [(Hov & _ & _ & Hlp & Hrp & Hlf & Hrf & Hk & _) |
     [(_ & Hc & Hb & He & Hk & Hlf & Hrf & Hlp & Hrp & _) |
      (_ & Hc & Hr & Hk)]].
  - rewrite Hk, Hlf, Hrf, Hrp.
    unfold overlap in Hov. bool_to_prop Hov.
    destruct Hov as [[Hl _] _]. rewrite F3 in Hl. bool_to_prop Hl.
    repeat split; try discriminate. intros _. exact Hl.
  - rewrite Hk, Hlf, Hrf, Hlp, Hrp, F1, F2, F3, F4.
    repeat split; try discriminate.
    + intros Hf. bool_to_prop Hf. exact Hf.
    + intros Hf. bool_to_prop Hf. exact Hf.
    + intros Hf. bool_to_prop Hf. exact Hf.
  - rewrite Hr, M3, M4, M9, M10, M11, M12, E7, E8, F1, F2, F3, F4.
    rewrite E7, E8 in Hc.
    split; [intros _; repeat split; [exact Hc]|].
    repeat split; intros Hf; bool_to_prop Hf; tauto.
Qed.

(** ** Edge cases of the decomposition *)

(** The final state of dim [j] of a nano-block. *)
Lemma final_dim_state (b : StencilBundleTempl.t) (settings : KernelSettings)
    (micro_block_idxs : ScanIndices) (j : nat) :
  let ctx := StencilBundleTempl._context b in
  let n := nddims ctx in
  let sb := StencilBundleTempl.nano_block_idxs settings micro_block_idxs in
  let st := loop_state ctx sb n in
  let r := dim_result ctx sb j in
  block_ok n micro_block_idxs = true → (j < n)%nat →
  (begin sb !!! S j = start micro_block_idxs !!! S j ∧
   end_ sb !!! S j = stop micro_block_idxs !!! S j ∧
   begin sb !!! S j ≤ end_ sb !!! S j) ∧
  (begin (sb_eidxs st) !!! S j = ebgn r ∧
   end_ (sb_eidxs st) !!! S j = eend r ∧
   begin (sb_fcidxs st) !!! S j = fcbgn r ∧
   end_ (sb_fcidxs st) !!! S j = fcend r) ∧
  (is_bit_set (do_left_fvecs st) j = do_left_fvec r ∧
   is_bit_set (do_right_fvecs st) j = do_right_fvec r ∧
   is_bit_set (do_left_pvecs st) j = do_left_pvec r ∧
   is_bit_set (do_right_pvecs st) j = do_right_pvec r).
Proof.
  intros ctx n sb st r Hblk Hj.
  destruct (sb_begin_end b settings micro_block_idxs Hblk)
    as (Hb & He & _ & _ & Hle).
  destruct (final_lookups b settings micro_block_idxs Hblk j Hj)
    as ((E1 & E2) & (E3 & E4) & _).
  destruct (final_flags b settings micro_block_idxs j) as (F1 & F2 & F3 & F4).
  fold ctx n sb st r in Hb, He, Hle, E1, E2, E3, E4, F1, F2, F3, F4.
  rewrite bool_decide_eq_true_2 in F1, F2, F3, F4 by exact Hj.
  specialize (Hle j Hj).
  repeat split; try assumption; rewrite ?Hb, ?He; reflexivity.
Qed.

(** X5. When [calc_nano_block_opt] decides to call the cluster code, the
    range it hands over is, in every domain dim, a non-empty run of whole
    clusters inside the nano-block, and the largest such run: it begins
    at the first cluster boundary at or after the begin of the block and
    ends at the last one at or before its end. *)
Theorem cluster_range_whole_clusters (DEBUG : bool)
    (b : StencilBundleTempl.t) (settings : KernelSettings)
    (micro_block_idxs : ScanIndices) :
  let ctx := StencilBundleTempl._context b in
  let n := nddims ctx in
  context_ok ctx = true →
  block_ok n micro_block_idxs = true →
  ∃ st,
    StencilBundleTempl.nano_block_vars DEBUG b settings micro_block_idxs
    = Ok st [] ∧
    (do_clusters st = true →
     ∀ j, (j < n)%nat →
       let C := _cluster_pts (dims ctx) !!! j in
       let B := begin (sb_fcidxs st) !!! S j in
       let E := end_ (sb_fcidxs st) !!! S j in
       let x := start micro_block_idxs !!! S j
                - rank_domain_offsets ctx !!! j in
       let y := stop micro_block_idxs !!! S j
                - rank_domain_offsets ctx !!! j in
       (C | B) ∧ (C | E) ∧ B < E ∧ x ≤ B < x + C ∧ E ≤ y < E + C).
Proof.
  intros ctx n Hctx Hblk.
  pose proof (context_ok_dims ctx Hctx) as Hok.
  set (sb := StencilBundleTempl.nano_block_idxs settings micro_block_idxs).
  exists (loop_state ctx sb n).
  split; [apply nano_block_vars_run; assumption|].
  intros Hdc j Hj C B E x y.
  destruct (final_globals b settings micro_block_idxs) as [Hg _].
  fold ctx n sb in Hg. rewrite Hg in Hdc.
  pose proof (forallb_seq_lookup _ _ _ Hdc Hj) as Hk.
  destruct (final_dim_state b settings micro_block_idxs j Hblk Hj)
    as ((Hb & He & Hle) & (_ & _ & E3 & E4) & _).
  fold ctx n sb in Hb, He, Hle, E3, E4.
  destruct (dim_final ctx sb j Hok Hj Hle) as (_ & Hkeep & _).
  destruct (Hkeep Hk) as (K1 & K2 & K3).
  rewrite Hb in K1. rewrite He in K2. fold C x y in K1, K2.
  destruct (dims_ok_inv _ _ Hok) as (_ & _ & _ & _ & Hdim & _).
  destruct (Hdim j Hj) as (HV & m & Hm & HCm). fold C in HCm.
  assert (HC : 0 < C) by nia.
  destruct (round_up_flr_bounds x C HC) as (q & Hq & Hqb).
  destruct (round_down_flr_bounds y C HC) as (p & Hp & Hpb).
  unfold B, E. rewrite E3, E4. rewrite K1, K2 in K3. rewrite K1, K2.
  rewrite Hq, Hp in *.
  split; [exists q; reflexivity|]. split; [exists p; reflexivity|]. lia.
Qed.

Lemma cluster_range_whole_clusters_witness :
  ∃ st,
    StencilBundleTempl.nano_block_vars true one_dim_bundle one_dim_settings
      (one_dim_block 3 30) = Ok st [] ∧
    (do_clusters st = true →
     ∀ j, (j < 1)%nat →
       (_cluster_pts (dims one_dim_context) !!! j
        | begin (sb_fcidxs st) !!! S j) ∧
       (_cluster_pts (dims one_dim_context) !!! j
        | end_ (sb_fcidxs st) !!! S j) ∧
       begin (sb_fcidxs st) !!! S j < end_ (sb_fcidxs st) !!! S j).
Proof.
  destruct (cluster_range_whole_clusters true one_dim_bundle one_dim_settings
              (one_dim_block 3 30) ltac:(reflexivity) ltac:(reflexivity))
    as (st & Hrun & Hcl).
  exists st. split; [exact Hrun|].
  intros Hdc j Hj. destruct (Hcl Hdc j Hj) as (H1 & H2 & H3 & _).
  repeat split; assumption.
Defined.

(** X6. A nano-block thinner than one cluster in some domain dim gets no
    cluster call: [do_clusters] is cleared and every call made is a vector
    call. *)
Theorem thin_block_no_clusters (DEBUG : bool) (b : StencilBundleTempl.t)
    (outer inner : Z) (settings : KernelSettings)
    (micro_block_idxs : ScanIndices) :
  let ctx := StencilBundleTempl._context b in
  let n := nddims ctx in
  context_ok ctx = true →
  block_ok n micro_block_idxs = true →
  (DEBUG = true →
   caller_aligned n (dims ctx) settings micro_block_idxs = true) →
  (∃ j, (j < n)%nat ∧
        stop micro_block_idxs !!! S j - start micro_block_idxs !!! S j
        < _cluster_pts (dims ctx) !!! j) →
  ∃ st calls,
    StencilBundleTempl.nano_block_vars DEBUG b settings micro_block_idxs
    = Ok st [] ∧
    StencilBundleTempl.calc_nano_block_opt DEBUG b outer inner settings
      micro_block_idxs = Ok tt calls ∧
    do_clusters st = false ∧
    Forall (λ e, ∃ idxs mask,
              e = CalcVectors outer inner (thread_limit ctx) idxs mask)
           calls.
Proof.
  intros ctx n Hctx Hblk Hcal (j & Hj & Hthin).
  pose proof (context_ok_dims ctx Hctx) as Hok.
  set (sb := StencilBundleTempl.nano_block_idxs settings micro_block_idxs).
  exists (loop_state ctx sb n),
         (dispatch_calls ctx outer inner (loop_state ctx sb n)).
  split; [apply nano_block_vars_run; assumption|].
  split; [apply calc_nano_block_opt_run; assumption|].
  assert (Hdc : do_clusters (loop_state ctx sb n) = false).
  { destruct (final_globals b settings micro_block_idxs) as [Hg _].
    fold ctx n sb in Hg. rewrite Hg.
    apply forallb_false_iff. exists j. split; [exact Hj|].
    destruct (dim_keeps_clusters ctx sb j) eqn:Hk; [|reflexivity].
    exfalso.
    destruct (final_dim_state b settings micro_block_idxs j Hblk Hj)
      as ((Hb & He & Hle) & _).
    fold ctx n sb in Hb, He, Hle.
    destruct (dim_final ctx sb j Hok Hj Hle) as (_ & Hkeep & _).
    destruct (Hkeep Hk) as (K1 & K2 & K3).
    rewrite K1, K2, Hb, He in K3.
    destruct (dims_ok_inv _ _ Hok) as (_ & _ & _ & _ & Hdim & _).
    destruct (Hdim j Hj) as (HV & m & Hm & HCm).
    set (C := _cluster_pts (dims ctx) !!! j) in *.
    assert (HC : 0 < C) by nia.
    destruct (round_up_flr_bounds
                (start micro_block_idxs !!! S j
                 - rank_domain_offsets ctx !!! j) C HC) as (q & Hq & Hqb).
    destruct (round_down_flr_bounds
                (stop micro_block_idxs !!! S j
                 - rank_domain_offsets ctx !!! j) C HC) as (p & Hp & Hpb).
    rewrite Hq, Hp in K3.
    assert (q + 1 ≤ p) by nia. nia. }
  split; [exact Hdc|].
  unfold dispatch_calls. cbn zeta. rewrite Hdc. cbn [app].
  destruct (do_outside_clusters _); [|constructor].
  apply boundary_calls_vectors.
Qed.

Lemma thin_block_no_clusters_witness :
  ∃ st calls,
    StencilBundleTempl.nano_block_vars true one_dim_bundle one_dim_settings
      (one_dim_block 3 10) = Ok st [] ∧
    StencilBundleTempl.calc_nano_block_opt true one_dim_bundle 0 0
      one_dim_settings (one_dim_block 3 10) = Ok tt calls ∧
    do_clusters st = false ∧
    Forall (λ e, ∃ idxs mask, e = CalcVectors 0 0 1 idxs mask) calls.
Proof.
  apply (thin_block_no_clusters true one_dim_bundle 0 0 one_dim_settings
           (one_dim_block 3 10)).
  - reflexivity.
  - reflexivity.
  - intros _. reflexivity.
  - exists 0%nat. split; [cbn; lia | reflexivity].
Defined.

(** X7. In a domain dim without clustering (cluster length equal to the
    fold length) there are never full vectors to do outside the clusters:
    neither the left nor the right full-vector flag of the dim is set. *)
Theorem no_full_vectors_without_clustering (DEBUG : bool)
    (b : StencilBundleTempl.t) (settings : KernelSettings)
    (micro_block_idxs : ScanIndices) (j : nat) :
  let ctx := StencilBundleTempl._context b in
  let n := nddims ctx in
  context_ok ctx = true →
  block_ok n micro_block_idxs = true →
  (j < n)%nat →
  _cluster_pts (dims ctx) !!! j = _fold_pts (dims ctx) !!! j →
  ∃ st,
    StencilBundleTempl.nano_block_vars DEBUG b settings micro_block_idxs
    = Ok st [] ∧
    is_bit_set (do_left_fvecs st) j = false ∧
    is_bit_set (do_right_fvecs st) j = false.
Proof.
  intros ctx n Hctx Hblk Hj HCV.
  pose proof (context_ok_dims ctx Hctx) as Hok.
  set (sb := StencilBundleTempl.nano_block_idxs settings micro_block_idxs).
  exists (loop_state ctx sb n).
  split; [apply nano_block_vars_run; assumption|].
  destruct (final_dim_state b settings micro_block_idxs j Hblk Hj)
    as ((_ & _ & Hle) & _ & (F1 & F2 & _)).
  fold ctx n sb in Hle, F1, F2.
  destruct (dim_final ctx sb j Hok Hj Hle) as (_ & _ & Hlf & Hrf & _).
  rewrite HCV in Hlf, Hrf. rewrite F1, F2. split.
  - destruct (do_left_fvec _); [|reflexivity].
    destruct (Hlf eq_refl); lia.
  - destruct (do_right_fvec _); [|reflexivity].
    specialize (Hrf eq_refl). lia.
Qed.

Lemma no_full_vectors_without_clustering_witness :
  ∃ st,
    StencilBundleTempl.nano_block_vars true two_dim_bundle two_dim_settings
      (two_dim_block 1 30 3 29) = Ok st [] ∧
    is_bit_set (do_left_fvecs st) 0 = false ∧
    is_bit_set (do_right_fvecs st) 0 = false.
Proof.
  apply (no_full_vectors_without_clustering true two_dim_bundle
           two_dim_settings (two_dim_block 1 30 3 29) 0).
  - reflexivity.
  - reflexivity.
  - cbn. lia.
  - reflexivity.
Defined.

(** ** The calls of the boundary parts, counted and classified *)

Lemma rank_of_pos (cd : Z) (n : nat) :
  (0 < rank_of cd n)%nat → ∃ j, (j < n)%nat ∧ is_bit_set cd j = true.
Proof.
  induction n as [|n IH]; cbn; [lia|]. intros Hr.
  destruct (is_bit_set cd n) eqn:Hb.
  - exists n. split; [lia | exact Hb].
  - destruct IH as (j & Hj & Hbj); [lia|]. exists j. split; [lia | exact Hbj].
Qed.

(** Every combo the loops enumerate selects some dim. *)
Lemma enumerated_combo (n k r : nat) :
  (1 ≤ k)%nat → (r < n_choose_k n k)%nat →
  ∃ j, (j < n)%nat ∧ is_bit_set (n_choose_k_set n k r) j = true.
Proof.
  intros Hk Hr. unfold n_choose_k_set.
  assert (Hcd : nth r (combos n k) 0 ∈ combos n k).
  { apply list_elem_of_In, nth_In. rewrite length_combos. exact Hr. }
  destruct (combos_bits _ _ _ Hcd) as [_ Hrank].
  apply rank_of_pos. lia.
Qed.

Lemma length_concat_sum {A B : Type} (f : A → list B) (l : list A) :
  Z.of_nat (length (concat (f <$> l))) =
  sumZ ((λ a, Z.of_nat (length (f a))) <$> l).
Proof.
  induction l as [|a l IH]; [reflexivity|].
  cbn [fmap list_fmap concat sumZ foldr]. rewrite length_app.
  unfold sumZ in IH. rewrite <- IH. lia.
Qed.

Lemma sumZ_le {A : Type} (f g : A → Z) (l : list A) :
  (∀ a, a ∈ l → f a ≤ g a) → sumZ (f <$> l) ≤ sumZ (g <$> l).
Proof.
  intros Hfg. induction l as [|a l IH]; [reflexivity|].
  cbn [fmap list_fmap sumZ foldr].
  assert (f a ≤ g a) by (apply Hfg; constructor).
  assert (sumZ (f <$> l) ≤ sumZ (g <$> l))
    by (apply IH; intros a' Ha'; apply Hfg; constructor; exact Ha').
  unfold sumZ in *. lia.
Qed.

Lemma product_const (c : Z) (n : nat) :
  product ((λ _, c) <$> seq 0 n) = c ^ Z.of_nat n.
Proof.
  induction n as [|n IH]; [reflexivity|].
  rewrite seq_S, fmap_app. cbn [fmap list_fmap]. rewrite product_snoc, IH.
  rewrite Nat2Z.inj_succ, Z.pow_succ_r by lia. lia.
Qed.

Lemma part_value_ones (n : nat) (cd lr : Z) :
  part_value (λ _, 1) (λ _, 1) (λ _, 1) n cd lr = 1.
Proof.
  unfold part_value.
  rewrite (product_ext _ (λ _, 1)).
  - rewrite product_const. apply Z.pow_1_l. lia.
  - intros j _. unfold side_value. destruct (side_of cd lr j); reflexivity.
Qed.

(** The loops over the boundary parts visit [3^n - 1] parts. *)
Lemma parts_count (n : nat) :
  sumZ ((λ k, sumZ ((λ r, sumZ ((λ _, 1)
                                 <$> seqZ 0 (Z.shiftl 1 (Z.of_nat k))))
                    <$> seq 0 (n_choose_k n k)))
        <$> seq 1 n) = 3 ^ Z.of_nat n - 1.
Proof.
  pose proof (all_parts_sum (λ _, 1) (λ _, 1) (λ _, 1) n) as Hs.
  rewrite (product_const (1 + 1 + 1)), (product_const 1) in Hs.
  rewrite Z.pow_1_l in Hs by lia. change (1 + 1 + 1) with 3 in Hs.
  rewrite <- Hs.
  apply sumZ_ext. intros k _. apply sumZ_ext. intros r _.
  apply sumZ_ext. intros lr _. symmetry. apply part_value_ones.
Qed.

Lemma boundary_calls_count (ctx : StencilContext) (outer inner : Z)
    (st : NanoBlockVars) (nfc nfv nov : ScanIndices) :
  Z.of_nat (length (boundary_calls ctx outer inner st nfc nfv nov)) ≤
  2 * (3 ^ Z.of_nat (nddims ctx) - 1).
Proof.
  rewrite <- parts_count.
  unfold boundary_calls. rewrite length_concat_sum.
  rewrite <- (Z.mul_comm _ 2), <- sumZ_scale.
  apply sumZ_le. intros k _. unfold level_calls.
  rewrite length_concat_sum, <- sumZ_scale.
  apply sumZ_le. intros r _. unfold combo_calls.
  rewrite length_concat_sum, <- sumZ_scale.
  apply sumZ_le. intros lr _. unfold part_calls.
  rewrite length_app. destruct (fv_needed _), (pv_needed _); cbn; lia.
Qed.

(** X8. [calc_nano_block_opt] makes at most one cluster call and at most
    [2 * (3^nddims - 1)] vector calls (a full-vector and a partial-vector
    call for each of the [3^nddims - 1] boundary parts: 8 parts in 2-D,
    26 in 3-D), whatever the block. *)
Theorem call_count_bound (DEBUG : bool) (b : StencilBundleTempl.t)
    (outer inner : Z) (settings : KernelSettings)
    (micro_block_idxs : ScanIndices) :
  let ctx := StencilBundleTempl._context b in
  let n := nddims ctx in
  context_ok ctx = true →
  block_ok n micro_block_idxs = true →
  (DEBUG = true →
   caller_aligned n (dims ctx) settings micro_block_idxs = true) →
  ∃ clusters vectors,
    StencilBundleTempl.calc_nano_block_opt DEBUG b outer inner settings
      micro_block_idxs = Ok tt (clusters ++ vectors) ∧
    (length clusters ≤ 1)%nat ∧
    Z.of_nat (length vectors) ≤ 2 * (3 ^ Z.of_nat n - 1) ∧
    Forall (λ e, ∃ idxs,
              e = CalcClusters outer inner (thread_limit ctx) idxs)
           clusters ∧
    Forall (λ e, ∃ idxs mask,
              e = CalcVectors outer inner (thread_limit ctx) idxs mask)
           vectors.
Proof.
  intros ctx n Hctx Hblk Hcal.
  pose proof (context_ok_dims ctx Hctx) as Hok.
  set (sb := StencilBundleTempl.nano_block_idxs settings micro_block_idxs).
  set (st := loop_state ctx sb n).
  set (nfc := normalized_scan (dims ctx) n (sb_fcidxs st)).
  set (nfv := normalized_scan (dims ctx) n (sb_fvidxs st)).
  set (nov := normalized_scan (dims ctx) n (sb_ovidxs st)).
  exists (if do_clusters st
          then [CalcClusters outer inner (thread_limit ctx) nfc] else []),
         (if do_outside_clusters st
          then boundary_calls ctx outer inner st nfc nfv nov else []).
  split; [apply calc_nano_block_opt_run; assumption|].
  assert (Hpow : 1 ≤ 3 ^ Z.of_nat n) by (apply Z.pow_le_mono_r with (b := 0); lia).
  split; [destruct (do_clusters st); cbn; lia|].
  split.
  { destruct (do_outside_clusters st); [apply boundary_calls_count|].
    cbn. lia. }
  split.
  - destruct (do_clusters st); repeat constructor. eauto.
  - destruct (do_outside_clusters st); [|constructor].
    apply boundary_calls_vectors.
Qed.

Lemma call_count_bound_witness :
  ∃ clusters vectors,
    StencilBundleTempl.calc_nano_block_opt true two_dim_bundle 0 0
      two_dim_settings (two_dim_block 1 30 3 29) =
    Ok tt (clusters ++ vectors) ∧
    (length clusters ≤ 1)%nat ∧ Z.of_nat (length vectors) ≤ 16.
Proof.
  destruct (call_count_bound true two_dim_bundle 0 0 two_dim_settings
              (two_dim_block 1 30 3 29) ltac:(reflexivity)
              ltac:(reflexivity) ltac:(reflexivity))
    as (cl & ve & Hrun & Hc & Hv & _).
  exists cl, ve. split; [exact Hrun|]. split; [exact Hc | exact Hv].
Defined.

(** ** Blocks that begin and end on vector boundaries *)

(** X9. A block that begins and ends on vector boundaries in every domain
    dim (rank-relative) needs no masking: no partial-vector flag is set,
    no partial-vector call is made, and every vector call carries the
    all-ones mask. *)
Theorem vector_aligned_block_unmasked (DEBUG : bool)
    (b : StencilBundleTempl.t) (outer inner : Z) (settings : KernelSettings)
    (micro_block_idxs : ScanIndices) :
  let ctx := StencilBundleTempl._context b in
  let n := nddims ctx in
  context_ok ctx = true →
  block_ok n micro_block_idxs = true →
  (DEBUG = true →
   caller_aligned n (dims ctx) settings micro_block_idxs = true) →
  (∀ j, (j < n)%nat →
        (_fold_pts (dims ctx) !!! j
         | start micro_block_idxs !!! S j - rank_domain_offsets ctx !!! j) ∧
        (_fold_pts (dims ctx) !!! j
         | stop micro_block_idxs !!! S j - rank_domain_offsets ctx !!! j)) →
  ∃ st calls,
    StencilBundleTempl.nano_block_vars DEBUG b settings micro_block_idxs
    = Ok st [] ∧
    StencilBundleTempl.calc_nano_block_opt DEBUG b outer inner settings
      micro_block_idxs = Ok tt calls ∧
    (∀ j, (j < n)%nat →
          is_bit_set (do_left_pvecs st) j = false ∧
          is_bit_set (do_right_pvecs st) j = false) ∧
    Forall (λ e, ∃ idxs,
              e = CalcClusters outer inner (thread_limit ctx) idxs ∨
              e = CalcVectors outer inner (thread_limit ctx) idxs all_ones)
           calls.
Proof.
  intros ctx n Hctx Hblk Hcal Hal.
  pose proof (context_ok_dims ctx Hctx) as Hok.
  set (sb := StencilBundleTempl.nano_block_idxs settings micro_block_idxs).
  set (st := loop_state ctx sb n).
  exists st, (dispatch_calls ctx outer inner st).
  split; [apply nano_block_vars_run; assumption|].
  split; [apply calc_nano_block_opt_run; assumption|].
  assert (Hflags : ∀ j, (j < n)%nat →
            is_bit_set (do_left_pvecs st) j = false ∧
            is_bit_set (do_right_pvecs st) j = false).
  { intros j Hj.
    destruct (final_dim_state b settings micro_block_idxs j Hblk Hj)
      as ((Hb & He & Hle) & _ & (_ & _ & F3 & F4)).
    fold ctx n sb st in Hb, He, Hle, F3, F4.
    destruct (dim_final ctx sb j Hok Hj Hle) as (_ & _ & _ & _ & Hlp & Hrp).
    rewrite Hb in Hlp. rewrite He in Hrp.
    destruct (dims_ok_inv _ _ Hok) as (_ & _ & _ & _ & Hdim & _).
    destruct (Hdim j Hj) as (HV & _).
    destruct (Hal j Hj) as [Hx Hy].
    destruct (round_flr_multiple _ _ HV Hx) as [Ux _].
    destruct (round_flr_multiple _ _ HV Hy) as [_ Dy].
    rewrite Ux in Hlp. rewrite Dy in Hrp. rewrite F3, F4. split.
    - destruct (do_left_pvec _); [|reflexivity]. specialize (Hlp eq_refl). lia.
    - destruct (do_right_pvec _); [|reflexivity].
      specialize (Hrp eq_refl). lia. }
  split; [exact Hflags|].
  unfold dispatch_calls. cbn zeta. apply Forall_app. split.
  { destruct (do_clusters st); repeat constructor. eauto. }
  destruct (do_outside_clusters st); [|constructor].
  unfold boundary_calls, level_calls, combo_calls.
  apply Forall_concat, Forall_fmap, Forall_forall. intros k Hk.
  apply elem_of_seq in Hk.
  apply Forall_concat, Forall_fmap, Forall_forall. intros r Hr.
  apply elem_of_seq in Hr.
  apply Forall_concat, Forall_fmap, Forall_forall. intros lr _.
  destruct (enumerated_combo (nddims ctx) k r) as (j & Hj & Hbit);
    [lia | lia |].
  set (cd := n_choose_k_set (nddims ctx) k r) in *.
  assert (Hpv : pv_needed (StencilBundleTempl.calc_part (nddims ctx) st
                   (normalized_scan (dims ctx) (nddims ctx) (sb_fcidxs st))
                   (normalized_scan (dims ctx) (nddims ctx) (sb_fvidxs st))
                   (normalized_scan (dims ctx) (nddims ctx) (sb_ovidxs st))
                   cd lr) = false).
  { rewrite calc_part_spec. cbn [pv_needed part_spec].
    apply forallb_false_iff. exists j. split; [exact Hj|].
    destruct (Hflags j Hj) as [F3 F4].
    unfold pv_dim_needed, side_of. rewrite Hbit.
    destruct (is_bit_set lr _); assumption. }
  unfold compose, part_calls. cbn beta. rewrite Hpv, app_nil_r.
  destruct (fv_needed _); repeat constructor. eauto.
Qed.

Lemma vector_aligned_block_unmasked_witness :
  ∃ st calls,
    StencilBundleTempl.nano_block_vars true one_dim_bundle one_dim_settings
      (one_dim_block 4 28) = Ok st [] ∧
    StencilBundleTempl.calc_nano_block_opt true one_dim_bundle 0 0
      one_dim_settings (one_dim_block 4 28) = Ok tt calls ∧
    (∀ j, (j < 1)%nat →
          is_bit_set (do_left_pvecs st) j = false ∧
          is_bit_set (do_right_pvecs st) j = false) ∧
    Forall (λ e, ∃ idxs,
              e = CalcClusters 0 0 1 idxs ∨
              e = CalcVectors 0 0 1 idxs all_ones) calls.
Proof.
  apply (vector_aligned_block_unmasked true one_dim_bundle 0 0
           one_dim_settings (one_dim_block 4 28)).
  - reflexivity.
  - reflexivity.
  - intros _. reflexivity.
  - intros j Hj. cbn in Hj. replace j with 0%nat by lia. cbn.
    split; [exists 1 | exists 7]; reflexivity.
Defined.

(** ** The chooser between the scalar and the optimized code *)

Lemma rank_relative_lookup (ctx : StencilContext) (pt : Indices) (j : nat) :
  length pt = S (nddims ctx) →
  length (rank_domain_offsets ctx) = nddims ctx → (j < nddims ctx)%nat →
  rank_relative ctx pt !!! S j = pt !!! S j - rank_domain_offsets ctx !!! j.
Proof.
  intros Hpt Hro Hj. destruct pt as [|p0 pt']; [discriminate|].
  cbn in Hpt. unfold rank_relative. cbn [tail].
  change ((?a :: ?l) !!! S j) with (l !!! j).
  apply list_lookup_total_correct. rewrite lookup_zip_with.
  rewrite (list_lookup_lookup_total_lt pt' j) by lia.
  rewrite (list_lookup_lookup_total_lt (rank_domain_offsets ctx) j) by lia.
  reflexivity.
Qed.

(** X10. Whichever code [calc_nano_block] chooses, the same elements are
    evaluated, each exactly once: with [force_scalar] the scalar code is
    called once at every point of the block [start, stop) in the order of
    the scan and no vector or cluster code runs; without it the
    optimized calls write exactly the rank-relative images of those
    points, each once. *)
Theorem chooser_paths_agree (DEBUG : bool) (b : StencilBundleTempl.t)
    (outer inner : Z) (settings : KernelSettings)
    (micro_block_idxs : ScanIndices) :
  let ctx := StencilBundleTempl._context b in
  let n := nddims ctx in
  let pts := region_points (start micro_block_idxs) (stop micro_block_idxs) in
  context_ok ctx = true →
  block_ok n micro_block_idxs = true →
  (DEBUG = true →
   caller_aligned n (dims ctx) settings micro_block_idxs = true) →
  length (stride micro_block_idxs) = length (start micro_block_idxs) →
  NoDup pts ∧
  (force_scalar settings = true →
   StencilBundleTempl.calc_nano_block DEBUG b outer inner settings
     micro_block_idxs = Ok tt (CalcScalar outer <$> pts)) ∧
  (force_scalar settings = false →
   ∃ calls,
     StencilBundleTempl.calc_nano_block DEBUG b outer inner settings
       micro_block_idxs = Ok tt calls ∧
     Forall (λ e, ¬ scalar_event e) calls ∧
     ∀ pt, length pt = S n →
           pt !!! step_posn = start micro_block_idxs !!! step_posn →
           count_writes (dims ctx) n calls (rank_relative ctx pt) =
           if bool_decide (pt ∈ pts) then 1%nat else 0%nat).
Proof.
  intros ctx n pts Hctx Hblk Hcal Hstr.
  pose proof (context_ok_dims ctx Hctx) as Hok.
  assert (Hro : length (rank_domain_offsets ctx) = n).
  { unfold context_ok in Hctx. apply andb_true_iff in Hctx as [_ Hl].
    apply bool_decide_eq_true in Hl. exact Hl. }
  destruct (block_ok_inv _ _ Hblk) as (Hl1 & Hl2 & _).
  destruct (region_points_spec (start micro_block_idxs)
              (stop micro_block_idxs)) as [Hnd Hmem]; [lia | lia |].
  fold pts in Hnd, Hmem.
  split; [exact Hnd|]. split.
  - intros Hfs. unfold StencilBundleTempl.calc_nano_block. rewrite Hfs.
    apply calc_nano_block_dbg_run. exact Hstr.
  - intros Hfs.
    set (sb := StencilBundleTempl.nano_block_idxs settings micro_block_idxs).
    set (st := loop_state ctx sb n).
    exists (dispatch_calls ctx outer inner st).
    split.
    { unfold StencilBundleTempl.calc_nano_block. rewrite Hfs.
      apply calc_nano_block_opt_run; assumption. }
    split.
    { unfold dispatch_calls. cbn zeta. apply Forall_app. split.
      - destruct (do_clusters st); repeat constructor. intros Hs. exact Hs.
      - destruct (do_outside_clusters st); [|constructor].
        eapply Forall_impl; [apply boundary_calls_vectors|].
        intros e (idxs & mask & ->) Hs. exact Hs. }
    intros pt Hpt Hp0.
    assert (Hrl : length (rank_relative ctx pt) = S n).
    { unfold rank_relative. cbn [length]. rewrite length_zip_with.
      destruct pt; [discriminate|]. cbn in Hpt. cbn [tail]. lia. }
    pose proof (cover_count b settings micro_block_idxs outer inner
                  (rank_relative ctx pt) Hok Hblk Hrl) as Hc.
    fold ctx n sb st in Hc. rewrite <- count_writes_sum in Hc.
    assert (Hiff : in_range n (begin (sb_eidxs st)) (end_ (sb_eidxs st))
                     (rank_relative ctx pt) = bool_decide (pt ∈ pts)).
    { assert (Hdim : ∀ j, (j < n)%nat →
                ((begin (sb_eidxs st) !!! S j <=?
                  rank_relative ctx pt !!! S j) &&
                 (rank_relative ctx pt !!! S j <?
                  end_ (sb_eidxs st) !!! S j) = true ↔
                 start micro_block_idxs !!! S j ≤ pt !!! S j
                 < stop micro_block_idxs !!! S j)).
      { intros j Hj.
        destruct (final_dim_state b settings micro_block_idxs j Hblk Hj)
          as ((Hb & He & Hle) & (E1 & E2 & _) & _).
        fold ctx n sb st in Hb, He, Hle, E1, E2.
        destruct (dim_final ctx sb j Hok Hj Hle) as ((R1 & R2 & _) & _).
        rewrite E1, E2, R1, R2, Hb, He.
        rewrite rank_relative_lookup by assumption.
        rewrite andb_true_iff, Z.leb_le, Z.ltb_lt. lia. }
      unfold in_range.
      destruct (bool_decide (pt ∈ pts)) eqn:Hin.
      - apply bool_decide_eq_true in Hin. apply Hmem in Hin.
        destruct Hin as (_ & _ & Hall).
        apply forallb_forall. intros j Hj. apply in_seq in Hj.
        apply Hdim; [lia|]. apply Hall. lia.
      - apply bool_decide_eq_false in Hin.
        apply not_true_is_false. intros Hall. apply Hin, Hmem.
        split; [lia|]. split; [exact Hp0|].
        intros j Hj. apply Hdim; [lia|].
        apply (forallb_seq_lookup _ _ _ Hall). lia. }
    rewrite Hiff in Hc.
    destruct (bool_decide (pt ∈ pts)); cbn [b2z] in Hc; lia.
Qed.

Lemma chooser_paths_agree_witness :
  let pts := region_points (start (two_dim_block 1 30 3 29))
               (stop (two_dim_block 1 30 3 29)) in
  NoDup pts ∧
  ∃ calls,
    StencilBundleTempl.calc_nano_block true two_dim_bundle 0 0
      two_dim_settings (two_dim_block 1 30 3 29) = Ok tt calls ∧
    Forall (λ e, ¬ scalar_event e) calls ∧
    ∀ pt, length pt = 3%nat → pt !!! step_posn = 0 →
          count_writes (dims two_dim_context) 2 calls
            (rank_relative two_dim_context pt) =
          if bool_decide (pt ∈ pts) then 1%nat else 0%nat.
Proof.
  destruct (chooser_paths_agree true two_dim_bundle 0 0 two_dim_settings
              (two_dim_block 1 30 3 29) ltac:(reflexivity)
              ltac:(reflexivity) ltac:(reflexivity) ltac:(reflexivity))
    as (Hnd & _ & Hopt).
  split; [exact Hnd|]. apply Hopt. reflexivity.
Defined.

(** ** Dependencies and scratch children *)

Lemma link_calls_snoc (cs : list LinkCall) (c : LinkCall) :
  link_calls (cs ++ [c]) = link_call (link_calls cs) c.
Proof. unfold link_calls. rewrite foldl_app. reflexivity. Qed.

(** X11. After any sequence of [add_dep] and [add_scratch_child] calls
    on a new bundle, [get_reqd_bundles] lists the scratch children in the
    order they were added, a child added twice being listed twice, and
    the bundle itself last, whatever dependencies were added in between;
    [get_deps] holds exactly the bundles passed to [add_dep]. *)
Theorem reqd_bundles_children_then_self (this : nat) (cs : list LinkCall) :
  get_reqd_bundles this (link_calls cs) = added_children cs ++ [this] ∧
  last (get_reqd_bundles this (link_calls cs)) = Some this ∧
  length (get_reqd_bundles this (link_calls cs)) =
    S (length (added_children cs)) ∧
  ∀ eg, eg ∈ get_deps (link_calls cs) ↔ AddDep eg ∈ cs.
Proof.
  assert (Hch : get_scratch_children (link_calls cs) = added_children cs).
  { induction cs as [|c cs IH] using rev_ind; [reflexivity|].
    rewrite link_calls_snoc. unfold added_children in *.
    rewrite bind_app. cbn [mbind list_bind]. rewrite app_nil_r, <- IH.
    destruct c; cbn; [rewrite app_nil_r|]; reflexivity. }
  unfold get_reqd_bundles. cbn zeta. rewrite Hch.
  split; [reflexivity|]. split; [apply last_snoc|].
  split; [rewrite length_app; cbn; lia|].
  intros eg. clear Hch.
  induction cs as [|c cs IH] using rev_ind.
  - cbn. rewrite elem_of_nil. set_solver.
  - rewrite link_calls_snoc, elem_of_app, list_elem_of_singleton, <- IH.
    destruct c as [eg'|eg']; cbn; unfold get_deps; cbn.
    + rewrite elem_of_union, elem_of_singleton.
      split; [intros [->|H]; [right; reflexivity | left; exact H]|].
      intros [H|H]; [right; exact H | left; congruence].
    + split; [intros H; left; exact H|]. intros [H|H]; [exact H|discriminate].
Qed.

(** ** The masks of a dim and its partial-vector flags *)

(** The masks have no bit outside the lanes of the fold. *)
Lemma masked_bits_outside (ctx : StencilContext) (sb_idxs : ScanIndices)
    (j : nat) (t : Z) :
  let d := dims ctx in
  let m0 := masked d j (StencilBundleTempl.dim_bounds ctx sb_idxs (S j) j) in
  dims_ok (nddims ctx) d = true →
  ¬ (0 ≤ t < product (_fold_pts d)) →
  Z.testbit (pmask m0) t = false ∧ Z.testbit (rmask m0) t = false.
Proof.
  intros d m0 Hok Ht.
  destruct (dims_ok_inv _ _ Hok) as (_ & _ & Hsz & Hpos & _ & HP).
  fold d in Hsz, Hpos, HP. subst m0. unfold masked.
  set (dv0 := StencilBundleTempl.dim_bounds ctx sb_idxs (S j) j).
  destruct (do_left_pvec dv0 || do_right_pvec dv0).
  - cbn [pmask rmask StencilBundleTempl.with_masks].
    rewrite spec_masks_unfold, <- visited_masks.
    assert (HP0 : 0 < product (_fold_pts d)) by lia.
    destruct (visited_masks_testbit d j dv0 t Hsz HP0) as [H1 H2].
    rewrite H1, H2. rewrite !bool_decide_eq_false_2 by exact Ht.
    split; reflexivity.
  - cbn. rewrite Z.testbit_0_l. split; reflexivity.
Qed.

Lemma lane_point_range (d : Dims) (n j : nat) (t : Z) :
  dims_ok n d = true → (j < n)%nat →
  0 ≤ lane_point d t !!! j < _fold_pts d !!! j.
Proof.
  intros Hok Hj.
  destruct (dims_ok_inv _ _ Hok) as (Hlen & _ & Hsz & Hpos & _ & _).
  pose proof (unlayout_in_space (is_first_inner d) (_fold_sizes d) t) as Hsp.
  rewrite Hsz in Hsp. specialize (Hsp Hpos).
  unfold lane_point. rewrite Hsz. unfold in_space in Hsp.
  assert (Hl : (j < length (_fold_pts d))%nat) by lia.
  destruct (lookup_lt_is_Some_2 _ _ Hl) as [s Hs].
  destruct (Forall2_lookup_l _ _ _ _ _ Hsp Hs) as (p & Hp & Hr).
  rewrite (list_lookup_total_correct _ _ _ Hs).
  rewrite (list_lookup_total_correct _ _ _ Hp). exact Hr.
Qed.

(** X12. The masks of a dim agree with its partial-vector flags: neither
    mask has a bit outside the lanes of the fold, the remainder mask is
    non-zero exactly when remainder vectors are to be done, a non-zero
    peel mask comes with a partial-vector flag, and the peel mask of a
    dim with peel vectors is non-zero unless the block is empty in that
    dim. *)
Theorem masks_agree_with_flags (DEBUG : bool) (b : StencilBundleTempl.t)
    (settings : KernelSettings) (micro_block_idxs : ScanIndices) (j : nat) :
  let ctx := StencilBundleTempl._context b in
  let n := nddims ctx in
  context_ok ctx = true →
  block_ok n micro_block_idxs = true →
  (j < n)%nat →
  ∃ st,
    StencilBundleTempl.nano_block_vars DEBUG b settings micro_block_idxs
    = Ok st [] ∧
    (∀ t, ¬ (0 ≤ t < product (_fold_pts (dims ctx))) →
          Z.testbit (peel_masks st !!! j) t = false ∧
          Z.testbit (rem_masks st !!! j) t = false) ∧
    (rem_masks st !!! j ≠ 0 ↔ is_bit_set (do_right_pvecs st) j = true) ∧
    (peel_masks st !!! j ≠ 0 →
     is_bit_set (do_left_pvecs st) j = true ∨
     is_bit_set (do_right_pvecs st) j = true) ∧
    (is_bit_set (do_left_pvecs st) j = true →
     start micro_block_idxs !!! S j < stop micro_block_idxs !!! S j →
     peel_masks st !!! j ≠ 0).
Proof.
  intros ctx n Hctx Hblk Hj.
  pose proof (context_ok_dims ctx Hctx) as Hok.
  set (sb := StencilBundleTempl.nano_block_idxs settings micro_block_idxs).
  set (st := loop_state ctx sb n).
  exists st. split; [apply nano_block_vars_run; assumption|].
  destruct (final_dim_state b settings micro_block_idxs j Hblk Hj)
    as ((Hb & He & Hle) & _ & (_ & _ & F3 & F4)).
  destruct (final_masks b settings micro_block_idxs j Hj) as [M1 M2].
  fold ctx n sb st in Hb, He, Hle, F3, F4, M1, M2.
  rewrite M1, M2, F3, F4.
  destruct (dims_ok_inv _ _ Hok) as (Hlen & _ & Hsz & Hpos & Hdim & HP).
  destruct (Hdim j Hj) as (HV & _).
  destruct (dim_bounds_facts ctx sb j Hok Hj Hle)
    as (Hxy & _ & _ & _ & _ & _ & _ & _ & _ &
        R1 & R2 & R3 & R4 & _).
  destruct (masked_fields ctx sb j)
    as (_ & _ & _ & _ & _ & _ & _ & _ & _ & _ & M11 & M12).
  destruct (dim_result_shape ctx sb j Hok Hj Hle) as (_ & Hshape).
  set (d := dims ctx) in *.
  set (V := _fold_pts d !!! j) in *.
  set (dv0 := StencilBundleTempl.dim_bounds ctx sb (S j) j) in *.
  set (m0 := masked d j dv0) in *.
  set (r := dim_result ctx sb j) in *.
  assert (Hrp : do_right_pvec dv0 = true ↔ fvend dv0 < eend dv0).
  { subst dv0. cbn -[round_up_flr round_down_flr].
    rewrite Z.gtb_ltb. apply Z.ltb_lt. }
  assert (Hex : ebgn dv0 = start micro_block_idxs !!! S j
                           - rank_domain_offsets ctx !!! j ∧
                eend dv0 = stop micro_block_idxs !!! S j
                           - rank_domain_offsets ctx !!! j).
  { subst dv0. cbn -[round_up_flr round_down_flr].
    split; reflexivity. }
  pose proof (λ t Ht, masked_bits ctx sb j Hok Hj t Ht) as Hin.
  pose proof (λ t Ht, masked_bits_outside ctx sb j t Hok Ht) as Hout.
  fold d dv0 m0 in Hin, Hout. cbn zeta in Hout. fold d dv0 m0 in Hout.
  assert (Hlane : ∀ c : Z → Z, (∀ s, 0 < s → 0 ≤ c s < s) →
            ∃ t, 0 ≤ t < product (_fold_pts d) ∧ lane_point d t !!! j = c V).
  { intros c Hc. apply lane_with_offset; try assumption. lia. }
  (* the masks as first made *)
  assert (Hr0 : rmask m0 ≠ 0 ↔ do_right_pvec dv0 = true).
  { split.
    - intros Hne. destruct (do_right_pvec dv0) eqn:Hf; [reflexivity|].
      exfalso. apply Hne. apply Z.bits_inj_0. intros t.
      destruct (decide (0 ≤ t < product (_fold_pts d))) as [Ht|Ht].
      + destruct (Hin t Ht) as [_ ->]. unfold rem_lane.
        pose proof (lane_point_range d n j t Hok Hj) as Hp. fold V in Hp.
        assert (¬ fvend dv0 < eend dv0)
          by (intros H; apply Hrp in H; discriminate).
        apply andb_false_iff. right. apply Z.ltb_ge. lia.
      + apply Hout, Ht.
    - intros Hf. destruct (Hlane (λ _, 0)) as (t & Ht & Hl); [lia|].
      apply (testbit_nonzero _ t). destruct (Hin t Ht) as [_ ->].
      apply Hrp in Hf as Hlt.
      rewrite Hf, orb_true_r. unfold rem_lane. rewrite Hl.
      cbn [andb]. apply Z.ltb_lt. lia. }
  assert (Hp0 : pmask m0 ≠ 0 → do_left_pvec dv0 || do_right_pvec dv0 = true).
  { intros Hne. destruct (do_left_pvec dv0 || do_right_pvec dv0) eqn:Hf;
      [reflexivity|].
    exfalso. apply Hne. apply Z.bits_inj_0. intros t.
    destruct (decide (0 ≤ t < product (_fold_pts d))) as [Ht|Ht].
    + destruct (Hin t Ht) as [-> _]. reflexivity.
    + apply Hout, Ht. }
  assert (Hp1 : do_left_pvec dv0 = true → pmask m0 ≠ 0).
  { intros Hf. destruct (Hlane (λ s, s - 1)) as (t & Ht & Hl); [lia|].
    apply (testbit_nonzero _ t). destruct (Hin t Ht) as [-> _].
    rewrite Hf. cbn [orb andb]. unfold peel_lane. rewrite Hl.
    rewrite Z.geb_leb. apply Z.leb_le. lia. }
  destruct Hshape as
    [(Hov & Hpm & Hrm & Hlf & Hrf & _) |
     [(_ & _ & _ & _ & _ & _ & _ & Hlf & Hrf & Hpm & Hrm) |
      (_ & _ & Hr & _)]].
  - (* peel and remainder in one vector *)
    rewrite Hpm, Hrm, Hlf, Hrf.
    unfold overlap in Hov. bool_to_prop Hov.
    destruct Hov as [[Hl Hrr] Hoe].
    split.
    { intros t Ht. destruct (Hout t Ht) as [H1 _].
      rewrite Z.land_spec, H1, Z.testbit_0_l. split; reflexivity. }
    split; [split; [intros H; exfalso; apply H; reflexivity | discriminate]|].
    split; [intros _; left; reflexivity|].
    intros _ Hne.
    destruct (Hlane (λ s, (ebgn dv0 - ovbgn dv0) mod s)) as (t & Ht & Hlt).
    { intros s Hs. apply Z.mod_pos_bound. exact Hs. }
    rewrite Z.mod_small in Hlt by lia.
    apply (testbit_nonzero _ t). rewrite Z.land_spec.
    destruct (Hin t Ht) as [-> ->]. rewrite Hl. cbn [orb andb].
    unfold peel_lane, rem_lane. rewrite Hlt.
    apply andb_true_iff. rewrite Z.geb_leb, Z.leb_le, Z.ltb_lt. lia.
  - rewrite Hpm, Hrm, Hlf, Hrf.
    split; [exact Hout|]. split; [exact Hr0|].
    split.
    + intros Hne. apply Hp0 in Hne. apply orb_true_iff in Hne. exact Hne.
    + intros Hf _. apply Hp1, Hf.
  - rewrite Hr, M11, M12.
    split; [exact Hout|]. split; [exact Hr0|].
    split.
    + intros Hne. apply Hp0 in Hne. apply orb_true_iff in Hne. exact Hne.
    + intros Hf _. apply Hp1, Hf.
Qed.

Lemma masks_agree_with_flags_witness :
  ∃ st,
    StencilBundleTempl.nano_block_vars true two_dim_bundle two_dim_settings
      (two_dim_block 1 30 3 29) = Ok st [] ∧
    (rem_masks st !!! 1%nat ≠ 0 ↔
     is_bit_set (do_right_pvecs st) 1 = true) ∧
    (is_bit_set (do_left_pvecs st) 1 = true →
     start (two_dim_block 1 30 3 29) !!! 2%nat
     < stop (two_dim_block 1 30 3 29) !!! 2%nat →
     peel_masks st !!! 1%nat ≠ 0).
Proof.
  destruct (masks_agree_with_flags true two_dim_bundle two_dim_settings
              (two_dim_block 1 30 3 29) 1 ltac:(reflexivity)
              ltac:(reflexivity) ltac:(cbn; lia))
    as (st & Hrun & _ & Hrem & _ & Hpeel).
  exists st. split; [exact Hrun|]. split; [exact Hrem | exact Hpeel].
Defined.

(** ** The decomposition is rank-relative *)

Lemma list_eq_total (l1 l2 : Indices) :
  length l1 = length l2 →
  (∀ i, (i < length l1)%nat → l1 !!! i = l2 !!! i) → l1 = l2.
Proof.
  revert l2. induction l1 as [|x l1 IH]; intros [|y l2] Hlen Hall;
    try discriminate; [reflexivity|].
  f_equal.
  - apply (Hall 0%nat). cbn. lia.
  - apply IH; [cbn in Hlen; lia|].
    intros i Hi. apply (Hall (S i)). cbn. lia.
Qed.

Lemma foldl_ext_seq {A : Type} (f g : A → nat → A) (a : A) (n : nat) :
  (∀ a j, (j < n)%nat → f a j = g a j) →
  foldl f a (seq 0 n) = foldl g a (seq 0 n).
Proof.
  intros Hfg. induction n as [|n IH]; [reflexivity|].
  rewrite seq_S, !foldl_app. cbn [foldl Nat.add].
  rewrite IH by (intros; apply Hfg; lia). apply Hfg. lia.
Qed.

Lemma existsb_ext_seq (c c' : nat → bool) (n : nat) :
  (∀ j, (j < n)%nat → c j = c' j) →
  existsb c (seq 0 n) = existsb c' (seq 0 n).
Proof.
  intros Hcc. induction n as [|n IH]; [reflexivity|].
  rewrite seq_S, !existsb_app. cbn [existsb Nat.add].
  rewrite IH by (intros; apply Hcc; lia). rewrite (Hcc n) by lia.
  reflexivity.
Qed.

(** Index sets written dim by dim agree when the values written agree and
    the sets written into agree in the step dim. *)
Lemma written_ext (f g f' g' : nat → Z) (s0 s0' : ScanIndices) (n : nat) :
  (∀ j, (j < n)%nat → f' j = f j ∧ g' j = g j) →
  length (begin s0) = S n → length (end_ s0) = S n →
  length (begin s0') = S n → length (end_ s0') = S n →
  begin s0' !!! 0%nat = begin s0 !!! 0%nat →
  end_ s0' !!! 0%nat = end_ s0 !!! 0%nat →
  begin (written f' g' s0' n) = begin (written f g s0 n) ∧
  end_ (written f' g' s0' n) = end_ (written f g s0 n).
Proof.
  intros Hfg L1 L2 L1' L2' B0 E0.
  destruct (written_fields f g s0 n) as (W1 & W2 & W3 & W4 & _).
  destruct (written_fields f' g' s0' n) as (W1' & W2' & W3' & W4' & _).
  split; apply list_eq_total; try lia.
  - intros [|j] Hi; [lia|].
    assert (Hj : (j < n)%nat) by lia.
    destruct (written_lookup f g s0 n j) as [-> _]; try lia.
    destruct (written_lookup f' g' s0' n j) as [-> _]; try lia.
    apply Hfg, Hj.
  - intros [|j] Hi; [lia|].
    assert (Hj : (j < n)%nat) by lia.
    destruct (written_lookup f g s0 n j) as [_ ->]; try lia.
    destruct (written_lookup f' g' s0' n j) as [_ ->]; try lia.
    apply Hfg, Hj.
Qed.

Lemma concat_fmap_ext {A B : Type} (f g : A → list B) (l : list A) :
  (∀ x, x ∈ l → f x = g x) → concat (f <$> l) = concat (g <$> l).
Proof.
  intros Hfg. induction l as [|x l IH]; [reflexivity|].
  cbn [fmap list_fmap concat]. rewrite (Hfg x) by constructor.
  f_equal. apply IH. intros y Hy. apply Hfg. constructor. exact Hy.
Qed.

Lemma part_spec_ext (n : nat) (st st' : NanoBlockVars)
    (nfc nfv nov : ScanIndices) (cd lr : Z) :
  do_left_fvecs st' = do_left_fvecs st →
  do_right_fvecs st' = do_right_fvecs st →
  do_left_pvecs st' = do_left_pvecs st →
  do_right_pvecs st' = do_right_pvecs st →
  peel_masks st' = peel_masks st → rem_masks st' = rem_masks st →
  part_spec n st' nfc nfv nov cd lr = part_spec n st nfc nfv nov cd lr.
Proof.
  intros H1 H2 H3 H4 H5 H6.
  unfold part_spec. f_equal.
  - apply forallb_ext_seq. intros j _. unfold fv_dim_needed.
    rewrite H1, H2. reflexivity.
  - apply forallb_ext_seq. intros j _. unfold pv_dim_needed.
    rewrite H3, H4. reflexivity.
  - apply foldl_ext_seq. intros m j _. unfold and_dim_mask.
    rewrite H5, H6. reflexivity.
Qed.

(** The local vars of a dim depend on the block and on the rank offset
    only through the rank-relative begin and end. *)
Lemma dim_result_relative (ctx ctx' : StencilContext)
    (sb sb' : ScanIndices) (j : nat) :
  dims ctx' = dims ctx →
  begin sb' !!! S j - rank_domain_offsets ctx' !!! j =
    begin sb !!! S j - rank_domain_offsets ctx !!! j →
  end_ sb' !!! S j - rank_domain_offsets ctx' !!! j =
    end_ sb !!! S j - rank_domain_offsets ctx !!! j →
  dim_result ctx' sb' j = dim_result ctx sb j ∧
  dim_keeps_clusters ctx' sb' j = dim_keeps_clusters ctx sb j.
Proof.
  intros Hd Hx Hy.
  assert (Hdb : StencilBundleTempl.dim_bounds ctx' sb' (S j) j =
                StencilBundleTempl.dim_bounds ctx sb (S j) j).
  { unfold StencilBundleTempl.dim_bounds. cbn zeta.
    rewrite Hd, Hx, Hy. reflexivity. }
  assert (Hdv : StencilBundleTempl.dim_vars false ctx' sb' true (S j) j =
                StencilBundleTempl.dim_vars false ctx sb true (S j) j).
  { unfold StencilBundleTempl.dim_vars,
      StencilBundleTempl.dim_bounds_checked. cbn zeta.
    rewrite Hdb, Hd. reflexivity. }
  unfold dim_result, dim_keeps_clusters. rewrite Hdv, Hdb.
  split; reflexivity.
Qed.

(** X13. The calls of [calc_nano_block_opt] depend on the position of
    the block and on the rank offsets only through the rank-relative
    begin and end: two ranks with the same folds and clusters make the
    same calls, with the same normalized ranges and masks, for blocks
    that have the same rank-relative element range. *)
Theorem rank_offset_invariance (DEBUG : bool) (b b' : StencilBundleTempl.t)
    (outer inner : Z) (settings : KernelSettings)
    (micro micro' : ScanIndices) :
  let ctx := StencilBundleTempl._context b in
  let ctx' := StencilBundleTempl._context b' in
  let n := nddims ctx in
  context_ok ctx = true → context_ok ctx' = true →
  dims ctx' = dims ctx → nddims ctx' = n →
  thread_limit ctx' = thread_limit ctx →
  block_ok n micro = true → block_ok n micro' = true →
  (DEBUG = true → caller_aligned n (dims ctx) settings micro = true) →
  align micro' = align micro →
  length (align_ofs micro') = length (align_ofs micro) →
  start micro' !!! step_posn = start micro !!! step_posn →
  stop micro' !!! step_posn = stop micro !!! step_posn →
  (∀ j, (j < n)%nat →
        start micro' !!! S j - rank_domain_offsets ctx' !!! j =
          start micro !!! S j - rank_domain_offsets ctx !!! j ∧
        stop micro' !!! S j - rank_domain_offsets ctx' !!! j =
          stop micro !!! S j - rank_domain_offsets ctx !!! j) →
  StencilBundleTempl.calc_nano_block_opt DEBUG b' outer inner settings micro'
  = StencilBundleTempl.calc_nano_block_opt DEBUG b outer inner settings micro.
Proof.
  intros ctx ctx' n Hctx Hctx' Hd Hn Ht Hblk Hblk' Hcal Hal Hao Hs0 He0 Hrel.
  pose proof (context_ok_dims ctx Hctx) as Hok.
  pose proof (context_ok_dims ctx' Hctx') as Hok'.
  assert (Hblk'' : block_ok (nddims ctx') micro' = true)
    by (rewrite Hn; exact Hblk').
  assert (Hcal' : DEBUG = true →
            caller_aligned (nddims ctx') (dims ctx') settings micro' = true).
  { intros HD. rewrite Hn, Hd. unfold caller_aligned in *.
    rewrite Hal. apply Hcal, HD. }
  rewrite (calc_nano_block_opt_run DEBUG b' outer inner settings micro'
             Hok' Hblk'' Hcal').
  rewrite (calc_nano_block_opt_run DEBUG b outer inner settings micro
             Hok Hblk Hcal).
  fold ctx ctx' n. rewrite Hn.
  set (sb := StencilBundleTempl.nano_block_idxs settings micro).
  set (sb' := StencilBundleTempl.nano_block_idxs settings micro').
  set (st := loop_state ctx sb n).
  set (st' := loop_state ctx' sb' n).
  destruct (sb_begin_end b settings micro Hblk) as (Hb & He & L1 & L2 & _).
  destruct (sb_begin_end b' settings micro' Hblk'')
    as (Hb' & He' & L1' & L2' & _).
  fold ctx n sb in Hb, He, L1, L2.
  fold ctx' sb' in Hb', He', L1', L2'. rewrite Hn in L1', L2'.
  assert (Hdr : ∀ j, (j < n)%nat →
            dim_result ctx' sb' j = dim_result ctx sb j ∧
            dim_keeps_clusters ctx' sb' j = dim_keeps_clusters ctx sb j).
  { intros j Hj. destruct (Hrel j Hj) as [Hx Hy].
    apply dim_result_relative; [exact Hd | |]; rewrite ?Hb, ?Hb', ?He, ?He';
      assumption. }
  (* flags and masks *)
  destruct (loop_state_flags ctx sb n)
    as (F1 & F2 & F3 & F4 & F5 & F6 & F7 & F8).
  destruct (loop_state_flags ctx' sb' n)
    as (F1' & F2' & F3' & F4' & F5' & F6' & F7' & F8').
  fold st in F1, F2, F3, F4, F5, F6, F7, F8.
  fold st' in F1', F2', F3', F4', F5', F6', F7', F8'.
  rewrite Hn in F5', F6'. fold n in F5, F6.
  assert (G1 : do_left_fvecs st' = do_left_fvecs st).
  { rewrite F1, F1'. apply foldl_ext_seq. intros a j Hj.
    destruct (Hdr j Hj) as [-> _]. reflexivity. }
  assert (G2 : do_right_fvecs st' = do_right_fvecs st).
  { rewrite F2, F2'. apply foldl_ext_seq. intros a j Hj.
    destruct (Hdr j Hj) as [-> _]. reflexivity. }
  assert (G3 : do_left_pvecs st' = do_left_pvecs st).
  { rewrite F3, F3'. apply foldl_ext_seq. intros a j Hj.
    destruct (Hdr j Hj) as [-> _]. reflexivity. }
  assert (G4 : do_right_pvecs st' = do_right_pvecs st).
  { rewrite F4, F4'. apply foldl_ext_seq. intros a j Hj.
    destruct (Hdr j Hj) as [-> _]. reflexivity. }
  assert (G5 : peel_masks st' = peel_masks st).
  { rewrite F5, F5'. apply foldl_ext_seq. intros a j Hj.
    destruct (Hdr j Hj) as [-> _]. reflexivity. }
  assert (G6 : rem_masks st' = rem_masks st).
  { rewrite F6, F6'. apply foldl_ext_seq. intros a j Hj.
    destruct (Hdr j Hj) as [-> _]. reflexivity. }
  assert (G7 : do_clusters st' = do_clusters st).
  { rewrite F7, F7'. apply foldl_ext_seq. intros a j Hj.
    destruct (Hdr j Hj) as [_ ->]. reflexivity. }
  assert (G8 : do_outside_clusters st' = do_outside_clusters st).
  { rewrite F8, F8'. apply foldl_ext_seq. intros a j Hj.
    destruct (Hdr j Hj) as [-> _]. reflexivity. }
  (* index sets *)
  destruct (loop_state_indices ctx sb n) as (_ & Ifc & Ifv & Iov).
  destruct (loop_state_indices ctx' sb' n) as (_ & Ifc' & Ifv' & Iov').
  fold st in Ifc, Ifv, Iov. fold st' in Ifc', Ifv', Iov'.
  set (rr := with_align_ofs (set_from_const (align_ofs sb) 0) sb) in *.
  set (rr' := with_align_ofs (set_from_const (align_ofs sb') 0) sb') in *.
  assert (Hrr : stride rr' = stride rr ∧ tile_size rr' = tile_size rr ∧
                align rr' = align rr ∧ align_ofs rr' = align_ofs rr).
  { subst rr rr' sb sb'. cbn. rewrite Hal. repeat split; try reflexivity.
    unfold set_from_const. apply list_eq_total.
    - rewrite !length_fmap. exact Hao.
    - intros i Hi. rewrite length_fmap in Hi.
      rewrite (list_lookup_total_fmap _ (align_ofs micro') i) by lia.
      rewrite (list_lookup_total_fmap _ (align_ofs micro) i) by lia.
      reflexivity. }
  assert (Hns : ∀ f g f' g',
            (∀ j, (j < n)%nat → f' j = f j ∧ g' j = g j) →
            normalized_scan (dims ctx') n (written f' g' rr' n) =
            normalized_scan (dims ctx) n (written f g rr n)).
  { intros f g f' g' Hfg.
    destruct (written_ext f g f' g' rr rr' n Hfg) as [Wb We];
      try (subst rr rr'; cbn [begin end_ with_align_ofs]; assumption).
    destruct (written_fields f g rr n)
      as (_ & _ & _ & _ & W5 & W6 & W7 & W8).
    destruct (written_fields f' g' rr' n)
      as (_ & _ & _ & _ & W5' & W6' & W7' & W8').
    destruct Hrr as (R5 & R6 & R7 & R8).
    unfold normalized_scan.
    rewrite Hd, Wb, We, W5, W6, W7, W8, W5', W6', W7', W8', R5, R6, R7, R8.
    reflexivity. }
  assert (Nfc : normalized_scan (dims ctx') n (sb_fcidxs st') =
                normalized_scan (dims ctx) n (sb_fcidxs st)).
  { rewrite Ifc, Ifc'. apply Hns. intros j Hj.
    destruct (Hdr j Hj) as [-> _]. split; reflexivity. }
  assert (Nfv : normalized_scan (dims ctx') n (sb_fvidxs st') =
                normalized_scan (dims ctx) n (sb_fvidxs st)).
  { rewrite Ifv, Ifv'. apply Hns. intros j Hj.
    destruct (Hdr j Hj) as [-> _]. split; reflexivity. }
  assert (Nov : normalized_scan (dims ctx') n (sb_ovidxs st') =
                normalized_scan (dims ctx) n (sb_ovidxs st)).
  { rewrite Iov, Iov'. apply Hns. intros j Hj.
    destruct (Hdr j Hj) as [-> _]. split; reflexivity. }
  assert (Hbc : ∀ nfc nfv nov,
            boundary_calls ctx' outer inner st' nfc nfv nov =
            boundary_calls ctx outer inner st nfc nfv nov).
  { intros nfc nfv nov.
    unfold boundary_calls, level_calls, combo_calls.
    rewrite Hn. fold n.
    apply concat_fmap_ext. intros k _.
    apply concat_fmap_ext. intros r _.
    apply concat_fmap_ext. intros lr _.
    unfold part_calls. rewrite !calc_part_spec, Ht.
    rewrite (part_spec_ext n st st') by assumption. reflexivity. }
  unfold dispatch_calls. cbn zeta. rewrite Hn. fold n.
  rewrite Nfc, Nfv, Nov, G7, G8, Ht, Hbc. reflexivity.
Qed.

Lemma rank_offset_invariance_witness :
  StencilBundleTempl.calc_nano_block_opt true halo_bundle 0 0
    one_dim_settings (one_dim_block 6 33)
  = StencilBundleTempl.calc_nano_block_opt true one_dim_bundle 0 0
      one_dim_settings (one_dim_block 3 30).
Proof.
  apply (rank_offset_invariance true one_dim_bundle halo_bundle 0 0
           one_dim_settings (one_dim_block 3 30) (one_dim_block 6 33));
    try reflexivity.
  intros j Hj. cbn in Hj. replace j with 0%nat by lia.
  split; reflexivity.
Defined.

(** ** The number of scalar calls *)

Lemma length_range_points_unit (b e : Z) :
  Z.of_nat (length (range_points b e 1)) = Z.max 0 (e - b).
Proof.
  unfold range_points. cbn [Z.ltb Z.compare].
  rewrite length_fmap, length_seqZ.
  replace ((e - b + 1 - 1) / 1) with (e - b) by (rewrite Z.div_1_r; lia).
  lia.
Qed.

Lemma length_bind_const {A B : Type} (l : list A) (f : A → list B) (m : nat) :
  (∀ x, length (f x) = m) → length (l ≫= f) = (length l * m)%nat.
Proof.
  intros Hf. induction l as [|x l IH]; [reflexivity|].
  cbn [mbind list_bind]. change (foldr _ _ _) with (f x ++ (l ≫= f)).
  rewrite length_app, IH, Hf. cbn. lia.
Qed.

Lemma length_scan_points_unit (bgn en : Indices) :
  Z.of_nat (length (scan_points bgn en ((λ _, 1) <$> bgn))) =
  product (zip_with (λ b e, Z.max 0 (e - b)) bgn en).
Proof.
  revert en. induction bgn as [|b bgn IH]; intros [|e en]; try reflexivity.
  cbn [fmap list_fmap scan_points zip_with].
  rewrite (length_bind_const _ _
             (length (scan_points bgn en ((λ _, 1) <$> bgn)))).
  - rewrite Nat2Z.inj_mul, length_range_points_unit, IH.
    unfold product. cbn [foldr]. reflexivity.
  - intros x. apply length_fmap.
Qed.

Lemma product_nonneg_zero (l : Indices) (i : nat) :
  l !!! i = 0 → (i < length l)%nat → product l = 0.
Proof.
  revert i. induction l as [|x l IH]; intros [|i] Hz Hi; cbn in Hi;
    try lia.
  - cbn in Hz. subst x. unfold product. cbn. lia.
  - unfold product in *. cbn [foldr].
    rewrite (IH i); [lia | exact Hz | lia].
Qed.

(** X14. The scalar debug code [calc_nano_block_dbg] calls the scalar
    kernel once per element of the block: the number of calls is the
    product of the extents [stop - start] of the domain dims, and no call
    is made when the block is empty in some domain dim. *)
Theorem scalar_call_count (b : StencilBundleTempl.t) (outer inner : Z)
    (settings : KernelSettings) (micro_block_idxs : ScanIndices) :
  length (stride micro_block_idxs) = length (start micro_block_idxs) →
  ∃ pts,
    StencilBundleTempl.calc_nano_block_dbg b outer inner settings
      micro_block_idxs = Ok tt (CalcScalar outer <$> pts) ∧
    Z.of_nat (length pts) =
      product (zip_with (λ b e, Z.max 0 (e - b))
                 (tail (start micro_block_idxs))
                 (tail (stop micro_block_idxs))) ∧
    ((∃ j, (S j < length (start micro_block_idxs))%nat ∧
           (S j < length (stop micro_block_idxs))%nat ∧
           stop micro_block_idxs !!! S j ≤ start micro_block_idxs !!! S j) →
     pts = []).
Proof.
  intros Hstr.
  exists (region_points (start micro_block_idxs) (stop micro_block_idxs)).
  split; [apply calc_nano_block_dbg_run; exact Hstr|].
  assert (Hlen : Z.of_nat (length (region_points (start micro_block_idxs)
                                     (stop micro_block_idxs))) =
                 product (zip_with (λ b e, Z.max 0 (e - b))
                            (tail (start micro_block_idxs))
                            (tail (stop micro_block_idxs)))).
  { unfold region_points. rewrite length_fmap.
    apply length_scan_points_unit. }
  split; [exact Hlen|].
  intros (j & Hj1 & Hj2 & Hle).
  apply length_zero_iff_nil. apply Nat2Z.inj. rewrite Hlen.
  destruct (start micro_block_idxs) as [|s0 ss]; [cbn in Hj1; lia|].
  destruct (stop micro_block_idxs) as [|e0 es]; [cbn in Hj2; lia|].
  cbn [tail] in *. cbn in Hj1, Hj2.
  change ((s0 :: ss) !!! S j) with (ss !!! j) in Hle.
  change ((e0 :: es) !!! S j) with (es !!! j) in Hle.
  apply (product_nonneg_zero _ j).
  - apply list_lookup_total_correct. rewrite lookup_zip_with.
    rewrite (list_lookup_lookup_total_lt ss j) by lia.
    rewrite (list_lookup_lookup_total_lt es j) by lia.
    cbn. f_equal. lia.
  - rewrite length_zip_with. lia.
Qed.

Lemma scalar_call_count_witness :
  ∃ pts,
    StencilBundleTempl.calc_nano_block_dbg two_dim_bundle 0 0
      two_dim_settings (two_dim_block 1 30 3 29) = Ok tt (CalcScalar 0 <$> pts) ∧
    Z.of_nat (length pts) = 29 * 26.
Proof.
  destruct (scalar_call_count two_dim_bundle 0 0 two_dim_settings
              (two_dim_block 1 30 3 29) ltac:(reflexivity))
    as (pts & Hrun & Hlen & _).
  exists pts. split; [exact Hrun | exact Hlen].
Defined.

(** ** The assertions of [normalize_indices] on a whole index set *)

Lemma normalize_indices_debug_aligned (b : StencilBundleTempl.t)
    (orig : Indices) :
  let ctx := StencilBundleTempl._context b in
  if fold_aligned (nddims ctx) (dims ctx) orig
  then StencilBundleTempl.normalize_indices true b orig =
       Ok (normalized (dims ctx) (nddims ctx) orig) []
  else ∃ msg, StencilBundleTempl.normalize_indices true b orig = Fault msg [].
Proof.
  intros ctx. rewrite normalize_indices_debug. fold ctx.
  unfold fold_aligned.
  destruct (bool_decide (length orig = S (nddims ctx))); cbn [andb];
    [|eauto].
  destruct (forallb _ _); [reflexivity | eauto].
Qed.

Lemma fold_aligned_divides (n : nat) (d : Dims) (l : Indices) :
  (∀ j, (j < n)%nat → 0 < _fold_pts d !!! j) →
  fold_aligned n d l = true ↔
  length l = S n ∧ ∀ j, (j < n)%nat → (_fold_pts d !!! j | l !!! S j).
Proof.
  intros Hpos. split.
  - intros Hal. destruct (fold_aligned_inv _ _ _ Hal) as [Hl Hmod].
    split; [exact Hl|]. intros j Hj. specialize (Hmod j Hj).
    unfold imod_flr in Hmod. apply Z.mod_divide; [|exact Hmod].
    specialize (Hpos j Hj). lia.
  - intros [Hl Hdiv]. apply fold_aligned_intro; assumption.
Qed.

(** X15. In a DEBUG build [normalize_indices] of a whole index set
    returns exactly when begin, end, tile size, alignment and stride all
    have one entry per stencil dim and whole vectors in every domain dim;
    it then divides these five tuples exactly, makes start and stop the
    normalized begin and end whatever they were before, and copies the
    alignment offsets unchanged and unchecked.  Otherwise an assertion
    fails before any call into the generated code. *)
Theorem normalize_scan_indices_checked (b : StencilBundleTempl.t)
    (orig : ScanIndices) :
  let ctx := StencilBundleTempl._context b in
  let n := nddims ctx in
  let V (j : nat) := _fold_pts (dims ctx) !!! j in
  let whole (l : Indices) :=
    length l = S n ∧ ∀ j, (j < n)%nat → (V j | l !!! S j) in
  let aligned :=
    whole (begin orig) ∧ whole (end_ orig) ∧ whole (tile_size orig) ∧
    whole (align orig) ∧ whole (stride orig) in
  (∀ j, (j < n)%nat → 0 < V j) →
  (aligned →
   ∃ norm,
     StencilBundleTempl.normalize_scan_indices true b orig = Ok norm [] ∧
     start norm = begin norm ∧ stop norm = end_ norm ∧
     align_ofs norm = align_ofs orig ∧
     ∀ j, (j < n)%nat →
          begin norm !!! S j * V j = begin orig !!! S j ∧
          end_ norm !!! S j * V j = end_ orig !!! S j ∧
          tile_size norm !!! S j * V j = tile_size orig !!! S j ∧
          align norm !!! S j * V j = align orig !!! S j ∧
          stride norm !!! S j * V j = stride orig !!! S j) ∧
  (¬ aligned →
   ∃ msg,
     StencilBundleTempl.normalize_scan_indices true b orig = Fault msg []).
Proof.
  intros ctx n V whole aligned Hpos.
  assert (Hw : ∀ l, fold_aligned n (dims ctx) l = true ↔ whole l)
    by (intros l; apply fold_aligned_divides; exact Hpos).
  assert (Hq : ∀ l j, whole l → (j < n)%nat →
            normalized (dims ctx) n l !!! S j * V j = l !!! S j).
  { intros l j [Hl Hdiv] Hj. rewrite normalized_lookup by lia. fold (V j).
    destruct (Hdiv j Hj) as [a ->]. rewrite Z.div_mul; [reflexivity|].
    specialize (Hpos j Hj). lia. }
  pose proof (normalize_indices_debug_aligned b (begin orig)) as N1.
  pose proof (normalize_indices_debug_aligned b (end_ orig)) as N2.
  pose proof (normalize_indices_debug_aligned b (tile_size orig)) as N3.
  pose proof (normalize_indices_debug_aligned b (align orig)) as N4.
  pose proof (normalize_indices_debug_aligned b (stride orig)) as N5.
  cbn zeta in N1, N2, N3, N4, N5. fold ctx n in N1, N2, N3, N4, N5.
  unfold StencilBundleTempl.normalize_scan_indices.
  split.
  - intros (A1 & A2 & A3 & A4 & A5).
    rewrite (proj2 (Hw _) A1) in N1. rewrite (proj2 (Hw _) A2) in N2.
    rewrite (proj2 (Hw _) A3) in N3. rewrite (proj2 (Hw _) A4) in N4.
    rewrite (proj2 (Hw _) A5) in N5.
    rewrite N1, N2, N3, N4, N5. cbn.
    eexists. split; [reflexivity|]. cbn.
    repeat split; try reflexivity; apply Hq; assumption.
  - intros Hna.
    destruct (fold_aligned n (dims ctx) (begin orig)) eqn:B1;
      [|destruct N1 as [msg ->]; eauto].
    rewrite N1.
    destruct (fold_aligned n (dims ctx) (end_ orig)) eqn:B2;
      [|destruct N2 as [msg ->]; cbn; eauto].
    rewrite N2.
    destruct (fold_aligned n (dims ctx) (tile_size orig)) eqn:B3;
      [|destruct N3 as [msg ->]; cbn; eauto].
    rewrite N3.
    destruct (fold_aligned n (dims ctx) (align orig)) eqn:B4;
      [|destruct N4 as [msg ->]; cbn; eauto].
    rewrite N4.
    destruct (fold_aligned n (dims ctx) (stride orig)) eqn:B5;
      [|destruct N5 as [msg ->]; cbn; eauto].
    exfalso. apply Hna. unfold aligned.
    repeat split; apply Hw; assumption.
Qed.

Lemma normalize_scan_indices_checked_witness :
  (∃ norm,
     StencilBundleTempl.normalize_scan_indices true one_dim_bundle
       (with_stride [1; 4] (one_dim_block 8 24)) = Ok norm [] ∧
     start norm = begin norm ∧ stop norm = end_ norm) ∧
  ∃ msg,
    StencilBundleTempl.normalize_scan_indices true one_dim_bundle
      (one_dim_block 8 24) = Fault msg [].
Proof.
  assert (Hpos : ∀ j, (j < 1)%nat →
                      0 < _fold_pts (dims one_dim_context) !!! j).
  { intros j Hj. replace j with 0%nat by lia. reflexivity. }
  assert (Hw : ∀ a : Z,
            length [1; 4 * a] = 2%nat ∧
            ∀ j, (j < 1)%nat →
                 (_fold_pts (dims one_dim_context) !!! j | [1; 4 * a] !!! S j)).
  { intros a. split; [reflexivity|]. intros j Hj.
    replace j with 0%nat by lia. exists a. cbn. lia. }
  split.
  - destruct (proj1 (normalize_scan_indices_checked one_dim_bundle
                       (with_stride [1; 4] (one_dim_block 8 24)) Hpos))
      as (norm & Hrun & Hs & He & _).
    + split; [exact (Hw 2)|]. split; [exact (Hw 6)|].
      split; [exact (Hw 2)|]. split; [exact (Hw 1) | exact (Hw 1)].
    + exists norm. split; [exact Hrun|]. split; [exact Hs | exact He].
  - apply (normalize_scan_indices_checked one_dim_bundle
             (one_dim_block 8 24) Hpos).
    intros (_ & _ & _ & _ & (_ & Hdiv)).
    destruct (Hdiv 0%nat (Nat.lt_0_succ 0)) as [a Ha]. cbn in Ha. lia.
Defined.

(** ** What [calc_nano_block_opt] passes to [normalize_indices] *)

Lemma forallb_false_seq (f : nat → bool) (n : nat) :
  forallb f (seq 0 n) = false → ∃ j, (j < n)%nat ∧ f j = false.
Proof.
  induction n as [|n IH]; [discriminate|].
  rewrite seq_S, forallb_app. cbn [forallb Nat.add].
  destruct (forallb f (seq 0 n)).
  - rewrite andb_true_r. cbn [andb]. intros Hf. exists n. split; [lia|exact Hf].
  - intros _. destruct (IH eq_refl) as (j & Hj & Hf).
    exists j. split; [lia|exact Hf].
Qed.

(** C8, as stated, fails: the stride that [calc_nano_block_opt] passes to
    [normalize_indices] is the pico-block size of the settings, which the
    function takes over as it is.  With a pico-block of 6 elements and
    vectors of 4 the remainder is 2: the assertion fails in a DEBUG
    build, and a release build normalizes the stride 6 to 1. *)
Lemma normalize_indices_counterexample :
  ¬ (∀ (b : StencilBundleTempl.t) (settings : KernelSettings)
       (micro_block_idxs : ScanIndices) (st : NanoBlockVars),
       context_ok (StencilBundleTempl._context b) = true →
       block_ok (nddims (StencilBundleTempl._context b)) micro_block_idxs
       = true →
       StencilBundleTempl.nano_block_vars false b settings micro_block_idxs
       = Ok st [] →
       ∀ idxs orig j,
         idxs ∈ [sb_fcidxs st; sb_fvidxs st; sb_ovidxs st] →
         orig ∈ [begin idxs; end_ idxs; tile_size idxs; align idxs;
                 stride idxs] →
         (j < nddims (StencilBundleTempl._context b))%nat →
         imod_flr (orig !!! S j)
                  (_fold_pts (dims (StencilBundleTempl._context b)) !!! j)
         = 0) ∧
  (∃ st,
     StencilBundleTempl.nano_block_vars true one_dim_bundle
       unaligned_settings (one_dim_block 0 8) = Ok st [] ∧
     stride (sb_fcidxs st) = [1; 6] ∧
     imod_flr (stride (sb_fcidxs st) !!! 1%nat) 4 = 2 ∧
     StencilBundleTempl.normalize_indices true one_dim_bundle
       (stride (sb_fcidxs st))
     = Fault "imod_flr(orig[i], fold_pts[j]) == 0" [] ∧
     StencilBundleTempl.normalize_indices false one_dim_bundle
       (stride (sb_fcidxs st)) = Ok [1; 1] []) ∧
  (∃ tr,
     StencilBundleTempl.calc_nano_block_opt true one_dim_bundle 0 0
       unaligned_settings (one_dim_block 0 8)
     = Fault "imod_flr(orig[i], fold_pts[j]) == 0" tr).
Proof.
  split; [|split].
  - intros Hall.
    pose proof (Hall one_dim_bundle unaligned_settings (one_dim_block 0 8)
                  _ eq_refl eq_refl eq_refl _ [1; 6] 0%nat
                  ltac:(apply elem_of_cons; left; reflexivity)) as Hc.
    cbn in Hc. specialize (Hc ltac:(set_solver) ltac:(lia)).
    vm_compute in Hc. discriminate.
  - eexists. split; [vm_compute; reflexivity|].
    repeat split; vm_compute; reflexivity.
  - eexists. vm_compute. reflexivity.
Qed.

(** Exact normalization of an aligned tuple, in either build. *)
Lemma normalize_indices_aligned (DEBUG : bool) (b : StencilBundleTempl.t)
    (orig : Indices) :
  let ctx := StencilBundleTempl._context b in
  dims_ok (nddims ctx) (dims ctx) = true →
  fold_aligned (nddims ctx) (dims ctx) orig = true →
  ∃ norm,
    StencilBundleTempl.normalize_indices DEBUG b orig = Ok norm [] ∧
    length norm = length orig ∧
    norm !!! step_posn = orig !!! step_posn ∧
    ∀ j, (j < nddims ctx)%nat →
         imod_flr (orig !!! S j) (_fold_pts (dims ctx) !!! j) = 0 ∧
         norm !!! S j = idiv_flr (orig !!! S j) (_fold_pts (dims ctx) !!! j) ∧
         norm !!! S j * _fold_pts (dims ctx) !!! j = orig !!! S j.
Proof.
  intros ctx Hok Hal.
  exists (normalized (dims ctx) (nddims ctx) orig).
  split; [apply normalize_indices_run; intros _; exact Hal|].
  destruct (normalized_fields (dims ctx) (nddims ctx) orig) as [Hl H0].
  destruct (fold_aligned_inv _ _ _ Hal) as [Hlen Hmod].
  split; [exact Hl|]. split; [exact H0|].
  intros j Hj. specialize (Hmod j Hj).
  rewrite normalized_lookup by lia.
  split; [exact Hmod|]. split; [reflexivity|].
  destruct (dims_ok_inv _ _ Hok) as (_ & _ & _ & _ & Hdim & _).
  destruct (Hdim j Hj) as [HV _].
  unfold imod_flr in Hmod.
  assert (Hne : _fold_pts (dims ctx) !!! j ≠ 0) by lia.
  pose proof (Z.div_mod (orig !!! S j) (_fold_pts (dims ctx) !!! j) Hne)
    as Hdm.
  rewrite Hmod in Hdm. lia.
Qed.

(** Normalization of a tuple that is not aligned: a DEBUG build stops at
    an assertion; a release build rounds some entry down. *)
Lemma normalize_indices_unaligned (b : StencilBundleTempl.t)
    (orig : Indices) :
  let ctx := StencilBundleTempl._context b in
  dims_ok (nddims ctx) (dims ctx) = true →
  fold_aligned (nddims ctx) (dims ctx) orig = false →
  (∃ msg, StencilBundleTempl.normalize_indices true b orig = Fault msg []) ∧
  (length orig = S (nddims ctx) →
   ∃ norm j,
     StencilBundleTempl.normalize_indices false b orig = Ok norm [] ∧
     (j < nddims ctx)%nat ∧
     imod_flr (orig !!! S j) (_fold_pts (dims ctx) !!! j) ≠ 0 ∧
     norm !!! S j = idiv_flr (orig !!! S j) (_fold_pts (dims ctx) !!! j) ∧
     norm !!! S j * _fold_pts (dims ctx) !!! j < orig !!! S j).
Proof.
  intros ctx Hok Hal. split.
  - pose proof (normalize_indices_debug_aligned b orig) as Hd.
    cbn zeta in Hd. fold ctx in Hd. rewrite Hal in Hd. exact Hd.
  - intros Hlen. unfold fold_aligned in Hal.
    rewrite bool_decide_eq_true_2 in Hal by exact Hlen. cbn [andb] in Hal.
    destruct (forallb_false_seq _ _ Hal) as (j & Hj & Hf).
    apply Z.eqb_neq in Hf.
    exists (normalized (dims ctx) (nddims ctx) orig), j.
    split; [apply normalize_indices_run; discriminate|].
    split; [exact Hj|]. split; [exact Hf|].
    rewrite normalized_lookup by lia. split; [reflexivity|].
    destruct (dims_ok_inv _ _ Hok) as (_ & _ & _ & _ & Hdim & _).
    destruct (Hdim j Hj) as [HV _].
    unfold imod_flr in Hf.
    assert (Hne : _fold_pts (dims ctx) !!! j ≠ 0) by lia.
    pose proof (Z.div_mod (orig !!! S j) (_fold_pts (dims ctx) !!! j) Hne)
      as Hdm.
    pose proof (Z.mod_pos_bound (orig !!! S j) (_fold_pts (dims ctx) !!! j) HV)
      as Hmb.
    lia.
Qed.

(** C8, amended.  Of the tuples [calc_nano_block_opt] passes to
    [normalize_indices], the begin and end of [sb_fcidxs], [sb_fvidxs]
    and [sb_ovidxs] hold whole vectors in every domain dim, whatever the
    settings and whichever fixup ran: they are normalized exactly and
    the remainder assertion does not fail on them.  The tile size, the
    alignment and the stride of the three sets are not computed by the
    function: they are the nano-block tile sizes of the settings, the
    alignment of the micro-block and the pico-block sizes of the settings
    (with step stride 1), unchanged.  Each is normalized exactly when it
    has one entry per stencil dim and whole vectors in every domain dim;
    otherwise the assertion of a DEBUG build fails, and a release build
    rounds an entry down. *)
Theorem normalize_indices_exact (DEBUG : bool) (b : StencilBundleTempl.t)
    (settings : KernelSettings) (micro_block_idxs : ScanIndices)
    (Hctx : context_ok (StencilBundleTempl._context b) = true)
    (Hblk : block_ok (nddims (StencilBundleTempl._context b))
                     micro_block_idxs = true) :
  let ctx := StencilBundleTempl._context b in
  let V (j : nat) := _fold_pts (dims ctx) !!! j in
  let whole (orig : Indices) :=
    length orig = S (nddims ctx) ∧
    ∀ j, (j < nddims ctx)%nat → imod_flr (orig !!! S j) (V j) = 0 in
  let exact (D : bool) (orig : Indices) :=
    ∃ norm,
      StencilBundleTempl.normalize_indices D b orig = Ok norm [] ∧
      length norm = length orig ∧
      norm !!! step_posn = orig !!! step_posn ∧
      ∀ j, (j < nddims ctx)%nat →
           imod_flr (orig !!! S j) (V j) = 0 ∧
           norm !!! S j = idiv_flr (orig !!! S j) (V j) ∧
           norm !!! S j * V j = orig !!! S j in
  ∃ st,
    StencilBundleTempl.nano_block_vars DEBUG b settings micro_block_idxs
    = Ok st [] ∧
    ∀ idxs,
      idxs ∈ [sb_fcidxs st; sb_fvidxs st; sb_ovidxs st] →
      (∀ orig, orig ∈ [begin idxs; end_ idxs] →
               whole orig ∧ exact true orig ∧ exact false orig) ∧
      tile_size idxs = _nano_block_tile_sizes settings ∧
      align idxs = align micro_block_idxs ∧
      stride idxs = <[step_posn := 1]> (_pico_block_sizes settings) ∧
      ∀ orig, orig ∈ [tile_size idxs; align idxs; stride idxs] →
        (whole orig → exact true orig ∧ exact false orig) ∧
        (¬ whole orig →
         ∃ msg, StencilBundleTempl.normalize_indices true b orig
                = Fault msg []) ∧
        (¬ whole orig → length orig = S (nddims ctx) →
         ∃ norm j,
           StencilBundleTempl.normalize_indices false b orig = Ok norm [] ∧
           (j < nddims ctx)%nat ∧
           imod_flr (orig !!! S j) (V j) ≠ 0 ∧
           norm !!! S j = idiv_flr (orig !!! S j) (V j) ∧
           norm !!! S j * V j < orig !!! S j).
Proof.
  intros ctx V whole exact.
  pose proof (context_ok_dims _ Hctx) as Hok. fold ctx in Hok, Hblk.
  assert (Hwhole : ∀ orig,
            whole orig ↔ fold_aligned (nddims ctx) (dims ctx) orig = true).
  { intros orig. split.
    - intros [Hl Hmod]. unfold fold_aligned.
      rewrite bool_decide_eq_true_2 by exact Hl. cbn [andb].
      apply forallb_forall. intros j Hj. apply in_seq in Hj.
      apply Z.eqb_eq, Hmod. lia.
    - apply fold_aligned_inv. }
  assert (Hexact : ∀ D orig,
            fold_aligned (nddims ctx) (dims ctx) orig = true → exact D orig).
  { intros D orig Hal. apply (normalize_indices_aligned D b orig Hok Hal). }
  eexists. split; [apply nano_block_vars_run; assumption|].
  fold ctx. intros idxs Hin.
  destruct (final_aligned b settings micro_block_idxs Hok Hblk idxs Hin)
    as [A1 A2].
  destruct (final_fields b settings micro_block_idxs Hblk idxs)
    as (_ & _ & _ & _ & E5 & E6 & E7).
  { apply elem_of_cons. right. exact Hin. }
  fold ctx in A1, A2.
  split.
  { intros orig Horig.
    assert (Hal : fold_aligned (nddims ctx) (dims ctx) orig = true).
    { rewrite !elem_of_cons in Horig.
      destruct Horig as [->|[->|Horig]]; try assumption.
      apply elem_of_nil in Horig. contradiction. }
    split; [apply Hwhole, Hal|]. split; apply Hexact, Hal. }
  split; [exact E6|]. split; [exact E7|]. split; [exact E5|].
  intros orig _. split; [|split].
  - intros Hw. apply Hwhole in Hw. split; apply Hexact, Hw.
  - intros Hnw.
    destruct (fold_aligned (nddims ctx) (dims ctx) orig) eqn:Hal.
    + exfalso. apply Hnw, Hwhole, Hal.
    + apply (normalize_indices_unaligned b orig Hok Hal).
  - intros Hnw Hlen.
    destruct (fold_aligned (nddims ctx) (dims ctx) orig) eqn:Hal.
    + exfalso. apply Hnw, Hwhole, Hal.
    + apply (normalize_indices_unaligned b orig Hok Hal), Hlen.
Qed.

Lemma normalize_indices_exact_witness :
  ∃ st,
    StencilBundleTempl.nano_block_vars true one_dim_bundle unaligned_settings
      (one_dim_block 1 3) = Ok st [] ∧
    (∃ norm,
       StencilBundleTempl.normalize_indices true one_dim_bundle
         (end_ (sb_ovidxs st)) = Ok norm [] ∧
       norm !!! 1%nat * 4 = end_ (sb_ovidxs st) !!! 1%nat) ∧
    stride (sb_ovidxs st) = [1; 6] ∧
    ∃ msg,
      StencilBundleTempl.normalize_indices true one_dim_bundle
        (stride (sb_ovidxs st)) = Fault msg [].
Proof.
  destruct (normalize_indices_exact true one_dim_bundle unaligned_settings
              (one_dim_block 1 3) eq_refl eq_refl) as (st & Hrun & Hnorm).
  exists st. split; [exact Hrun|].
  destruct (Hnorm (sb_ovidxs st)) as (Hbe & _ & _ & Hstr & Hrest).
  { apply elem_of_cons. right. apply elem_of_cons. right.
    apply elem_of_cons. left. reflexivity. }
  split.
  - destruct (Hbe (end_ (sb_ovidxs st))) as (_ & (norm & Hn & _ & _ & Hj) & _).
    { apply elem_of_cons. right. apply elem_of_cons. left. reflexivity. }
    exists norm. split; [exact Hn|].
    apply (Hj 0%nat). cbn. lia.
  - split; [exact Hstr|].
    destruct (Hrest (stride (sb_ovidxs st))) as (_ & Hfault & _).
    { apply elem_of_cons. right. apply elem_of_cons. right.
      apply elem_of_cons. left. reflexivity. }
    apply Hfault. rewrite Hstr. intros [_ Hmod].
    specialize (Hmod 0%nat (Nat.lt_0_succ 0)). vm_compute in Hmod.
    discriminate.
Defined.
